(** * cxxnet: key encoder, pooling layer, instance store and MNIST iterator

    A shallow embedding of

    - [updater/updater.h]: [IAsyncUpdater::Update], [EncodeDataKey],
      [DecodeTag];
    - [layer/pooling_layer-inl.hpp]: [PoolingLayer::InitNode],
      [OnBatchSizeChanged], [Forward] and [Backprop];
    - [io/inst_vector.h]: [TensorVector] and [InstVector];
    - [io/iter_mnist-inl.hpp]: [MNISTIterator].

    C++ integers are integers of [Z] with the wrap-around of their type
    written out: [int] is 32 bits signed, [index_t] and [unsigned] are
    32 bits unsigned, [size_t] is 64 bits unsigned.  A call can return,
    stop the program with a message ([utils::Error], a failed
    [utils::Check] or [CHECK]), or leave the territory C++ defines (a
    vector read out of bounds, a division by zero). *)

From Stdlib Require Import ZArith Lia.
From stdpp Require Import base list strings.
From Stdlib Require Import Permutation.

Open Scope Z_scope.

(** ** Machine integers and outcomes *)

Module Machine.

Definition INT_MAX : Z := 2147483647.
Definition UINT_MOD : Z := 4294967296.
Definition SIZE_MOD : Z := 18446744073709551616.

(** [int]: two's-complement 32 bits.  Signed overflow is undefined in
    C++; it is modelled as the wrap-around every target of the library
    performs. *)
Definition wrap_int (x : Z) : Z := (x + 2147483648) mod UINT_MOD - 2147483648.

(** [unsigned] and [index_t] ([typedef unsigned index_t] in mshadow). *)
Definition u32 (x : Z) : Z := x mod UINT_MOD.

(** [size_t]. *)
Definition u64 (x : Z) : Z := x mod SIZE_MOD.

Definition is_int (x : Z) : Prop := - 2147483648 <= x <= INT_MAX.

(** The three ways a call can end. *)
Inductive outcome (A : Type) : Type :=
| Ok (a : A)
| Fatal (msg : string)
| Undefined.

Arguments Ok {A} a.
Arguments Fatal {A} msg.
Arguments Undefined {A}.

Definition bind {A B : Type} (m : outcome A) (k : A -> outcome B) : outcome B :=
  match m with
  | Ok a => k a
  | Fatal msg => Fatal msg
  | Undefined => Undefined
  end.

(** Modelled from the spec: [utils::Error] of utils/utils.h, a file
    that is missing here, reports its message and ends the program; the
    errors of the spec's taxonomy are all fatal. *)
Definition Error {A : Type} (msg : string) : outcome A := Fatal msg.

(** Modelled from the spec: [utils::Check(cond, msg)] is [utils::Error]
    when [cond] is false; dmlc's [CHECK(cond)] is the same with the
    text of the condition for a message. *)
Definition Check (cond : bool) (msg : string) : outcome unit :=
  if cond then Ok tt else Error msg.

(** A [std::vector] read [v[i]] with [i] a [size_t]: outside the vector
    the read is undefined. *)
Definition vec_at {A : Type} (v : list A) (i : Z) : outcome A :=
  if (0 <=? i) && (i <? Z.of_nat (length v)) then
    match v !! Z.to_nat i with
    | Some a => Ok a
    | None => Undefined
    end
  else Undefined.

(** [v.size()] *)
Definition vec_size {A : Type} (v : list A) : Z := Z.of_nat (length v).

End Machine.

Export Machine.

Notation "'let!' x ':=' m 'in' k" := (bind m (fun x => k))
  (at level 10, x name, m at level 100, k at level 200).
Notation "'check!' c 'else' msg 'in' k" := (bind (Check c msg) (fun _ => k))
  (at level 10, c at level 100, msg at level 100, k at level 200).

(** ** updater/updater.h *)

Module Updater.

(** [IUpdater<xpu>]: the pure virtual interface, over the state [U] of
    a concrete updater; [T2] stands for [mshadow::Tensor<xpu, 2>] and
    [V] for the visitor. *)
Class IUpdater (U T2 V : Type) : Type := {
  SetStream : U -> Z -> outcome U;
  Init : U -> outcome U;
  ApplyVisitor : U -> V -> outcome (U * V);
  StartRound : U -> Z -> outcome U;
  Update : U -> Z -> outcome U;
  Update_grad : U -> Z -> T2 -> outcome U;
  SetParam : U -> string -> string -> outcome U
}.

(** [IAsyncUpdater<xpu>]: what an asynchronous updater adds and has to
    provide itself, [N] being the nodes handed to [BeforeBackprop]. *)
Class IAsyncUpdater (U T2 V N : Type) : Type := {
  async_SetStream : U -> Z -> outcome U;
  async_Init : U -> outcome U;
  async_ApplyVisitor : U -> V -> outcome (U * V);
  async_StartRound : U -> Z -> outcome U;
  async_SetParam : U -> string -> string -> outcome U;
  BeforeBackprop : U -> list N -> list N -> outcome U;
  AfterBackprop : U -> bool -> Z -> outcome U;
  BeforeAllForward : U -> outcome U;
  UpdateWait : U -> outcome U
}.

(** The two disabled overloads of [IAsyncUpdater]. *)
Definition IAsyncUpdater_Update {U : Type} (self : U) (epoch : Z) : outcome U :=
  Error "IAsyncUpdater.Update call AfterBackprop instead".

Definition IAsyncUpdater_Update_grad {U T2 : Type} (self : U) (epoch : Z) (grad : T2)
  : outcome U :=
  Error "IAsyncUpdater.Update call AfterBackprop instead".

(** [class IAsyncUpdater : public IUpdater<xpu>]: every asynchronous
    updater is an updater whose [Update] overloads are the two above. *)
#[export] Instance IAsyncUpdater_is_IUpdater {U T2 V N : Type}
  `{IAsyncUpdater U T2 V N} : IUpdater U T2 V := {|
  SetStream := async_SetStream;
  Init := async_Init;
  ApplyVisitor := async_ApplyVisitor;
  StartRound := async_StartRound;
  Update := IAsyncUpdater_Update;
  Update_grad := IAsyncUpdater_Update_grad;
  SetParam := async_SetParam
|}.

Definition kDataKeyStep : Z := 4.

(** [strcmp(a, b) == 0] *)
Definition streq (a b : string) : bool := bool_decide (a = b).

Definition EncodeDataKey (layer_index : Z) (tag : string) : outcome Z :=
  if streq tag "bias" then Ok (wrap_int (wrap_int (layer_index * kDataKeyStep) + 1))
  else if streq tag "wmat" then Ok (wrap_int (wrap_int (layer_index * kDataKeyStep) + 0))
  else Error "EncodeDataKey: only support weight tag: wmat or bias".

(** [key % kDataKeyStep] is the remainder of the truncating division
    ([Z.rem]): negative for a negative key. *)
Definition DecodeTag (key : Z) : outcome string :=
  match Z.rem key kDataKeyStep with
  | 0 => Ok "wmat"%string
  | 1 => Ok "bias"%string
  | _ => Error "invalid key"
  end.

End Updater.

(** ** layer/pooling_layer-inl.hpp *)

Module Pooling.

(** [mshadow::Shape<4>] and [mshadow::Shape<2>]: [index_t] extents. *)
Record Shape4 : Type := mkShape4 { dim0 : Z; dim1 : Z; dim2 : Z; dim3 : Z }.
Record Shape2 : Type := mkShape2 { ext0 : Z; ext1 : Z }.

(** Modelled from the spec: [LayerParam] of layer/param.h, a file that
    is missing here, holds the configuration keys the spec lists for a
    pooling layer; the code reads them as [int]. *)
Record LayerParam : Type := mkLayerParam {
  kernel_height : Z;
  kernel_width : Z;
  stride : Z;
  pad_y : Z;
  pad_x : Z
}.

(** The layer kinds the template argument [mode] is compared with
    (constants of layer/layer.h). *)
Inductive LayerType : Type :=
| kMaxPooling
| kSumPooling
| kAvgPooling
| kOtherLayer (id : Z).

Definition is_max_or_sum (m : LayerType) : bool :=
  match m with kMaxPooling | kSumPooling => true | _ => false end.

Definition is_avg (m : LayerType) : bool :=
  match m with kAvgPooling => true | _ => false end.

Section Layer.

(** The tensor library is mshadow; its device memory and its
    expression templates are taken as they are. *)
Variable TData : Type.
Variable Exp : Type.

(** [mshadow::Tensor<xpu, 4>]: a shape and the memory it views. *)
Record Tensor4 : Type := mkTensor4 { shape_ : Shape4; dptr_ : TData }.

(** [mshadow::TensorContainer<xpu, 4>]: a tensor owning its memory. *)
Record TensorContainer : Type := mkContainer {
  tc_shape : Shape4;
  tc_pad : bool;
  tc_data : TData
}.

Record Node : Type := mkNode { data : Tensor4 }.

Record ConnectState : Type := mkConnectState { states : list TensorContainer }.

(** [PoolingLayer<Reducer, mode, xpu, is_identity, ForwardOp, BackOp>]:
    the template arguments the code branches on and the two members. *)
Record PoolingLayer : Type := mkPoolingLayer {
  mode : LayerType;
  is_identity : bool;
  param_ : LayerParam;
  in_shape_ : Shape2
}.

Variable empty_data : TData.
Variable realloc : Shape4 -> TData -> TData.

(** a tensor or a container read as an expression *)
Variable tensor_exp : Shape4 -> TData -> Exp.
(** [pad(e, pad_y, pad_x)] *)
Variable pad : Exp -> Z -> Z -> Exp.
(** [unpool<Reducer>(src, pooled, grad, ksize_y, ksize_x, stride)] *)
Variable unpool : Exp -> Exp -> Exp -> Z -> Z -> Z -> Exp.
(** [crop(e, shape, pad_y, pad_x)] *)
Variable crop : Exp -> Shape2 -> Z -> Z -> Exp.
(** [e * (1.0f / k)], [k] an [int] *)
Variable scale_inv : Exp -> Z -> Exp.
(** [dst = e]: [e] evaluated into the memory of [dst]; the library
    may refuse it (its own shape assertion). *)
Variable assign : Tensor4 -> Exp -> outcome Tensor4.

Definition default_container : TensorContainer :=
  mkContainer (mkShape4 0 0 0 0) true empty_data.

Definition set_pad (c : TensorContainer) (p : bool) : TensorContainer :=
  mkContainer (tc_shape c) p (tc_data c).

Definition Resize (c : TensorContainer) (s : Shape4) : TensorContainer :=
  mkContainer s (tc_pad c) (realloc s (tc_data c)).

(** [static_cast<index_t>(x)] of an [int] *)
Definition to_index_t (x : Z) : Z := u32 x.

(** One spatial extent of the output:
    [std::min(n + 2 * pad - ksize + kstride - 1, n + 2 * pad - 1) / kstride + 1]
    in [index_t] arithmetic; [2 * pad] is an [int] product converted
    on its way into the sum. *)
Definition pooled_extent (n pad_ ksize kstride : Z) : outcome Z :=
  let padded := u32 (n + to_index_t (wrap_int (2 * pad_))) in
  let a := u32 (u32 (u32 (padded - ksize) + kstride) - 1) in
  let b := u32 (padded - 1) in
  if kstride =? 0 then Undefined
  else Ok (u32 (Z.min a b / kstride + 1)).

Definition InitNode (self : PoolingLayer) (nodes_in nodes_out : list Node)
    (cstate : ConnectState)
  : outcome (PoolingLayer * list Node * ConnectState) :=
  check! (vec_size nodes_in =? 1) && (vec_size nodes_out =? 1)
    else "PoolingLayer: only support 1-1 connection" in
  let ksize_y := to_index_t (kernel_height (param_ self)) in
  let ksize_x := to_index_t (kernel_width (param_ self)) in
  let kstride := to_index_t (stride (param_ self)) in
  let! nin := vec_at nodes_in 0 in
  let ishape := shape_ (data nin) in
  let self' := mkPoolingLayer (mode self) (is_identity self) (param_ self)
                 (mkShape2 (dim2 ishape) (dim3 ishape)) in
  check! (0 <? kernel_height (param_ self)) && (0 <? kernel_width (param_ self))
    else "must set kernel_size correctly" in
  check! (ksize_x <=? dim3 ishape) && (ksize_y <=? dim2 ishape)
    else "kernel size exceed input" in
  let! oh := pooled_extent (dim2 ishape) (pad_y (param_ self)) ksize_y kstride in
  let! ow := pooled_extent (dim3 ishape) (pad_x (param_ self)) ksize_x kstride in
  let oshape := mkShape4 (dim0 ishape) (dim1 ishape) oh ow in
  let! nout := vec_at nodes_out 0 in
  let nodes_out' :=
    <[0%nat := mkNode (mkTensor4 oshape (dptr_ (data nout)))]> nodes_out in
  let st := resize 2 default_container (states cstate) in
  let! s0 := vec_at st 0 in
  let st := <[0%nat := set_pad s0 false]> st in
  let! s1 := vec_at st 1 in
  let st := <[1%nat := set_pad s1 false]> st in
  let! s0 := vec_at st 0 in
  let st := <[0%nat := Resize s0 oshape]> st in
  let! s1 := vec_at st 1 in
  let st := <[1%nat := Resize s1 ishape]> st in
  Ok (self', nodes_out', mkConnectState st).

Definition InitConnection := InitNode.

(** The gradient expression of the two identity branches. *)
Definition input_gradient (self : PoolingLayer) (nin nout : Node)
    (tmp : TensorContainer) : Exp :=
  let p := param_ self in
  crop (unpool (pad (tensor_exp (shape_ (data nin)) (dptr_ (data nin)))
                    (pad_y p) (pad_x p))
               (pad (tensor_exp (tc_shape tmp) (tc_data tmp)) 0 0)
               (pad (tensor_exp (shape_ (data nout)) (dptr_ (data nout))) 0 0)
               (kernel_height p) (kernel_width p) (stride p))
       (in_shape_ self) (pad_y p) (pad_x p).

(** [Backprop]: [tmp] names [states[0]] from the first line on and is
    read in the branches only; the branch for [!is_identity] ends in
    [utils::Error] before it computes anything. *)
Definition Backprop (self : PoolingLayer) (prop_grad : bool)
    (nodes_in nodes_out : list Node) (cstate : ConnectState)
  : outcome (list Node * list Node * ConnectState) :=
  if prop_grad then
    let p := param_ self in
    if is_identity self then
      if is_max_or_sum (mode self) then
        let! nin := vec_at nodes_in 0 in
        let! tmp := vec_at (states cstate) 0 in
        let! nout := vec_at nodes_out 0 in
        let! d := assign (data nin) (input_gradient self nin nout tmp) in
        Ok (<[0%nat := mkNode d]> nodes_in, nodes_out, cstate)
      else if is_avg (mode self) then
        let! nin := vec_at nodes_in 0 in
        let! tmp := vec_at (states cstate) 0 in
        let! nout := vec_at nodes_out 0 in
        let! d := assign (data nin)
                    (scale_inv (input_gradient self nin nout tmp)
                       (wrap_int (kernel_height p * kernel_width p))) in
        Ok (<[0%nat := mkNode d]> nodes_in, nodes_out, cstate)
      else Error "Unknown pooling mode"
    else Error "deprecated pooling with activation interface!"
  else Ok (nodes_in, nodes_out, cstate).

(** [F<ForwardOp>(e)] *)
Variable forward_op : Exp -> Exp.
(** [pool<Reducer>(src, pshape, ksize_y, ksize_x, stride)] *)
Variable pool : Exp -> Shape2 -> Z -> Z -> Z -> Exp.
(** [mshadow::Copy(dst, src, stream)]: [dst] after the copy; the
    library may refuse it (its own shape assertion). *)
Variable Copy : Tensor4 -> Tensor4 -> outcome Tensor4.

(** A container read through a [Tensor<xpu, 4> &], and the container
    after the tensor it is has become [t]. *)
Definition as_tensor (c : TensorContainer) : Tensor4 :=
  mkTensor4 (tc_shape c) (tc_data c).

Definition with_tensor (c : TensorContainer) (t : Tensor4) : TensorContainer :=
  mkContainer (shape_ t) (tc_pad c) (dptr_ t).

Definition OnBatchSizeChanged (self : PoolingLayer) (nodes_in nodes_out : list Node)
    (cstate : ConnectState) : outcome ConnectState :=
  let! nout := vec_at nodes_out 0 in
  let! s0 := vec_at (states cstate) 0 in
  Ok (mkConnectState (<[0%nat := Resize s0 (shape_ (data nout))]> (states cstate))).

(** The pooling expression of [Forward]; [pshape] is the shape of
    [nodes_out[0]->data[0][0]], the two inner extents of the output. *)
Definition pooled (self : PoolingLayer) (nin nout : Node) : Exp :=
  let p := param_ self in
  let pshape := mkShape2 (dim2 (shape_ (data nout))) (dim3 (shape_ (data nout))) in
  pool (pad (tensor_exp (shape_ (data nin)) (dptr_ (data nin))) (pad_y p) (pad_x p))
       pshape (kernel_height p) (kernel_width p) (stride p).

(** [Forward]: as in [Backprop], [tmp] names [states[0]] and is used in
    the branches only; [is_train] is not read.  [nodes_in] and
    [nodes_out] hold different nodes. *)
Definition Forward (self : PoolingLayer) (is_train : bool)
    (nodes_in nodes_out : list Node) (cstate : ConnectState)
  : outcome (list Node * list Node * ConnectState) :=
  let p := param_ self in
  let! nout := vec_at nodes_out 0 in
  let! nodes_in :=
    if is_identity self then Ok nodes_in
    else
      let! nin := vec_at nodes_in 0 in
      let! d := assign (data nin)
                  (forward_op (tensor_exp (shape_ (data nin)) (dptr_ (data nin)))) in
      Ok (<[0%nat := mkNode d]> nodes_in) in
  let! e :=
    if is_max_or_sum (mode self) then
      let! nin := vec_at nodes_in 0 in
      Ok (pooled self nin nout)
    else if is_avg (mode self) then
      let! nin := vec_at nodes_in 0 in
      Ok (scale_inv (pooled self nin nout)
            (wrap_int (kernel_height p * kernel_width p)))
    else Error "Unknown pooling mode" in
  let! tmp := vec_at (states cstate) 0 in
  let! t := assign (as_tensor tmp) e in
  let cstate := mkConnectState (<[0%nat := with_tensor tmp t]> (states cstate)) in
  let! d := Copy (data nout) t in
  Ok (nodes_in, <[0%nat := mkNode d]> nodes_out, cstate).

End Layer.

Arguments mkTensor4 {TData} _ _.
Arguments shape_ {TData} _.
Arguments dptr_ {TData} _.
Arguments mkContainer {TData} _ _ _.
Arguments tc_shape {TData} _.
Arguments tc_pad {TData} _.
Arguments tc_data {TData} _.
Arguments mkNode {TData} _.
Arguments data {TData} _.
Arguments mkConnectState {TData} _.
Arguments states {TData} _.
Arguments default_container {TData} _.
Arguments set_pad {TData} _ _.
Arguments Resize {TData} _ _ _.
Arguments InitNode {TData} _ _ _ _ _ _.
Arguments InitConnection {TData} _ _ _ _ _ _.
Arguments input_gradient {TData Exp} _ _ _ _ _ _ _ _.
Arguments Backprop {TData Exp} _ _ _ _ _ _ _ _ _ _ _.
Arguments as_tensor {TData} _.
Arguments with_tensor {TData} _ _.
Arguments OnBatchSizeChanged {TData} _ _ _ _ _.
Arguments pooled {TData Exp} _ _ _ _ _ _.
Arguments Forward {TData Exp} _ _ _ _ _ _ _ _ _ _ _ _.

End Pooling.

(** ** io/inst_vector.h *)

Module InstVec.

(** [mshadow::Shape<dim>]: the [dim] extents, [dim >= 1]. *)
Definition Shape : Type := list Z.

(** [Shape<dim>::Size()]: the product of the extents, accumulated in a
    [size_t]. *)
Definition Shape_Size (s : Shape) : Z :=
  match s with
  | [] => 0
  | d :: rest => fold_left (fun acc x => u64 (acc * x)) rest (u64 d)
  end.

(** The elements a tensor of shape [s] addresses: the product of the
    extents, over the integers ([Shape_Size] is this number as a
    [size_t]). *)
Definition Shape_count (s : Shape) : Z :=
  match s with
  | [] => 0
  | d :: rest => fold_left Z.mul rest d
  end.

(** [mshadow::Tensor<cpu, dim, DType>] as [operator[]] builds it:
    [dptr_] is [BeginPtr(content_) + offset_[i]], kept as the distance
    from the beginning of the buffer it points into.  A tensor belongs
    to the state of the buffer it was taken from: [Push] resizes the
    buffer and may move it, and a tensor taken before is not to be used
    after. *)
Record Tensor : Type := mkTensor { dptr_ : Z; tshape_ : Shape }.

(** [v.back()] *)
Definition vec_back {A : Type} (v : list A) : outcome A :=
  match last v with
  | Some a => Ok a
  | None => Undefined
  end.

Section TensorVector.

Variable DType : Type.
(** the value [content_.resize] gives a new element *)
Variable zero : DType.

Record TensorVector : Type := mkTensorVector {
  offset_ : list Z;
  content_ : list DType;
  shape_ : list Shape
}.

Definition Clear (self : TensorVector) : TensorVector :=
  mkTensorVector [0] [] [].

(** [TensorVector(void) { this->Clear(); }] *)
Definition TensorVector_new : TensorVector :=
  Clear (mkTensorVector [] [] []).

Definition Size (self : TensorVector) : Z := vec_size (shape_ self).

Definition Push (self : TensorVector) (shape : Shape) : outcome TensorVector :=
  let shape' := shape_ self ++ [shape] in
  let! b := vec_back (offset_ self) in
  let offset' := offset_ self ++ [u64 (b + Shape_Size shape)] in
  let! b' := vec_back offset' in
  Ok (mkTensorVector offset' (resize (Z.to_nat b') zero (content_ self)) shape').

(** [operator[](size_t i)] *)
Definition at_ (self : TensorVector) (i : Z) : outcome Tensor :=
  check! u64 (i + 1) <? vec_size (offset_ self)
    else "Check failed: i + 1 < offset_.size()" in
  let! sh := vec_at (shape_ self) i in
  let! o1 := vec_at (offset_ self) (u64 (i + 1)) in
  let! o0 := vec_at (offset_ self) i in
  check! Shape_Size sh =? u64 (o1 - o0)
    else "Check failed: shape_[i].Size() == offset_[i + 1] - offset_[i]" in
  Ok (mkTensor o0 sh).

Definition Back (self : TensorVector) : outcome Tensor :=
  at_ self (u64 (Size self - 1)).

(** Element [k] of a tensor that views the buffer [buf], [k] counting
    the elements the shape addresses: [dptr_[k]] read and written;
    outside the tensor or outside the buffer the access is undefined. *)
Definition tensor_get (buf : list DType) (t : Tensor) (k : Z) : outcome DType :=
  if (0 <=? k) && (k <? Shape_count (tshape_ t)) then vec_at buf (dptr_ t + k)
  else Undefined.

Definition tensor_set (buf : list DType) (t : Tensor) (k : Z) (x : DType)
  : outcome (list DType) :=
  if (0 <=? k) && (k <? Shape_count (tshape_ t)) then
    let! _ := vec_at buf (dptr_ t + k) in
    Ok (<[Z.to_nat (dptr_ t + k) := x]> buf)
  else Undefined.

(** A write through a view of the store lands in the store's buffer. *)
Definition write_through (self : TensorVector) (t : Tensor) (k : Z) (x : DType)
  : outcome TensorVector :=
  let! buf := tensor_set (content_ self) t k x in
  Ok (mkTensorVector (offset_ self) buf (shape_ self)).

Definition read_through (self : TensorVector) (t : Tensor) (k : Z) : outcome DType :=
  tensor_get (content_ self) t k.

(** Pushing a sequence of shapes, first to last. *)
Fixpoint Push_all (self : TensorVector) (shapes : list Shape) : outcome TensorVector :=
  match shapes with
  | [] => Ok self
  | s :: rest => let! self' := Push self s in Push_all self' rest
  end.

End TensorVector.

Arguments offset_ {DType} _.
Arguments content_ {DType} _.
Arguments shape_ {DType} _.
Arguments Clear {DType} _.
Arguments TensorVector_new {DType}.
Arguments Size {DType} _.
Arguments Push {DType} _ _ _.
Arguments at_ {DType} _ _.
Arguments Back {DType} _.
Arguments tensor_get {DType} _ _ _.
Arguments tensor_set {DType} _ _ _ _.
Arguments write_through {DType} _ _ _ _.
Arguments read_through {DType} _ _ _.
Arguments Push_all {DType} _ _ _.

Section InstVector.

(** [real_t], with the value a resized buffer is filled with *)
Variable real_t : Type.
Variable zero : real_t.

Record DataInst : Type := mkDataInst {
  index : Z;
  data : Tensor;
  label : Tensor
}.

Record InstVector : Type := mkInstVector {
  index_ : list Z;
  data_ : TensorVector real_t;
  label_ : TensorVector real_t
}.

(** the implicit default constructor *)
Definition InstVector_new : InstVector :=
  mkInstVector [] TensorVector_new TensorVector_new.

Definition InstVector_Size (self : InstVector) : Z := vec_size (index_ self).

(** [operator[](size_t i)] *)
Definition InstVector_at (self : InstVector) (i : Z) : outcome DataInst :=
  let! idx := vec_at (index_ self) i in
  let! d := at_ (data_ self) i in
  let! l := at_ (label_ self) i in
  Ok (mkDataInst idx d l).

Definition InstVector_Back (self : InstVector) : outcome DataInst :=
  InstVector_at self (u64 (InstVector_Size self - 1)).

Definition InstVector_Clear (self : InstVector) : InstVector :=
  mkInstVector [] (Clear (data_ self)) (Clear (label_ self)).

Definition InstVector_Push (self : InstVector) (index : Z) (dshape lshape : Shape)
  : outcome InstVector :=
  let index' := index_ self ++ [index] in
  let! d := Push zero (data_ self) dshape in
  let! l := Push zero (label_ self) lshape in
  Ok (mkInstVector index' d l).

(** Pushing a sequence of instances [(index, dshape, lshape)]. *)
Fixpoint InstVector_Push_all (self : InstVector) (insts : list (Z * Shape * Shape))
  : outcome InstVector :=
  match insts with
  | [] => Ok self
  | (i, ds, ls) :: rest =>
      let! self' := InstVector_Push self i ds ls in
      InstVector_Push_all self' rest
  end.

End InstVector.

Arguments index_ {real_t} _.
Arguments data_ {real_t} _.
Arguments label_ {real_t} _.
Arguments InstVector_new {real_t}.
Arguments InstVector_Size {real_t} _.
Arguments InstVector_at {real_t} _ _.
Arguments InstVector_Back {real_t} _.
Arguments InstVector_Clear {real_t} _.
Arguments InstVector_Push {real_t} _ _ _ _ _.
Arguments InstVector_Push_all {real_t} _ _ _.

End InstVec.

(** ** io/iter_mnist-inl.hpp *)

Module MNIST.

(** A [dmlc::Stream] opened for reading: the bytes still to come. *)
Definition Stream : Type := list Z.

(** [ReadInt]: four bytes, most significant first, or the failed
    [CHECK]. *)
Definition ReadInt (fi : Stream) : outcome (Z * Stream) :=
  match fi with
  | b0 :: b1 :: b2 :: b3 :: rest =>
      Ok (wrap_int (Z.lor (Z.lor (Z.lor (Z.shiftl b0 24) (Z.shiftl b1 16))
                             (Z.shiftl b2 8)) b3), rest)
  | _ => Fatal "invalid mnist format"
  end.

(** [CHECK(fi->Read(&ch, sizeof(ch) != 0))]: one byte, or the failed
    [CHECK] at the end of the stream. *)
Definition ReadByte (fi : Stream) : outcome (Z * Stream) :=
  match fi with
  | ch :: rest => Ok (ch, rest)
  | [] => Fatal "Check failed: Read(&ch, sizeof(ch) != 0)"
  end.

(** [DataBatch out_]: the three pointers are positions (counted in
    instances) in [img_], [labels_] and [inst_]; [None] is a pointer not
    set yet, or [NULL]. *)
Record DataBatch : Type := mkDataBatch {
  data_dptr : option Z;
  data_shape : Z * Z * Z * Z;
  data_stride : Z;
  label_dptr : option Z;
  label_shape : Z * Z;
  label_stride : Z;
  inst_index : option Z;
  batch_size : Z
}.

Section Iterator.

(** [float] and the random sampler, then the conversion of an
    [unsigned char] to a [float] and the product with [1.0f / 256.0f]. *)
Variable real_t : Type.
Variable RandomSampler : Type.
Variable of_uchar : Z -> real_t.
Variable scale256 : real_t -> real_t.
(** what a [float] holds before it is written *)
Variable fresh : real_t.

(** Modelled from the spec: [utils::RandomSampler] of utils/random.h, a
    file that is missing here, is a seeded generator; its [Shuffle]
    reorders a vector as a function of the generator's state. *)
Variable rnd_new : RandomSampler.
Variable rnd_Seed : RandomSampler -> Z -> RandomSampler.
Variable rnd_Shuffle : RandomSampler -> list Z -> RandomSampler * list Z.

(** [atoi] of the C library *)
Variable atoi : string -> Z.

(** One image, [img_[i]]: rows of pixels. *)
Definition Image : Type := list (list real_t).

Record MNISTIterator : Type := mkMNISTIterator {
  silent_ : Z;
  path_img : string;
  path_label : string;
  out_ : DataBatch;
  shuffle_ : Z;
  mode_ : Z;
  loc_ : Z;
  batch_size_ : Z;
  img_shape : Z * Z * Z;
  img_ : list Image;
  labels_ : list real_t;
  inst_offset_ : Z;
  inst_ : list Z;
  rnd : RandomSampler
}.

Definition kRandMagic : Z := 0.

(** [img_.size(0)] *)
Definition img_size0 (it : MNISTIterator) : Z := fst (fst (img_shape it)).
Definition img_size1 (it : MNISTIterator) : Z := snd (fst (img_shape it)).
Definition img_size2 (it : MNISTIterator) : Z := snd (img_shape it).

(** The constructor leaves [loc_], [batch_size_], the shape of [img_]
    and [out_] as they come: [loc0], [bs0], [shape0] and [out0] are what
    the memory happens to hold. *)
Definition MNISTIterator_new (loc0 bs0 : Z) (shape0 : Z * Z * Z) (out0 : DataBatch)
  : MNISTIterator :=
  mkMNISTIterator 0 "" "" out0 0 1 loc0 bs0 shape0 [] [] 0 []
    (rnd_Seed rnd_new kRandMagic).

Definition streq (a b : string) : bool := bool_decide (a = b).

Definition set_silent it v :=
  mkMNISTIterator v (path_img it) (path_label it) (out_ it) (shuffle_ it) (mode_ it)
    (loc_ it) (batch_size_ it) (img_shape it) (img_ it) (labels_ it)
    (inst_offset_ it) (inst_ it) (rnd it).
Definition set_batch_size it v :=
  mkMNISTIterator (silent_ it) (path_img it) (path_label it) (out_ it) (shuffle_ it)
    (mode_ it) (loc_ it) v (img_shape it) (img_ it) (labels_ it)
    (inst_offset_ it) (inst_ it) (rnd it).
Definition set_mode it v :=
  mkMNISTIterator (silent_ it) (path_img it) (path_label it) (out_ it) (shuffle_ it)
    v (loc_ it) (batch_size_ it) (img_shape it) (img_ it) (labels_ it)
    (inst_offset_ it) (inst_ it) (rnd it).
Definition set_shuffle it v :=
  mkMNISTIterator (silent_ it) (path_img it) (path_label it) (out_ it) v (mode_ it)
    (loc_ it) (batch_size_ it) (img_shape it) (img_ it) (labels_ it)
    (inst_offset_ it) (inst_ it) (rnd it).
Definition set_inst_offset it v :=
  mkMNISTIterator (silent_ it) (path_img it) (path_label it) (out_ it) (shuffle_ it)
    (mode_ it) (loc_ it) (batch_size_ it) (img_shape it) (img_ it) (labels_ it)
    v (inst_ it) (rnd it).
Definition set_path_img it v :=
  mkMNISTIterator (silent_ it) v (path_label it) (out_ it) (shuffle_ it) (mode_ it)
    (loc_ it) (batch_size_ it) (img_shape it) (img_ it) (labels_ it)
    (inst_offset_ it) (inst_ it) (rnd it).
Definition set_path_label it v :=
  mkMNISTIterator (silent_ it) (path_img it) v (out_ it) (shuffle_ it) (mode_ it)
    (loc_ it) (batch_size_ it) (img_shape it) (img_ it) (labels_ it)
    (inst_offset_ it) (inst_ it) (rnd it).
Definition set_rnd it v :=
  mkMNISTIterator (silent_ it) (path_img it) (path_label it) (out_ it) (shuffle_ it)
    (mode_ it) (loc_ it) (batch_size_ it) (img_shape it) (img_ it) (labels_ it)
    (inst_offset_ it) (inst_ it) v.
Definition set_loc it v :=
  mkMNISTIterator (silent_ it) (path_img it) (path_label it) (out_ it) (shuffle_ it)
    (mode_ it) v (batch_size_ it) (img_shape it) (img_ it) (labels_ it)
    (inst_offset_ it) (inst_ it) (rnd it).
Definition set_out it v :=
  mkMNISTIterator (silent_ it) (path_img it) (path_label it) v (shuffle_ it)
    (mode_ it) (loc_ it) (batch_size_ it) (img_shape it) (img_ it) (labels_ it)
    (inst_offset_ it) (inst_ it) (rnd it).
Definition set_img it sh v :=
  mkMNISTIterator (silent_ it) (path_img it) (path_label it) (out_ it) (shuffle_ it)
    (mode_ it) (loc_ it) (batch_size_ it) sh v (labels_ it)
    (inst_offset_ it) (inst_ it) (rnd it).
Definition set_labels it v w :=
  mkMNISTIterator (silent_ it) (path_img it) (path_label it) (out_ it) (shuffle_ it)
    (mode_ it) (loc_ it) (batch_size_ it) (img_shape it) (img_ it) v
    (inst_offset_ it) w (rnd it).

(** [SetParam]: a chain of independent tests, each with its effect. *)
Definition SetParam (it : MNISTIterator) (name val : string) : MNISTIterator :=
  let it := if streq name "silent" then set_silent it (atoi val) else it in
  let it := if streq name "batch_size" then set_batch_size it (u32 (atoi val)) else it in
  let it := if streq name "input_flat" then set_mode it (atoi val) else it in
  let it := if streq name "shuffle" then set_shuffle it (atoi val) else it in
  let it := if streq name "index_offset" then set_inst_offset it (u32 (atoi val)) else it in
  let it := if streq name "path_img" then set_path_img it val else it in
  let it := if streq name "path_label" then set_path_label it val else it in
  let it := if streq name "path_img" then set_path_img it val else it in
  if streq name "seed_data"
  then set_rnd it (rnd_Seed (rnd it) (wrap_int (kRandMagic + atoi val)))
  else it.

Definition BeforeFirst (it : MNISTIterator) : MNISTIterator := set_loc it 0.

Definition Next (it : MNISTIterator) : bool * MNISTIterator :=
  if u32 (loc_ it + batch_size_ it) <=? img_size0 it then
    let o := out_ it in
    let o' := mkDataBatch (Some (loc_ it)) (data_shape o) (data_stride o)
                (Some (loc_ it)) (label_shape o) (label_stride o)
                (Some (loc_ it)) (batch_size o) in
    (true, set_loc (set_out it o') (u32 (loc_ it + batch_size_ it)))
  else (false, it).

Definition Value (it : MNISTIterator) : DataBatch := out_ it.

(** The [cols] pixels of one row, the [rows] rows of one image, the
    [count] images: the three nested loops of [LoadImage]. *)
Fixpoint read_row (cols : nat) (fi : Stream) : outcome (list real_t * Stream) :=
  match cols with
  | O => Ok ([], fi)
  | S k =>
      let! r := ReadByte fi in
      let! r' := read_row k (snd r) in
      Ok (of_uchar (fst r) :: fst r', snd r')
  end.

Fixpoint read_image (rows cols : nat) (fi : Stream) : outcome (Image * Stream) :=
  match rows with
  | O => Ok ([], fi)
  | S j =>
      let! r := read_row cols fi in
      let! r' := read_image j cols (snd r) in
      Ok (fst r :: fst r', snd r')
  end.

Fixpoint read_images (count rows cols : nat) (fi : Stream)
  : outcome (list Image * Stream) :=
  match count with
  | O => Ok ([], fi)
  | S i =>
      let! r := read_image rows cols fi in
      let! r' := read_images i rows cols (snd r) in
      Ok (fst r :: fst r', snd r')
  end.

(** An image of the buffer before anything is written to it. *)
Definition fresh_image (sh : Z * Z * Z) : Image :=
  replicate (Z.to_nat (snd (fst sh))) (replicate (Z.to_nat (snd sh)) fresh).

(** [LoadImage], from the bytes of the image file.  The buffer has the
    [img_.size(0)] images of the shape, whatever the loops fill; the
    allocation [new float[img_.MSize()]] is taken to succeed. *)
Definition LoadImage (it : MNISTIterator) (stdimg : Stream) : outcome MNISTIterator :=
  let! r0 := ReadInt stdimg in
  let! r1 := ReadInt (snd r0) in
  let image_count := fst r1 in
  let! r2 := ReadInt (snd r1) in
  let image_rows := fst r2 in
  let! r3 := ReadInt (snd r2) in
  let image_cols := fst r3 in
  let! r := read_images (Z.to_nat image_count) (Z.to_nat image_rows)
              (Z.to_nat image_cols) (snd r3) in
  let sh := (u32 image_count, u32 image_rows, u32 image_cols) in
  Ok (set_img it sh
        (map (map (map scale256))
           (resize (Z.to_nat (u32 image_count)) (fresh_image sh) (fst r)))).

(** The loop of [LoadLabel]: [n] rounds left, [i] the loop counter (an
    [int] below [labels_count], so that [++i] stays an [int]). *)
Fixpoint LoadLabel_loop (n : nat) (i : Z) (off : Z) (fi : Stream)
    (labels : list real_t) (inst : list Z) : outcome (list real_t * list Z) :=
  match n with
  | O => Ok (labels, inst)
  | S n' =>
      let! r := ReadByte fi in
      let! _ := vec_at labels i in
      LoadLabel_loop n' (i + 1) off (snd r)
        (<[Z.to_nat i := of_uchar (fst r)]> labels)
        (inst ++ [u32 (u32 i + off)])
  end.

(** [LoadLabel], from the bytes of the label file; [labels_.resize] of a
    negative count asks for more than a vector can hold and throws. *)
Definition LoadLabel (it : MNISTIterator) (stdlabel : Stream) : outcome MNISTIterator :=
  let! r0 := ReadInt stdlabel in
  let! r1 := ReadInt (snd r0) in
  let labels_count := fst r1 in
  if labels_count <? 0 then Fatal "std::length_error"
  else
    let! r := LoadLabel_loop (Z.to_nat labels_count) 0 (inst_offset_ it) (snd r1)
                (resize (Z.to_nat labels_count) fresh (labels_ it)) (inst_ it) in
    Ok (set_labels it (fst r) (snd r)).

(** The loop of [Shuffle] over the shuffled identities, [i] the
    position being written. *)
Fixpoint Shuffle_loop (ids : list Z) (i : Z) (off : Z)
    (img : list Image) (labels : list real_t)
    (tmpimg : list Image) (tmplabel : list real_t)
  : outcome (list Image * list real_t) :=
  match ids with
  | [] => Ok (tmpimg, tmplabel)
  | id :: rest =>
      let ridx := u32 (id - off) in
      let! dst := vec_at tmpimg i in
      let! src := vec_at img ridx in
      let! _ := vec_at tmplabel i in
      let! l := vec_at labels ridx in
      Shuffle_loop rest (i + 1) off img labels
        (<[Z.to_nat i := src]> tmpimg) (<[Z.to_nat i := l]> tmplabel)
  end.

Definition Shuffle (it : MNISTIterator) : outcome MNISTIterator :=
  let r := rnd_Shuffle (rnd it) (inst_ it) in
  let it := set_labels (set_rnd it (fst r)) (labels_ it) (snd r) in
  let tmplabel := replicate (length (labels_ it)) fresh in
  let tmpimg := replicate (Z.to_nat (img_size0 it)) (fresh_image (img_shape it)) in
  let! r := Shuffle_loop (inst_ it) 0 (inst_offset_ it) (img_ it) (labels_ it)
              tmpimg tmplabel in
  Ok (set_labels (set_img it (img_shape it) (fst r)) (snd r) (inst_ it)).

(** [Init], from the bytes of the two files [path_img] and [path_label]
    name. *)
Definition Init (it : MNISTIterator) (img_file label_file : Stream)
  : outcome MNISTIterator :=
  let! it := LoadImage it img_file in
  let! it := LoadLabel it label_file in
  let b := batch_size_ it in
  let dshape :=
    if mode_ it =? 1 then (b, 1, 1, u32 (img_size1 it * img_size2 it))
    else (b, 1, img_size1 it, img_size2 it) in
  let o := mkDataBatch (data_dptr (out_ it)) dshape (snd dshape)
             (label_dptr (out_ it)) (b, 1) 1 None b in
  let it := set_out it o in
  if shuffle_ it =? 0 then Ok it else Shuffle it.

(** What a batch shows of the buffers it points into: [batch_size_]
    images, labels and identities from the position of its pointers. *)
Definition window {A : Type} (buf : list A) (p : option Z) (b : Z) : option (list A) :=
  match p with
  | Some pos =>
      if (0 <=? pos) && (pos + b <=? Z.of_nat (length buf))
      then Some (take (Z.to_nat b) (drop (Z.to_nat pos) buf))
      else None
  | None => None
  end.

Definition batch_images (it : MNISTIterator) : option (list Image) :=
  window (img_ it) (data_dptr (Value it)) (batch_size_ it).
Definition batch_labels (it : MNISTIterator) : option (list real_t) :=
  window (labels_ it) (label_dptr (Value it)) (batch_size_ it).
Definition batch_ids (it : MNISTIterator) : option (list Z) :=
  window (inst_ it) (inst_index (Value it)) (batch_size_ it).

(** [k] calls of [Next] in a row: the answers, first call first, and
    the iterator they leave. *)
Fixpoint Next_times (k : nat) (it : MNISTIterator) : list bool * MNISTIterator :=
  match k with
  | O => ([], it)
  | S k' =>
      let r := Next it in
      let r' := Next_times k' (snd r) in
      (fst r :: fst r', snd r')
  end.

End Iterator.

Arguments silent_ {real_t RandomSampler} _.
Arguments path_img {real_t RandomSampler} _.
Arguments path_label {real_t RandomSampler} _.
Arguments out_ {real_t RandomSampler} _.
Arguments shuffle_ {real_t RandomSampler} _.
Arguments mode_ {real_t RandomSampler} _.
Arguments loc_ {real_t RandomSampler} _.
Arguments batch_size_ {real_t RandomSampler} _.
Arguments img_shape {real_t RandomSampler} _.
Arguments img_ {real_t RandomSampler} _.
Arguments labels_ {real_t RandomSampler} _.
Arguments inst_offset_ {real_t RandomSampler} _.
Arguments inst_ {real_t RandomSampler} _.
Arguments rnd {real_t RandomSampler} _.
Arguments img_size0 {real_t RandomSampler} _.
Arguments img_size1 {real_t RandomSampler} _.
Arguments img_size2 {real_t RandomSampler} _.
Arguments BeforeFirst {real_t RandomSampler} _.
Arguments Next {real_t RandomSampler} _.
Arguments Value {real_t RandomSampler} _.
Arguments batch_images {real_t RandomSampler} _.
Arguments batch_labels {real_t RandomSampler} _.
Arguments batch_ids {real_t RandomSampler} _.
Arguments mkMNISTIterator {real_t RandomSampler} _ _ _ _ _ _ _ _ _ _ _ _ _ _.
Arguments MNISTIterator_new {real_t RandomSampler} _ _ _ _ _ _.
Arguments SetParam {real_t RandomSampler} _ _ _ _ _.
Arguments set_silent {real_t RandomSampler} _ _.
Arguments set_batch_size {real_t RandomSampler} _ _.
Arguments set_mode {real_t RandomSampler} _ _.
Arguments set_shuffle {real_t RandomSampler} _ _.
Arguments set_inst_offset {real_t RandomSampler} _ _.
Arguments set_path_img {real_t RandomSampler} _ _.
Arguments set_path_label {real_t RandomSampler} _ _.
Arguments set_loc {real_t RandomSampler} _ _.
Arguments set_out {real_t RandomSampler} _ _.
Arguments set_rnd {real_t RandomSampler} _ _.
Arguments set_img {real_t RandomSampler} _ _ _.
Arguments set_labels {real_t RandomSampler} _ _ _.
Arguments Next_times {real_t RandomSampler} _ _.
Arguments read_row {real_t} _ _ _.
Arguments read_image {real_t} _ _ _ _.
Arguments read_images {real_t} _ _ _ _ _.
Arguments fresh_image {real_t} _ _.
Arguments LoadImage {real_t RandomSampler} _ _ _ _ _.
Arguments LoadLabel_loop {real_t} _ _ _ _ _ _ _.
Arguments LoadLabel {real_t RandomSampler} _ _ _ _.
Arguments Shuffle_loop {real_t} _ _ _ _ _ _ _.
Arguments Shuffle {real_t RandomSampler} _ _ _.
Arguments Init {real_t RandomSampler} _ _ _ _ _ _ _.

End MNIST.

(** ** The statements of the specification, in its own words *)

Module Spec.

Import Updater.

(** [tag(key(layer_index, tag))] *)
Definition decode_of_encode (layer_index : Z) (tag : string) : outcome string :=
  let! key := EncodeDataKey layer_index tag in DecodeTag key.

(** The round trip as the specification has it, at one layer index. *)
Definition key_roundtrip_at (layer_index : Z) : Prop :=
  0 <= layer_index ->
  decode_of_encode layer_index "wmat" = Ok "wmat"%string /\
  decode_of_encode layer_index "bias" = Ok "bias"%string.

(** The largest layer index whose bias key is an [int]. *)
Definition max_bias_layer : Z := 536870911.

(** One output extent as the specification writes it, over the
    integers: [min(n + 2 pad - k + s - 1, n + 2 pad - 1) / s + 1]. *)
Definition spec_extent (n pad k s : Z) : Z :=
  Z.min (n + 2 * pad - k + s - 1) (n + 2 * pad - 1) / s + 1.

(** The same formula with each operand taken as an [index_t]. *)
Definition index_extent (n pad k s : Z) : Z :=
  (Z.min ((n + 2 * pad - k + s - 1) mod UINT_MOD) ((n + 2 * pad - 1) mod UINT_MOD)
     / (s mod UINT_MOD) + 1) mod UINT_MOD.

(** The kernel the specification calls invalid for an input of
    [H] by [W]: not positive, or larger than the padded input. *)
Definition spec_kernel_invalid (p : Pooling.LayerParam) (H W : Z) : Prop :=
  Pooling.kernel_height p <= 0 \/ Pooling.kernel_width p <= 0 \/
  Pooling.kernel_height p > H + 2 * Pooling.pad_y p \/
  Pooling.kernel_width p > W + 2 * Pooling.pad_x p.

(** The failure rule of the specification at one call of [InitNode] on a
    one-to-one connection: a fatal error when the kernel is invalid, a
    result otherwise. *)
Definition fails_exactly_when_invalid {TData : Type} (empty_data : TData)
    (realloc : Pooling.Shape4 -> TData -> TData) (self : Pooling.PoolingLayer)
    (nin nout : Pooling.Node TData) (cstate : Pooling.ConnectState TData) : Prop :=
  let H := Pooling.dim2 (Pooling.shape_ (Pooling.data nin)) in
  let W := Pooling.dim3 (Pooling.shape_ (Pooling.data nin)) in
  let run := Pooling.InitNode empty_data realloc self [nin] [nout] cstate in
  (spec_kernel_invalid (Pooling.param_ self) H W -> exists msg, run = Fatal msg) /\
  (~ spec_kernel_invalid (Pooling.param_ self) H W -> exists r, run = Ok r).

(** The shape rule of the specification at one call of [InitNode] on a
    one-to-one connection: if the call is accepted, the output node has
    the two extents of the integer formula. *)
Definition infers_spec_shape {TData : Type} (empty_data : TData)
    (realloc : Pooling.Shape4 -> TData -> TData) (self : Pooling.PoolingLayer)
    (nin nout : Pooling.Node TData) (cstate : Pooling.ConnectState TData) : Prop :=
  let p := Pooling.param_ self in
  let H := Pooling.dim2 (Pooling.shape_ (Pooling.data nin)) in
  let W := Pooling.dim3 (Pooling.shape_ (Pooling.data nin)) in
  forall self' nout' cstate',
    Pooling.InitNode empty_data realloc self [nin] [nout] cstate
      = Ok (self', [nout'], cstate') ->
    Pooling.dim2 (Pooling.shape_ (Pooling.data nout'))
      = spec_extent H (Pooling.pad_y p) (Pooling.kernel_height p) (Pooling.stride p) /\
    Pooling.dim3 (Pooling.shape_ (Pooling.data nout'))
      = spec_extent W (Pooling.pad_x p) (Pooling.kernel_width p) (Pooling.stride p).

(** The kernel [InitNode] refuses: not positive, or larger than the
    input itself. *)
Definition kernel_refused (p : Pooling.LayerParam) (H W : Z) : Prop :=
  Pooling.kernel_height p <= 0 \/ Pooling.kernel_width p <= 0 \/
  Pooling.kernel_height p > H \/ Pooling.kernel_width p > W.

(** A shape whose extents are [index_t] values. *)
Definition extents_ok (s : InstVec.Shape) : Prop :=
  Forall (fun d => 0 <= d < UINT_MOD) s.

(** The elements a sequence of shapes asks for, over the integers: the
    sum of the products of the extents. *)
Definition total_size (shapes : list InstVec.Shape) : Z :=
  foldr (fun s acc => InstVec.Shape_count s + acc) 0 shapes.

(** The sum, over the integers, of the sizes as [Shape::Size] returns
    them, each one a [size_t]. *)
Definition size_sum (shapes : list InstVec.Shape) : Z :=
  foldr (fun s acc => InstVec.Shape_Size s + acc) 0 shapes.

(** The offset table of the specification: one entry more than there
    are tensors, the first one 0, and each tensor's size between two
    neighbours (the difference is the [size_t] difference of the code's
    own [CHECK]). *)
Definition table_ok {DType : Type} (st : InstVec.TensorVector DType) : Prop :=
  length (InstVec.offset_ st) = S (length (InstVec.shape_ st)) /\
  InstVec.offset_ st !! 0%nat = Some 0 /\
  forall (i : nat) (sh : InstVec.Shape),
    InstVec.shape_ st !! i = Some sh ->
    exists a b,
      InstVec.offset_ st !! i = Some a /\ InstVec.offset_ st !! S i = Some b /\
      u64 (b - a) = InstVec.Shape_Size sh.

(** The view of tensor [i] gives back what is written through it: the
    store hands out a view of the shape pushed, and every element of it
    can be written and then reads as written. *)
Definition view_reads_back {DType : Type} (st : InstVec.TensorVector DType) (i : nat)
  : Prop :=
  exists sh t,
    InstVec.shape_ st !! i = Some sh /\
    InstVec.at_ st (Z.of_nat i) = Ok t /\ InstVec.tshape_ t = sh /\
    forall k x, 0 <= k < InstVec.Shape_count sh ->
      exists st',
        InstVec.write_through st t k x = Ok st' /\
        InstVec.read_through st' t k = Ok x.

(** A write through the view of tensor [i] touches nothing else: the
    tables stay, and every other element of every view reads as
    before. *)
Definition view_writes_stay_inside {DType : Type} (st : InstVec.TensorVector DType)
    (i : nat) : Prop :=
  forall t k x st',
    InstVec.at_ st (Z.of_nat i) = Ok t ->
    InstVec.write_through st t k x = Ok st' ->
    InstVec.offset_ st' = InstVec.offset_ st /\
    InstVec.shape_ st' = InstVec.shape_ st /\
    forall (j : nat) t' k',
      InstVec.at_ st (Z.of_nat j) = Ok t' ->
      0 <= k' < InstVec.Shape_count (InstVec.tshape_ t') ->
      j <> i \/ k' <> k ->
      InstVec.read_through st' t' k' = InstVec.read_through st t' k'.

(** What every store built by [Clear] and [Push] satisfies: the table
    of the specification, and a buffer as long as the last offset
    says. *)
Definition store_inv {DType : Type} (st : InstVec.TensorVector DType) : Prop :=
  table_ok st /\
  exists b, last (InstVec.offset_ st) = Some b /\ 0 <= b < SIZE_MOD /\
            length (InstVec.content_ st) = Z.to_nat b.

(** The offsets are the sums of the sizes before them: no sum has
    wrapped around. *)
Definition store_exact {DType : Type} (st : InstVec.TensorVector DType) : Prop :=
  forall i : nat, (i <= length (InstVec.shape_ st))%nat ->
    InstVec.offset_ st !! i = Some (size_sum (take i (InstVec.shape_ st))).

Definition views_ok {DType : Type} (st : InstVec.TensorVector DType) : Prop :=
  forall i : nat, (i < length (InstVec.shape_ st))%nat ->
    view_reads_back st i /\ view_writes_stay_inside st i.

(** The three columns of a sequence of instances to push. *)
Definition indices_of (insts : list (Z * InstVec.Shape * InstVec.Shape)) : list Z :=
  map (fun x => fst (fst x)) insts.
Definition dshapes_of (insts : list (Z * InstVec.Shape * InstVec.Shape))
  : list InstVec.Shape :=
  map (fun x => snd (fst x)) insts.
Definition lshapes_of (insts : list (Z * InstVec.Shape * InstVec.Shape))
  : list InstVec.Shape :=
  map snd insts.

(** The store invariant of the specification for the instances pushed
    into a fresh store: both offset tables are right and every view
    gives back what is written through it. *)
Definition store_claim {real_t : Type} (zero : real_t)
    (insts : list (Z * InstVec.Shape * InstVec.Shape)) : Prop :=
  exists st,
    InstVec.InstVector_Push_all zero InstVec.InstVector_new insts = Ok st /\
    table_ok (InstVec.data_ st) /\ table_ok (InstVec.label_ st) /\
    views_ok (InstVec.data_ st) /\ views_ok (InstVec.label_ st).

(** An iterator with another cursor and other batch pointers: what
    [BeforeFirst] and [Next] change, and nothing else. *)
Definition with_cursor {real_t RandomSampler : Type}
    (it : MNIST.MNISTIterator real_t RandomSampler)
    (loc : Z) (pd pl pi : option Z) : MNIST.MNISTIterator real_t RandomSampler :=
  MNIST.mkMNISTIterator (MNIST.silent_ it) (MNIST.path_img it) (MNIST.path_label it)
    (MNIST.mkDataBatch pd (MNIST.data_shape (MNIST.out_ it))
       (MNIST.data_stride (MNIST.out_ it)) pl (MNIST.label_shape (MNIST.out_ it))
       (MNIST.label_stride (MNIST.out_ it)) pi (MNIST.batch_size (MNIST.out_ it)))
    (MNIST.shuffle_ it) (MNIST.mode_ it) loc (MNIST.batch_size_ it)
    (MNIST.img_shape it) (MNIST.img_ it) (MNIST.labels_ it)
    (MNIST.inst_offset_ it) (MNIST.inst_ it) (MNIST.rnd it).

(** The number of full batches of an epoch. *)
Definition full_batches {real_t RandomSampler : Type}
    (it : MNIST.MNISTIterator real_t RandomSampler) : Z :=
  MNIST.img_size0 it / MNIST.batch_size_ it.

(** The row [Shuffle] takes for an identity: [inst_[i] - inst_offset_]
    as an [unsigned]. *)
Definition source_row (off id : Z) : nat := Z.to_nat (u32 (id - off)).

(** The identities [LoadLabel] gives [n] instances: position plus
    offset, as an [unsigned]. *)
Definition loaded_ids (off : Z) (n : nat) : list Z :=
  map (fun i : nat => u32 (Z.of_nat i + off)) (seq 0 n).

(** A loaded dataset: as many images as the shape says, as many labels,
    and for identities a permutation of the loaded ones. *)
Definition dataset_ok {real_t RandomSampler : Type}
    (it : MNIST.MNISTIterator real_t RandomSampler) : Prop :=
  Z.of_nat (length (MNIST.img_ it)) = MNIST.img_size0 it /\
  MNIST.img_size0 it < UINT_MOD /\
  length (MNIST.labels_ it) = length (MNIST.img_ it) /\
  Permutation (MNIST.inst_ it)
    (loaded_ids (MNIST.inst_offset_ it) (length (MNIST.img_ it))).

(** Every position of [it] holds the image and the label that [it0]
    holds for the same identity. *)
Definition keeps_identities {real_t RandomSampler : Type}
    (it0 it : MNIST.MNISTIterator real_t RandomSampler) : Prop :=
  forall (j : nat) (id : Z),
    MNIST.inst_ it !! j = Some id ->
    exists (i : nat) x l,
      MNIST.inst_ it0 !! i = Some id /\
      MNIST.img_ it0 !! i = Some x /\ MNIST.img_ it !! j = Some x /\
      MNIST.labels_ it0 !! i = Some l /\ MNIST.labels_ it !! j = Some l.

(** [n] shuffles in a row. *)
Fixpoint Shuffle_times {real_t RandomSampler : Type} (fresh : real_t)
    (rnd_Shuffle : RandomSampler -> list Z -> RandomSampler * list Z)
    (n : nat) (it : MNIST.MNISTIterator real_t RandomSampler)
  : outcome (MNIST.MNISTIterator real_t RandomSampler) :=
  match n with
  | O => Ok it
  | S n' =>
      let! it' := MNIST.Shuffle fresh rnd_Shuffle it in
      Shuffle_times fresh rnd_Shuffle n' it'
  end.

(** Identities kept with their data over any number of shuffles: every
    position holds the data loaded for its identity. *)
Definition shuffles_keep_identities {real_t RandomSampler : Type} (fresh : real_t)
    (rnd_Shuffle : RandomSampler -> list Z -> RandomSampler * list Z)
    (it0 : MNIST.MNISTIterator real_t RandomSampler) : Prop :=
  forall (n : nat) itn,
    Shuffle_times fresh rnd_Shuffle n it0 = Ok itn -> keeps_identities it0 itn.

End Spec.

(** ** Vocabulary of the further properties *)

Module Props.

(** [o] windows of extent [k], one every [s] positions from position 0
    on, over [n] positions padded by [p] on each side: the last window
    begins inside the padded input; when the stride is no larger than
    the window the windows reach its end, the last one by less than a
    stride too far; when it is larger, every multiple of the stride
    inside the padded input begins a window. *)
Definition windows_fit (n p k s o : Z) : Prop :=
  1 <= o /\ (o - 1) * s <= n + 2 * p - 1 /\
  (s <= k -> n + 2 * p <= (o - 1) * s + k < n + 2 * p + s) /\
  (k < s -> n + 2 * p - 1 < o * s).

(** State [i] of a connection as [states.resize(2)] leaves it: the one
    that was there, or a new container. *)
Definition slot {TData : Type} (empty_data : TData)
    (cstate : Pooling.ConnectState TData) (i : nat) : Pooling.TensorContainer TData :=
  default (Pooling.default_container empty_data) (Pooling.states cstate !! i).

(** The stores a program can hold: a cleared one, and what [Push] and
    a write through a tensor make of one. *)
Inductive reachable {DType : Type} (zero : DType)
  : InstVec.TensorVector DType -> Prop :=
| reach_Clear st0 : reachable zero (InstVec.Clear st0)
| reach_Push st s st' :
    reachable zero st -> InstVec.Push zero st s = Ok st' -> reachable zero st'
| reach_write st t k x st' :
    reachable zero st -> InstVec.write_through st t k x = Ok st' ->
    reachable zero st'.

(** The four bytes of an [int], most significant first. *)
Definition be32 (n : Z) : list Z :=
  [(n / 16777216) mod 256; (n / 65536) mod 256; (n / 256) mod 256; n mod 256].

(** An image file: four bytes of magic number, the number of images,
    of rows and of columns, and the pixels, image by image and row by
    row.  A label file: four bytes of magic number, the number of
    labels, and the labels. *)
Definition image_bytes (magic : list Z) (count rows cols : Z) (px rest : list Z)
  : MNIST.Stream :=
  magic ++ be32 count ++ be32 rows ++ be32 cols ++ px ++ rest.

Definition label_bytes (magic : list Z) (count : Z) (labels rest : list Z)
  : MNIST.Stream :=
  magic ++ be32 count ++ labels ++ rest.

(** Pixel [k] of row [j] of image [i]. *)
Definition pixel {real_t : Type} (img : list (list (list real_t))) (i j k : nat)
  : option real_t :=
  match img !! i with
  | Some im => match im !! j with Some row => row !! k | None => None end
  | None => None
  end.

(** What an iterator has loaded and where it stands: the same in [it']
    as in [it]. *)
Definition same_data {real_t RandomSampler : Type}
    (it it' : MNIST.MNISTIterator real_t RandomSampler) : Prop :=
  MNIST.img_ it' = MNIST.img_ it /\ MNIST.img_shape it' = MNIST.img_shape it /\
  MNIST.labels_ it' = MNIST.labels_ it /\ MNIST.inst_ it' = MNIST.inst_ it /\
  MNIST.loc_ it' = MNIST.loc_ it /\ MNIST.out_ it' = MNIST.out_ it.

End Props.

(** ** Small concrete instances *)

Module Samples.

Import Pooling InstVec MNIST.

(** An asynchronous updater without state: every call returns. *)
Definition idle_updater : Updater.IAsyncUpdater unit Z unit unit := {|
  Updater.async_SetStream := fun u _ => Ok u;
  Updater.async_Init := fun u => Ok u;
  Updater.async_ApplyVisitor := fun u v => Ok (u, v);
  Updater.async_StartRound := fun u _ => Ok u;
  Updater.async_SetParam := fun u _ _ => Ok u;
  Updater.BeforeBackprop := fun u _ _ => Ok u;
  Updater.AfterBackprop := fun u _ _ => Ok u;
  Updater.BeforeAllForward := fun u => Ok u;
  Updater.UpdateWait := fun u => Ok u
|}.

(** A tensor library of one number per tensor. *)
Definition toy_tensor_exp (_ : Shape4) (d : Z) : Z := d.
Definition toy_pad (e _ _ : Z) : Z := e.
Definition toy_unpool (src pooled grad _ _ _ : Z) : Z := src + pooled + grad.
Definition toy_crop (e : Z) (_ : Shape2) (_ _ : Z) : Z := e.
Definition toy_scale_inv (e k : Z) : Z := e * k.
Definition toy_assign (t : Tensor4 Z) (e : Z) : outcome (Tensor4 Z) :=
  Ok (mkTensor4 (Pooling.shape_ t) e).
Definition toy_realloc (_ : Shape4) (d : Z) : Z := d.

(** Pooling layers over a batch of 100 one-channel 28 by 28 images. *)
Definition pool_2x2_stride2 : PoolingLayer :=
  mkPoolingLayer kMaxPooling true (mkLayerParam 2 2 2 0 0) (mkShape2 0 0).
Definition pool_3x3_stride2_pad1 : PoolingLayer :=
  mkPoolingLayer kMaxPooling true (mkLayerParam 3 3 2 1 1) (mkShape2 0 0).
Definition pool_3x3_pad1 : PoolingLayer :=
  mkPoolingLayer kMaxPooling true (mkLayerParam 3 3 1 1 1) (mkShape2 0 0).
Definition pool_3x3_pad_minus1 : PoolingLayer :=
  mkPoolingLayer kMaxPooling true (mkLayerParam 3 3 1 (-1) (-1)) (mkShape2 0 0).
Definition pool_2x2_stride1_pad1 : PoolingLayer :=
  mkPoolingLayer kMaxPooling true (mkLayerParam 2 2 1 1 1) (mkShape2 0 0).
Definition avg_2x2_stride2 : PoolingLayer :=
  mkPoolingLayer kAvgPooling true (mkLayerParam 2 2 2 0 0) (mkShape2 4 4).
Definition node_of (n c h w d : Z) : Node Z := mkNode (mkTensor4 (mkShape4 n c h w) d).
Definition no_state : ConnectState Z := mkConnectState [].

(** Two instances whose data tensors have 2^33 and 2^64 - 2^33 + 1
    elements. *)
Definition two_huge_instances : list (Z * Shape * Shape) :=
  [(0, [2147483648; 4; 1], [1]); (1, [4294967295; 4294967295; 1], [1])].
Definition two_small_instances : list (Z * Shape * Shape) :=
  [(7, [1; 2; 2], [1]); (8, [1; 1; 3], [1])].

(** A shape of 2^64 elements, whose size is 0 as a [size_t], and a
    small one after it. *)
Definition wrapped_size_instances : list (Z * Shape * Shape) :=
  [(0, [2147483648; 2147483648; 4], [1]); (1, [1; 1; 2], [1])].

(** A sampler without state whose shuffle reverses the vector. *)
Definition rev_sampler (g : unit) (l : list Z) : unit * list Z := (g, rev l).
Definition keep_seed (g : unit) (_ : Z) : unit := g.

Definition no_batch : DataBatch := mkDataBatch None (0, 0, 0, 0) 0 None (0, 0) 0 None 0.

(** A new iterator, configured for batches of [b] instances. *)
Definition new_iterator (b : Z) : MNISTIterator Z unit :=
  set_batch_size (MNISTIterator_new tt keep_seed 0 0 (0, 0, 0) no_batch) b.

(** Image and label files of [n] instances of one pixel, for [n] below
    256: pixel [10 * k] and label [k] for instance [k]. *)
Definition image_file (n : nat) : Stream :=
  [0; 0; 8; 3; 0; 0; 0; Z.of_nat n; 0; 0; 0; 1; 0; 0; 0; 1]
    ++ map (fun k : nat => 10 * Z.of_nat k) (seq 0 n).
Definition label_file (n : nat) : Stream :=
  [0; 0; 8; 1; 0; 0; 0; Z.of_nat n] ++ map Z.of_nat (seq 0 n).

Definition loaded (b : Z) (n : nat) : outcome (MNISTIterator Z unit) :=
  Init (fun ch => ch) (fun x => x) 0 rev_sampler (new_iterator b)
    (image_file n) (label_file n).

(** The iterator [Init] returns for two instances, and for twenty-five
    with batches of ten. *)
Definition two_loaded : MNISTIterator Z unit :=
  Eval vm_compute in
    match loaded 1 2 with Ok it => it | _ => new_iterator 1 end.
Definition twenty_five_loaded : MNISTIterator Z unit :=
  Eval vm_compute in
    match loaded 10 25 with Ok it => it | _ => new_iterator 10 end.

(** The rest of the toy tensor library. *)
Definition toy_forward_op (e : Z) : Z := e + 1.
Definition toy_pool (e : Z) (_ : Shape2) (_ _ _ : Z) : Z := 2 * e.
Definition toy_Copy (dst src : Tensor4 Z) : outcome (Tensor4 Z) :=
  Ok (mkTensor4 (Pooling.shape_ dst) (Pooling.dptr_ src)).

(** A layer of a mode that is no pooling mode, and a pooling layer with
    a fused activation. *)
Definition pool_other_mode : PoolingLayer :=
  mkPoolingLayer (kOtherLayer 7) true (mkLayerParam 2 2 2 0 0) (mkShape2 0 0).
Definition pool_with_activation : PoolingLayer :=
  mkPoolingLayer kMaxPooling false (mkLayerParam 2 2 2 0 0) (mkShape2 0 0).

End Samples.

(** * Properties *)

(** ** Machine arithmetic *)

Lemma u32_range x : 0 <= u32 x < UINT_MOD.
Proof. unfold u32, UINT_MOD. apply Z.mod_pos_bound. lia. Qed.

Lemma u32_small x : 0 <= x < UINT_MOD -> u32 x = x.
Proof. intros H. unfold u32. apply Z.mod_small. exact H. Qed.

Lemma u64_range x : 0 <= u64 x < SIZE_MOD.
Proof. unfold u64, SIZE_MOD. apply Z.mod_pos_bound. lia. Qed.

Lemma u64_small x : 0 <= x < SIZE_MOD -> u64 x = x.
Proof. intros H. unfold u64. apply Z.mod_small. exact H. Qed.

Lemma wrap_int_small x : is_int x -> wrap_int x = x.
Proof.
  unfold is_int, INT_MAX, wrap_int, UINT_MOD. intros H.
  rewrite Z.mod_small; lia.
Qed.

Lemma wrap_int_range x : is_int (wrap_int x).
Proof.
  unfold is_int, INT_MAX, wrap_int, UINT_MOD.
  pose proof (Z.mod_pos_bound (x + 2147483648) 4294967296). lia.
Qed.

(** The wrapped value differs from the exact one by a multiple of 2^32. *)
Lemma wrap_int_eqm x : exists q, wrap_int x = x + q * UINT_MOD.
Proof.
  unfold wrap_int, UINT_MOD.
  exists (- ((x + 2147483648) / 4294967296)).
  pose proof (Z.div_mod (x + 2147483648) 4294967296). lia.
Qed.

Lemma u32_wrap_int x : u32 (wrap_int x) = u32 x.
Proof.
  destruct (wrap_int_eqm x) as [q ->]. unfold u32.
  apply Z.mod_add. unfold UINT_MOD. lia.
Qed.

(** ** The parameter key encoder *)

Module KeyFacts.

Import Updater Spec.

Lemma streq_true a : streq a a = true.
Proof. unfold streq. apply bool_decide_eq_true. reflexivity. Qed.

Lemma streq_false a b : a <> b -> streq a b = false.
Proof. unfold streq. intros H. apply bool_decide_eq_false. exact H. Qed.

(** A wrapped multiple of four is a multiple of four. *)
Lemma wrap_int_mul4 l : exists q, wrap_int (l * 4) = 4 * q.
Proof.
  destruct (wrap_int_eqm (l * 4)) as [q Hq].
  exists (l + q * 1073741824). rewrite Hq. unfold UINT_MOD. lia.
Qed.

Lemma DecodeTag_mul4 q : DecodeTag (4 * q) = Ok "wmat"%string.
Proof.
  unfold DecodeTag, kDataKeyStep.
  replace (Z.rem (4 * q) 4) with 0; [reflexivity|].
  symmetry. rewrite Z.mul_comm. apply Z.rem_mul. lia.
Qed.

Lemma DecodeTag_mul4_plus1 q : 0 <= q -> DecodeTag (4 * q + 1) = Ok "bias"%string.
Proof.
  intros Hq. unfold DecodeTag, kDataKeyStep.
  replace (Z.rem (4 * q + 1) 4) with 1; [reflexivity|].
  rewrite Z.rem_mod_nonneg by lia.
  rewrite Z.add_comm, Z.mul_comm, Z.mod_add by lia. reflexivity.
Qed.

Lemma wmat_roundtrip l : decode_of_encode l "wmat" = Ok "wmat"%string.
Proof.
  unfold decode_of_encode, EncodeDataKey, kDataKeyStep.
  rewrite streq_false by discriminate. rewrite streq_true. cbn [bind].
  rewrite Z.add_0_r, (wrap_int_small (wrap_int _)) by apply wrap_int_range.
  destruct (wrap_int_mul4 l) as [q ->]. apply DecodeTag_mul4.
Qed.

Lemma bias_roundtrip l :
  0 <= l <= max_bias_layer -> decode_of_encode l "bias" = Ok "bias"%string.
Proof.
  unfold max_bias_layer. intros Hl.
  unfold decode_of_encode, EncodeDataKey, kDataKeyStep.
  rewrite streq_true. cbn [bind].
  rewrite (wrap_int_small (l * 4)) by (unfold is_int, INT_MAX; lia).
  rewrite wrap_int_small by (unfold is_int, INT_MAX; lia).
  replace (l * 4 + 1) with (4 * l + 1) by lia.
  apply DecodeTag_mul4_plus1. lia.
Qed.

Lemma DecodeTag_invalid key :
  key mod 4 = 2 \/ key mod 4 = 3 -> DecodeTag key = Fatal "invalid key".
Proof.
  intros Hm. unfold DecodeTag, kDataKeyStep.
  assert (Hr : Z.rem key 4 = 2 \/ Z.rem key 4 = 3 \/
               Z.rem key 4 = -2 \/ Z.rem key 4 = -1).
  { pose proof (Z.div_mod key 4 ltac:(lia)) as Hd.
    pose proof (Z.quot_rem' key 4) as Hq.
    pose proof (Z.mod_pos_bound key 4 ltac:(lia)) as Hb.
    destruct (Z_le_gt_dec 0 key) as [Hk|Hk].
    - pose proof (Z.rem_bound_pos key 4 Hk ltac:(lia)). lia.
    - pose proof (Z.rem_bound_pos_neg key 4 ltac:(lia) ltac:(lia)). lia. }
  destruct Hr as [-> | [-> | [-> | ->]]]; reflexivity.
Qed.

Lemma EncodeDataKey_other_tag l tag :
  tag <> "wmat"%string -> tag <> "bias"%string ->
  EncodeDataKey l tag = Fatal "EncodeDataKey: only support weight tag: wmat or bias".
Proof.
  intros Hw Hb. unfold EncodeDataKey.
  rewrite (streq_false _ _ Hb), (streq_false _ _ Hw). reflexivity.
Qed.

(** C1, the claim as it stands fails: at layer index 2^29 the bias key
    [2^29 * 4 + 1] leaves the range of an [int], the key comes out
    negative, and its remainder by four is [-3], which [DecodeTag]
    rejects. *)
Lemma C1_roundtrip_fails_at_2p29 : ~ key_roundtrip_at 536870912.
Proof.
  unfold key_roundtrip_at. intros H.
  destruct (H ltac:(lia)) as [_ Hb].
  vm_compute in Hb. discriminate Hb.
Qed.

(** C1, amended: the key of [(layer_index, "wmat")] decodes to ["wmat"]
    for every layer index, the key of [(layer_index, "bias")] decodes to
    ["bias"] for every layer index from 0 to 536870911 (while
    [4 * layer_index + 1] is an [int]); a key whose remainder modulo 4 is
    2 or 3 is rejected with "invalid key", and a tag other than "wmat"
    and "bias" is rejected by the encoder. *)
Theorem C1_key_roundtrip (layer_index : Z) :
  decode_of_encode layer_index "wmat" = Ok "wmat"%string /\
  (0 <= layer_index <= max_bias_layer ->
   decode_of_encode layer_index "bias" = Ok "bias"%string) /\
  (forall key, key mod 4 = 2 \/ key mod 4 = 3 ->
     DecodeTag key = Fatal "invalid key") /\
  (forall tag, tag <> "wmat"%string -> tag <> "bias"%string ->
     EncodeDataKey layer_index tag =
       Fatal "EncodeDataKey: only support weight tag: wmat or bias").
Proof.
  split; [apply wmat_roundtrip|].
  split; [apply bias_roundtrip|].
  split; [apply DecodeTag_invalid|].
  apply EncodeDataKey_other_tag.
Qed.

Lemma C1_key_roundtrip_witness :
  decode_of_encode 7 "wmat" = Ok "wmat"%string /\
  decode_of_encode 7 "bias" = Ok "bias"%string /\
  DecodeTag 30 = Fatal "invalid key" /\
  EncodeDataKey 7 "gamma" =
    Fatal "EncodeDataKey: only support weight tag: wmat or bias".
Proof.
  destruct (C1_key_roundtrip 7) as (Hw & Hb & Hk & Ht).
  split; [exact Hw|].
  split; [apply Hb; unfold max_bias_layer; lia|].
  split; [apply Hk; left; reflexivity|].
  apply Ht; discriminate.
Defined.

End KeyFacts.

(** ** The asynchronous updater *)

Module AsyncFacts.

Import Updater.

(** C8: on an asynchronous updater, [Update(epoch)] and
    [Update(epoch, grad)] end in the error "IAsyncUpdater.Update call
    AfterBackprop instead", whatever the updater, the epoch and the
    gradient. *)
Theorem C8_async_update_disabled {U T2 V N : Type} `{IAsyncUpdater U T2 V N}
    (self : U) (epoch : Z) (grad : T2) :
  Update self epoch = Fatal "IAsyncUpdater.Update call AfterBackprop instead" /\
  Update_grad self epoch grad =
    Fatal "IAsyncUpdater.Update call AfterBackprop instead".
Proof. split; reflexivity. Qed.

Lemma C8_async_update_disabled_witness :
  @Update unit Z unit (@IAsyncUpdater_is_IUpdater unit Z unit unit Samples.idle_updater)
    tt 3 = Fatal "IAsyncUpdater.Update call AfterBackprop instead" /\
  @Update_grad unit Z unit
    (@IAsyncUpdater_is_IUpdater unit Z unit unit Samples.idle_updater)
    tt 3 5 = Fatal "IAsyncUpdater.Update call AfterBackprop instead".
Proof.
  exact (@C8_async_update_disabled unit Z unit unit Samples.idle_updater tt 3 5).
Defined.

End AsyncFacts.

(** ** The pooling layer *)

Module PoolingFacts.

Import Pooling Spec.

Lemma u32_add_wrap_int n x : u32 (n + u32 (wrap_int x)) = u32 (n + x).
Proof.
  rewrite u32_wrap_int. unfold u32. apply Zplus_mod_idemp_r.
Qed.

Lemma first_operand n pad_ k s :
  u32 (u32 (u32 (u32 (n + 2 * pad_) - u32 k) + u32 s) - 1)
  = (n + 2 * pad_ - k + s - 1) mod UINT_MOD.
Proof. unfold u32, UINT_MOD. Z.div_mod_to_equations. lia. Qed.

Lemma second_operand n pad_ :
  u32 (u32 (n + 2 * pad_) - 1) = (n + 2 * pad_ - 1) mod UINT_MOD.
Proof. unfold u32, UINT_MOD. Z.div_mod_to_equations. lia. Qed.

(** The chain of [index_t] operations of one extent is the formula with
    one reduction per operand. *)
Lemma pooled_extent_index n pad_ k s :
  u32 s <> 0 ->
  pooled_extent n pad_ (to_index_t k) (to_index_t s) = Ok (index_extent n pad_ k s).
Proof.
  intros Hs. unfold pooled_extent, to_index_t.
  destruct (u32 s =? 0) eqn:E; [apply Z.eqb_eq in E; contradiction|].
  f_equal. unfold index_extent.
  rewrite u32_add_wrap_int, first_operand, second_operand. reflexivity.
Qed.

Lemma index_extent_spec n pad_ k s :
  0 <= pad_ -> 0 < s -> 1 <= k <= n -> n + 2 * pad_ + s <= UINT_MOD ->
  index_extent n pad_ k s = spec_extent n pad_ k s.
Proof.
  unfold UINT_MOD. intros Hp Hs Hk Hn. unfold index_extent, spec_extent, UINT_MOD.
  rewrite (Z.mod_small (n + 2 * pad_ - k + s - 1)) by lia.
  rewrite (Z.mod_small (n + 2 * pad_ - 1)) by lia.
  rewrite (Z.mod_small s) by lia.
  apply Z.mod_small.
  assert (0 <= Z.min (n + 2 * pad_ - k + s - 1) (n + 2 * pad_ - 1) / s).
  { apply Z.div_pos; lia. }
  assert (Z.min (n + 2 * pad_ - k + s - 1) (n + 2 * pad_ - 1) / s
          <= Z.min (n + 2 * pad_ - k + s - 1) (n + 2 * pad_ - 1)).
  { apply Z.div_le_upper_bound; [lia|]. nia. }
  lia.
Qed.

Lemma classic_refused p H W : kernel_refused p H W \/ ~ kernel_refused p H W.
Proof. unfold kernel_refused. lia. Qed.

Section InitNodeFacts.

Context {TData : Type} (empty_data : TData) (realloc : Shape4 -> TData -> TData).

Local Abbreviation InitNode' := (InitNode empty_data realloc).

(** The two state slots after [InitNode], whatever was there before. *)
Lemma state_slots_ok (st : list (TensorContainer TData)) (oshape ishape : Shape4)
    (K : list (TensorContainer TData) ->
         outcome (PoolingLayer * list (Node TData) * ConnectState TData)) :
  exists st',
  (let st := resize 2 (default_container empty_data) st in
   let! s0 := vec_at st 0 in
   let st := <[0%nat := set_pad s0 false]> st in
   let! s1 := vec_at st 1 in
   let st := <[1%nat := set_pad s1 false]> st in
   let! s0 := vec_at st 0 in
   let st := <[0%nat := Resize realloc s0 oshape]> st in
   let! s1 := vec_at st 1 in
   let st := <[1%nat := Resize realloc s1 ishape]> st in
   K st) = K st' /\ length st' = 2%nat.
Proof.
  destruct st as [|a [|b st]]; cbn [resize replicate]; rewrite ?resize_0;
    cbn; eexists; split; reflexivity.
Qed.

Lemma InitNode_accepts (self : PoolingLayer) (nin nout : Node TData)
    (cstate : ConnectState TData) :
  let p := param_ self in
  let H := dim2 (shape_ (data nin)) in
  let W := dim3 (shape_ (data nin)) in
  is_int (kernel_height p) -> is_int (kernel_width p) ->
  0 < kernel_height p <= H -> 0 < kernel_width p <= W ->
  u32 (stride p) <> 0 ->
  exists cstate',
    InitNode' self [nin] [nout] cstate =
      Ok (mkPoolingLayer (mode self) (is_identity self) p (mkShape2 H W),
          [mkNode (mkTensor4
             (mkShape4 (dim0 (shape_ (data nin))) (dim1 (shape_ (data nin)))
                (index_extent H (pad_y p) (kernel_height p) (stride p))
                (index_extent W (pad_x p) (kernel_width p) (stride p)))
             (dptr_ (data nout)))],
          cstate').
Proof.
  intros p H W Hih Hiw Hh Hw Hs. unfold InitNode.
  change (vec_size [nin] =? 1) with true. change (vec_size [nout] =? 1) with true.
  cbn [andb Check bind]. change (vec_at [nin] 0) with (Ok nin). cbn [bind].
  cbv zeta. fold p H W.
  assert (Ekh : to_index_t (kernel_height p) = kernel_height p).
  { apply u32_small. unfold is_int, INT_MAX, UINT_MOD in *. lia. }
  assert (Ekw : to_index_t (kernel_width p) = kernel_width p).
  { apply u32_small. unfold is_int, INT_MAX, UINT_MOD in *. lia. }
  replace (0 <? kernel_height p) with true by (symmetry; apply Z.ltb_lt; lia).
  replace (0 <? kernel_width p) with true by (symmetry; apply Z.ltb_lt; lia).
  cbn [andb Check bind].
  replace (to_index_t (kernel_width p) <=? W) with true
    by (rewrite Ekw; symmetry; apply Z.leb_le; lia).
  replace (to_index_t (kernel_height p) <=? H) with true
    by (rewrite Ekh; symmetry; apply Z.leb_le; lia).
  cbn [andb Check bind].
  rewrite !pooled_extent_index by exact Hs. cbn [bind].
  change (vec_at [nout] 0) with (Ok nout). cbn [bind].
  destruct (state_slots_ok (states cstate)
              (mkShape4 (dim0 (shape_ (data nin))) (dim1 (shape_ (data nin)))
                 (index_extent H (pad_y p) (kernel_height p) (stride p))
                 (index_extent W (pad_x p) (kernel_width p) (stride p)))
              (shape_ (data nin))
              (fun st => Ok (mkPoolingLayer (mode self) (is_identity self) p (mkShape2 H W),
                  <[0%nat := mkNode (mkTensor4
                     (mkShape4 (dim0 (shape_ (data nin))) (dim1 (shape_ (data nin)))
                        (index_extent H (pad_y p) (kernel_height p) (stride p))
                        (index_extent W (pad_x p) (kernel_width p) (stride p)))
                     (dptr_ (data nout)))]> [nout],
                  mkConnectState st))) as (st' & Hst & _).
  exists (mkConnectState st'). exact Hst.
Qed.

Lemma InitNode_kernel_not_set (self : PoolingLayer) (nin nout : Node TData)
    (cstate : ConnectState TData) :
  kernel_height (param_ self) <= 0 \/ kernel_width (param_ self) <= 0 ->
  InitNode' self [nin] [nout] cstate = Fatal "must set kernel_size correctly".
Proof.
  intros Hk. unfold InitNode.
  change (vec_size [nin] =? 1) with true. change (vec_size [nout] =? 1) with true.
  cbn [andb Check bind]. change (vec_at [nin] 0) with (Ok nin). cbn [bind]. cbv zeta.
  replace ((0 <? kernel_height (param_ self)) && (0 <? kernel_width (param_ self)))
    with false; [reflexivity|].
  symmetry. apply andb_false_iff. rewrite !Z.ltb_ge. exact Hk.
Qed.

Lemma InitNode_kernel_exceeds (self : PoolingLayer) (nin nout : Node TData)
    (cstate : ConnectState TData) :
  let p := param_ self in
  let H := dim2 (shape_ (data nin)) in
  let W := dim3 (shape_ (data nin)) in
  is_int (kernel_height p) -> is_int (kernel_width p) ->
  0 < kernel_height p -> 0 < kernel_width p ->
  kernel_height p > H \/ kernel_width p > W ->
  InitNode' self [nin] [nout] cstate = Fatal "kernel size exceed input".
Proof.
  intros p H W Hih Hiw Hh Hw Hex. unfold InitNode.
  change (vec_size [nin] =? 1) with true. change (vec_size [nout] =? 1) with true.
  cbn [andb Check bind]. change (vec_at [nin] 0) with (Ok nin). cbn [bind].
  cbv zeta. fold p H W.
  replace (0 <? kernel_height p) with true by (symmetry; apply Z.ltb_lt; lia).
  replace (0 <? kernel_width p) with true by (symmetry; apply Z.ltb_lt; lia).
  cbn [andb Check bind].
  replace ((to_index_t (kernel_width p) <=? W) && (to_index_t (kernel_height p) <=? H))
    with false; [reflexivity|].
  symmetry. apply andb_false_iff. rewrite !Z.leb_gt. unfold to_index_t.
  rewrite !u32_small by (unfold is_int, INT_MAX, UINT_MOD in *; lia). lia.
Qed.

Lemma InitNode_zero_stride (self : PoolingLayer) (nin nout : Node TData)
    (cstate : ConnectState TData) :
  let p := param_ self in
  let H := dim2 (shape_ (data nin)) in
  let W := dim3 (shape_ (data nin)) in
  is_int (kernel_height p) -> is_int (kernel_width p) ->
  0 < kernel_height p <= H -> 0 < kernel_width p <= W ->
  u32 (stride p) = 0 ->
  InitNode' self [nin] [nout] cstate = Undefined.
Proof.
  intros p H W Hih Hiw Hh Hw Hs. unfold InitNode.
  change (vec_size [nin] =? 1) with true. change (vec_size [nout] =? 1) with true.
  cbn [andb Check bind]. change (vec_at [nin] 0) with (Ok nin). cbn [bind].
  cbv zeta. fold p H W.
  replace (0 <? kernel_height p) with true by (symmetry; apply Z.ltb_lt; lia).
  replace (0 <? kernel_width p) with true by (symmetry; apply Z.ltb_lt; lia).
  cbn [andb Check bind].
  replace (to_index_t (kernel_width p) <=? W) with true
    by (unfold to_index_t; rewrite u32_small
          by (unfold is_int, INT_MAX, UINT_MOD in *; lia);
        symmetry; apply Z.leb_le; lia).
  replace (to_index_t (kernel_height p) <=? H) with true
    by (unfold to_index_t; rewrite u32_small
          by (unfold is_int, INT_MAX, UINT_MOD in *; lia);
        symmetry; apply Z.leb_le; lia).
  cbn [andb Check bind].
  unfold pooled_extent, to_index_t. rewrite Hs. reflexivity.
Qed.

(** C3, the claim as it stands fails: a 3 by 3 kernel on a 2 by 2 input
    padded by 1 on each side fits the padded input (4 by 4), and
    [InitNode] refuses it with "kernel size exceed input". *)
Lemma C3_padded_kernel_is_refused :
  ~ fails_exactly_when_invalid 0 Samples.toy_realloc
      Samples.pool_3x3_pad1
      (Samples.node_of 1 1 2 2 0)
      (Samples.node_of 0 0 0 0 0)
      Samples.no_state.
Proof.
  unfold fails_exactly_when_invalid. intros [_ Hok].
  destruct Hok as [r Hr].
  - unfold spec_kernel_invalid. cbn. lia.
  - vm_compute in Hr. discriminate Hr.
Qed.

(** C3, amended: on a one-to-one connection [InitNode] ends in a fatal
    configuration error exactly when the kernel is not positive
    ([kernel_height <= 0] or [kernel_width <= 0]) or exceeds the input
    itself, padding not counted ([kernel_height > H] or
    [kernel_width > W]); otherwise it returns, provided the stride is
    not zero. *)
Theorem C3_kernel_check (self : PoolingLayer) (nin nout : Node TData)
    (cstate : ConnectState TData) :
  let p := param_ self in
  let H := dim2 (shape_ (data nin)) in
  let W := dim3 (shape_ (data nin)) in
  is_int (kernel_height p) -> is_int (kernel_width p) ->
  (kernel_refused p H W <->
     exists msg, InitNode' self [nin] [nout] cstate = Fatal msg) /\
  (~ kernel_refused p H W -> u32 (stride p) <> 0 ->
     exists r, InitNode' self [nin] [nout] cstate = Ok r).
Proof.
  intros p H W Hih Hiw.
  assert (Hacc : ~ kernel_refused p H W -> u32 (stride p) <> 0 ->
                 exists r, InitNode' self [nin] [nout] cstate = Ok r).
  { intros Hn Hs. unfold kernel_refused in Hn.
    destruct (InitNode_accepts self nin nout cstate Hih Hiw) as [cs' E];
      [fold p H; lia | fold p W; lia | exact Hs |].
    eexists. exact E. }
  split; [split|exact Hacc].
  - intros [Hk | [Hk | Hk]].
    + eexists. apply InitNode_kernel_not_set. left. exact Hk.
    + eexists. apply InitNode_kernel_not_set. right. exact Hk.
    + destruct (Z_le_gt_dec (kernel_height p) 0) as [Hh|Hh];
        [eexists; apply InitNode_kernel_not_set; left; exact Hh|].
      destruct (Z_le_gt_dec (kernel_width p) 0) as [Hw|Hw];
        [eexists; apply InitNode_kernel_not_set; right; exact Hw|].
      eexists. apply InitNode_kernel_exceeds; try assumption; fold p; lia.
  - intros [msg Hmsg].
    destruct (classic_refused p H W) as [Hr|Hn]; [exact Hr|exfalso].
    destruct (Z.eq_dec (u32 (stride p)) 0) as [Hs|Hs].
    + unfold kernel_refused in Hn.
      rewrite InitNode_zero_stride in Hmsg; try assumption; try discriminate;
        fold p; fold H; fold W; lia.
    + destruct (Hacc Hn Hs) as [r Hr]. rewrite Hr in Hmsg. discriminate.
Qed.

(** [InitNode] returns on a one-to-one connection exactly for a positive
    kernel no larger than the input and a stride that is not zero. *)
Lemma InitNode_accepted_iff (self : PoolingLayer) (nin nout : Node TData)
    (cstate : ConnectState TData) :
  let p := param_ self in
  let H := dim2 (shape_ (data nin)) in
  let W := dim3 (shape_ (data nin)) in
  is_int (kernel_height p) -> is_int (kernel_width p) ->
  (exists r, InitNode' self [nin] [nout] cstate = Ok r) <->
  (0 < kernel_height p <= H /\ 0 < kernel_width p <= W /\ u32 (stride p) <> 0).
Proof.
  intros p H W Hih Hiw. split.
  - intros [r Hr].
    destruct (classic_refused p H W) as [Hre|Hn].
    + exfalso. unfold kernel_refused in Hre.
      destruct (Z_le_gt_dec (kernel_height p) 0) as [Hh|Hh];
        [rewrite InitNode_kernel_not_set in Hr by (left; exact Hh); discriminate|].
      destruct (Z_le_gt_dec (kernel_width p) 0) as [Hw|Hw];
        [rewrite InitNode_kernel_not_set in Hr by (right; exact Hw); discriminate|].
      rewrite InitNode_kernel_exceeds in Hr; try assumption; try discriminate;
        fold p; fold H; fold W; lia.
    + unfold kernel_refused in Hn.
      split; [lia|]. split; [lia|]. intros Hs.
      rewrite InitNode_zero_stride in Hr; try assumption; try discriminate;
        fold p; fold H; fold W; lia.
  - intros (Hh & Hw & Hs).
    destruct (InitNode_accepts self nin nout cstate Hih Hiw Hh Hw Hs) as [cs' E].
    eexists. exact E.
Qed.

(** C2, amended: whenever [InitNode] accepts a one-to-one connection,
    the output node gets the two extents of the formula
    [min(n + 2 pad - k + s - 1, n + 2 pad - 1) / s + 1], computed as the
    code computes it, in [index_t] arithmetic (each operand modulo 2^32,
    [index_extent]); with a non-negative padding, a positive stride and
    [n + 2 pad + s <= 2^32] nothing wraps around and they are the extents
    of the formula over the integers ([spec_extent]).  It accepts the
    connection exactly when the kernel is positive and no larger than the
    input and the stride is not zero. *)
Theorem C2_pooling_shape (self : PoolingLayer) (nin nout : Node TData)
    (cstate : ConnectState TData) :
  let p := param_ self in
  let H := dim2 (shape_ (data nin)) in
  let W := dim3 (shape_ (data nin)) in
  is_int (kernel_height p) -> is_int (kernel_width p) ->
  ((exists r, InitNode' self [nin] [nout] cstate = Ok r) <->
   (0 < kernel_height p <= H /\ 0 < kernel_width p <= W /\ u32 (stride p) <> 0)) /\
  (forall self' nodes_out' cstate',
     InitNode' self [nin] [nout] cstate = Ok (self', nodes_out', cstate') ->
     exists nout',
       nodes_out' = [nout'] /\
       dim0 (shape_ (data nout')) = dim0 (shape_ (data nin)) /\
       dim1 (shape_ (data nout')) = dim1 (shape_ (data nin)) /\
       dim2 (shape_ (data nout'))
         = index_extent H (pad_y p) (kernel_height p) (stride p) /\
       dim3 (shape_ (data nout'))
         = index_extent W (pad_x p) (kernel_width p) (stride p) /\
       (0 <= pad_y p -> 0 < stride p -> H + 2 * pad_y p + stride p <= UINT_MOD ->
        dim2 (shape_ (data nout'))
          = spec_extent H (pad_y p) (kernel_height p) (stride p)) /\
       (0 <= pad_x p -> 0 < stride p -> W + 2 * pad_x p + stride p <= UINT_MOD ->
        dim3 (shape_ (data nout'))
          = spec_extent W (pad_x p) (kernel_width p) (stride p))).
Proof.
  intros p H W Hih Hiw.
  split; [apply InitNode_accepted_iff; assumption|].
  intros self' nodes_out' cstate' HI.
  destruct (proj1 (InitNode_accepted_iff self nin nout cstate Hih Hiw)
              (ex_intro _ _ HI)) as (Hh & Hw & Hs).
  destruct (InitNode_accepts self nin nout cstate Hih Hiw Hh Hw Hs) as [cs' E].
  rewrite E in HI. injection HI as <- <- <-.
  eexists. split; [reflexivity|]. cbn [data shape_ dim0 dim1 dim2 dim3].
  do 4 (split; [reflexivity|]). subst p H W.
  split; intros Hp Hpos Hfit; apply index_extent_spec; lia.
Qed.

End InitNodeFacts.

(** C2, the claim as it stands fails on an input that [InitNode]
    accepts: it accepts a padding of -1; for a 3 by 3 input and a 3 by 3
    kernel with stride 1 the sum [3 + 2 * (-1) - 3] wraps around as an
    [index_t], the minimum is the second operand [0] and the output is
    1 by 1, where the formula over the integers gives
    [min (-2) 0 / 1 + 1 = -1]. *)
Lemma C2_negative_padding_wraps :
  ~ infers_spec_shape 0 Samples.toy_realloc Samples.pool_3x3_pad_minus1
      (Samples.node_of 1 1 3 3 0) (Samples.node_of 0 0 0 0 0) Samples.no_state.
Proof.
  unfold infers_spec_shape. intros Hspec.
  destruct (Hspec _ _ _ eq_refl) as [Hh _].
  vm_compute in Hh. discriminate Hh.
Qed.

(** The same with a padding that is not negative: an input of 2^32 - 1
    by 2^32 - 1, a 2 by 2 kernel, stride 1 and padding 1 are accepted;
    the padded extent [2^32 - 1 + 2] wraps around to 1 and the output
    is 1 by 1, where the formula over the integers gives 2^32. *)
Lemma large_input_wraps :
  (exists self' cstate',
     InitNode 0 Samples.toy_realloc Samples.pool_2x2_stride1_pad1
       [Samples.node_of 1 1 4294967295 4294967295 0] [Samples.node_of 0 0 0 0 0]
       Samples.no_state
     = Ok (self', [Samples.node_of 1 1 1 1 0], cstate')) /\
  spec_extent 4294967295 1 2 1 = 4294967296 /\
  ~ infers_spec_shape 0 Samples.toy_realloc Samples.pool_2x2_stride1_pad1
      (Samples.node_of 1 1 4294967295 4294967295 0) (Samples.node_of 0 0 0 0 0)
      Samples.no_state.
Proof.
  split; [eexists _, _; vm_compute; reflexivity|].
  split; [vm_compute; reflexivity|].
  unfold infers_spec_shape. intros Hspec.
  destruct (Hspec _ _ _ eq_refl) as [Hh _].
  vm_compute in Hh. discriminate Hh.
Qed.

(** The two examples of the specification: 28 by 28 pooled 2 by 2 with
    stride 2 gives 14 by 14; pooled 3 by 3 with stride 2 and padding 1
    gives 15 by 15. *)
Lemma C2_pooling_shape_witness :
  (exists self' cstate',
     InitNode 0 Samples.toy_realloc Samples.pool_2x2_stride2
       [Samples.node_of 100 1 28 28 0] [Samples.node_of 0 0 0 0 0] Samples.no_state
     = Ok (self', [Samples.node_of 100 1 14 14 0], cstate')) /\
  (exists self' cstate',
     InitNode 0 Samples.toy_realloc Samples.pool_3x3_stride2_pad1
       [Samples.node_of 100 1 28 28 0] [Samples.node_of 0 0 0 0 0] Samples.no_state
     = Ok (self', [Samples.node_of 100 1 15 15 0], cstate')).
Proof.
  split.
  - destruct (C2_pooling_shape 0 Samples.toy_realloc Samples.pool_2x2_stride2
                (Samples.node_of 100 1 28 28 0) (Samples.node_of 0 0 0 0 0)
                Samples.no_state) as [_ Hshape];
      [cbn; unfold is_int, INT_MAX; lia | cbn; unfold is_int, INT_MAX; lia |].
    destruct (Hshape _ _ _ eq_refl) as (nout' & Enode & E0 & E1 & _ & _ & Hh & Hw).
    injection Enode as <-. eexists _, _. reflexivity.
  - destruct (C2_pooling_shape 0 Samples.toy_realloc Samples.pool_3x3_stride2_pad1
                (Samples.node_of 100 1 28 28 0) (Samples.node_of 0 0 0 0 0)
                Samples.no_state) as [_ Hshape];
      [cbn; unfold is_int, INT_MAX; lia | cbn; unfold is_int, INT_MAX; lia |].
    destruct (Hshape _ _ _ eq_refl) as (nout' & Enode & E0 & E1 & _ & _ & Hh & Hw).
    injection Enode as <-. eexists _, _. reflexivity.
Defined.

Lemma C3_kernel_check_witness :
  exists r,
    InitNode 0 Samples.toy_realloc
      Samples.pool_2x2_stride2
      [Samples.node_of 100 1 28 28 0]
      [Samples.node_of 0 0 0 0 0] Samples.no_state = Ok r.
Proof.
  refine (proj2 (C3_kernel_check 0 Samples.toy_realloc
       Samples.pool_2x2_stride2
       (Samples.node_of 100 1 28 28 0)
       (Samples.node_of 0 0 0 0 0) Samples.no_state _ _) _ _).
  - cbn. unfold is_int, INT_MAX. lia.
  - cbn. unfold is_int, INT_MAX. lia.
  - unfold kernel_refused. cbn. lia.
  - vm_compute. discriminate.
Defined.

Section BackpropFacts.

Context {TData Exp : Type}
  (tensor_exp : Shape4 -> TData -> Exp)
  (pad : Exp -> Z -> Z -> Exp)
  (unpool : Exp -> Exp -> Exp -> Z -> Z -> Z -> Exp)
  (crop : Exp -> Shape2 -> Z -> Z -> Exp)
  (scale_inv : Exp -> Z -> Exp)
  (assign : Tensor4 TData -> Exp -> outcome (Tensor4 TData)).

Local Abbreviation Backprop' := (Backprop tensor_exp pad unpool crop scale_inv assign).
Local Abbreviation gradient := (input_gradient tensor_exp pad unpool crop).

(** C9: with [prop_grad] false, [Backprop] returns and leaves the input
    nodes, the output nodes and the connection state as they are, for
    every layer, nodes and state.  With [prop_grad] true, a pooling layer
    without fused activation ([is_identity]) in one of the three pooling
    modes assigns the input gradient to the data of the first input node
    and changes nothing else: the cropped unpooling for the maximum and
    the sum, the same scaled by [1 / (kernel_height * kernel_width)] for
    the average. *)
Theorem C9_backprop_prop_grad (self : PoolingLayer)
    (nin : Node TData) (ins : list (Node TData))
    (nout : Node TData) (outs : list (Node TData))
    (tmp : TensorContainer TData) (sts : list (TensorContainer TData)) :
  let cstate := mkConnectState (tmp :: sts) in
  (forall nodes_in nodes_out cs,
     Backprop' self false nodes_in nodes_out cs = Ok (nodes_in, nodes_out, cs)) /\
  (is_identity self = true -> is_max_or_sum (mode self) = true ->
   Backprop' self true (nin :: ins) (nout :: outs) cstate =
     let! d := assign (data nin) (gradient self nin nout tmp) in
     Ok (mkNode d :: ins, nout :: outs, cstate)) /\
  (is_identity self = true -> mode self = kAvgPooling ->
   Backprop' self true (nin :: ins) (nout :: outs) cstate =
     let! d := assign (data nin)
                 (scale_inv (gradient self nin nout tmp)
                    (wrap_int (kernel_height (param_ self) * kernel_width (param_ self)))) in
     Ok (mkNode d :: ins, nout :: outs, cstate)).
Proof.
  intros cstate. split; [reflexivity|].
  assert (Hin : vec_at (nin :: ins) 0 = Ok nin).
  { unfold vec_at. cbn [length]. rewrite Nat2Z.inj_succ.
    replace ((0 <=? 0) && (0 <? Z.succ (Z.of_nat (length ins)))) with true;
      [reflexivity|].
    symmetry. apply andb_true_iff. split; [reflexivity|apply Z.ltb_lt; lia]. }
  assert (Hout : vec_at (nout :: outs) 0 = Ok nout).
  { unfold vec_at. cbn [length]. rewrite Nat2Z.inj_succ.
    replace ((0 <=? 0) && (0 <? Z.succ (Z.of_nat (length outs)))) with true;
      [reflexivity|].
    symmetry. apply andb_true_iff. split; [reflexivity|apply Z.ltb_lt; lia]. }
  assert (Hst : vec_at (states cstate) 0 = Ok tmp).
  { unfold vec_at, cstate. cbn [states length]. rewrite Nat2Z.inj_succ.
    replace ((0 <=? 0) && (0 <? Z.succ (Z.of_nat (length sts)))) with true;
      [reflexivity|].
    symmetry. apply andb_true_iff. split; [reflexivity|apply Z.ltb_lt; lia]. }
  split.
  - intros Hid Hm. unfold Backprop. rewrite Hid, Hm, Hin, Hst, Hout. reflexivity.
  - intros Hid Hm. unfold Backprop. rewrite Hid, Hm, Hin, Hst, Hout. reflexivity.
Qed.

End BackpropFacts.

Lemma C9_backprop_prop_grad_witness :
  Backprop Samples.toy_tensor_exp Samples.toy_pad Samples.toy_unpool Samples.toy_crop
    Samples.toy_scale_inv Samples.toy_assign Samples.avg_2x2_stride2 false
    [Samples.node_of 1 1 4 4 5] [Samples.node_of 1 1 2 2 7]
    (mkConnectState [mkContainer (mkShape4 1 1 2 2) false 9])
  = Ok ([Samples.node_of 1 1 4 4 5], [Samples.node_of 1 1 2 2 7],
        mkConnectState [mkContainer (mkShape4 1 1 2 2) false 9]) /\
  Backprop Samples.toy_tensor_exp Samples.toy_pad Samples.toy_unpool Samples.toy_crop
    Samples.toy_scale_inv Samples.toy_assign Samples.avg_2x2_stride2 true
    [Samples.node_of 1 1 4 4 5] [Samples.node_of 1 1 2 2 7]
    (mkConnectState [mkContainer (mkShape4 1 1 2 2) false 9])
  = Ok ([Samples.node_of 1 1 4 4 84], [Samples.node_of 1 1 2 2 7],
        mkConnectState [mkContainer (mkShape4 1 1 2 2) false 9]).
Proof.
  destruct (C9_backprop_prop_grad Samples.toy_tensor_exp Samples.toy_pad
              Samples.toy_unpool Samples.toy_crop Samples.toy_scale_inv
              Samples.toy_assign Samples.avg_2x2_stride2
              (Samples.node_of 1 1 4 4 5) [] (Samples.node_of 1 1 2 2 7) []
              (mkContainer (mkShape4 1 1 2 2) false 9) []) as (Hoff & _ & Havg).
  split; [apply Hoff|].
  rewrite Havg by reflexivity. reflexivity.
Defined.

End PoolingFacts.

(** ** The instance store *)

Module StoreFacts.

Import InstVec Spec.

Lemma Shape_Size_range (s : Shape) : 0 <= Shape_Size s < SIZE_MOD.
Proof.
  destruct s as [|d rest]; [unfold SIZE_MOD; cbn; lia|].
  cbn [Shape_Size]. generalize (u64 d) (u64_range d). 
  induction rest as [|x rest IH]; intros acc Hacc; cbn [fold_left]; [exact Hacc|].
  apply IH. apply u64_range.
Qed.

(** [Shape::Size] is the number of elements as a [size_t]. *)
Lemma Shape_Size_count (s : Shape) : Shape_Size s = u64 (Shape_count s).
Proof.
  destruct s as [|d rest]; [reflexivity|]. cbn [Shape_Size Shape_count].
  revert d. induction rest as [|x rest IH]; intros d; cbn [fold_left]; [reflexivity|].
  rewrite <- IH. f_equal. unfold u64. apply Z.mul_mod_idemp_l. unfold SIZE_MOD. lia.
Qed.

Lemma Shape_count_nonneg (s : Shape) : extents_ok s -> 0 <= Shape_count s.
Proof.
  destruct s as [|d rest]; [cbn; lia|]. intros H.
  apply Forall_cons in H as [Hd Hrest]. cbn [Shape_count].
  assert (Hd' : 0 <= d) by lia. clear Hd. revert d Hd'.
  induction Hrest as [|x rest Hx _ IH]; intros d Hd; cbn [fold_left]; [exact Hd|].
  apply IH. nia.
Qed.

Lemma total_size_cons s r : total_size (s :: r) = Shape_count s + total_size r.
Proof. reflexivity. Qed.

Lemma total_size_nonneg shapes : Forall extents_ok shapes -> 0 <= total_size shapes.
Proof.
  induction 1 as [|s r Hs _ IH]; [cbn; lia|].
  rewrite total_size_cons. pose proof (Shape_count_nonneg s Hs). lia.
Qed.

Lemma total_size_app l1 l2 : total_size (l1 ++ l2) = total_size l1 + total_size l2.
Proof.
  induction l1 as [|s r IH]; [reflexivity|].
  rewrite <- app_comm_cons, !total_size_cons, IH. lia.
Qed.

Lemma size_sum_cons s r : size_sum (s :: r) = Shape_Size s + size_sum r.
Proof. reflexivity. Qed.

(** Shapes of [index_t] extents whose elements number less than 2^64
    together: no size has wrapped around, and the sum of the sizes is
    the number of elements. *)
Lemma exact_sizes shapes :
  Forall extents_ok shapes -> total_size shapes < SIZE_MOD ->
  Forall (fun s => Shape_count s = Shape_Size s) shapes /\
  size_sum shapes = total_size shapes.
Proof.
  induction 1 as [|s r Hs Hr IH]; intros Htot; [split; [constructor|reflexivity]|].
  rewrite total_size_cons in Htot.
  pose proof (Shape_count_nonneg s Hs) as H0. pose proof (total_size_nonneg r Hr) as H1.
  destruct IH as [IH1 IH2]; [lia|].
  assert (E : Shape_count s = Shape_Size s).
  { rewrite Shape_Size_count, u64_small; [reflexivity|lia]. }
  split; [constructor; assumption|].
  rewrite size_sum_cons, total_size_cons, IH2, E. reflexivity.
Qed.

Lemma size_sum_nonneg shapes : 0 <= size_sum shapes.
Proof.
  induction shapes as [|s r IH]; [cbn; lia|].
  rewrite size_sum_cons. pose proof (Shape_Size_range s). lia.
Qed.

Lemma size_sum_app l1 l2 : size_sum (l1 ++ l2) = size_sum l1 + size_sum l2.
Proof.
  induction l1 as [|s r IH]; [reflexivity|].
  rewrite <- app_comm_cons, !size_sum_cons, IH. lia.
Qed.

Lemma size_sum_take_le (i : nat) shapes : size_sum (take i shapes) <= size_sum shapes.
Proof.
  rewrite <- (take_drop i shapes) at 2. rewrite size_sum_app.
  pose proof (size_sum_nonneg (drop i shapes)). lia.
Qed.

Lemma size_sum_take_S (i : nat) shapes sh :
  shapes !! i = Some sh ->
  size_sum (take (S i) shapes) = size_sum (take i shapes) + Shape_Size sh.
Proof.
  intros H. rewrite (take_S_r _ _ _ H), size_sum_app, size_sum_cons.
  change (size_sum []) with 0. lia.
Qed.

Lemma vec_at_lookup {A : Type} (v : list A) (i : nat) (a : A) :
  v !! i = Some a -> vec_at v (Z.of_nat i) = Ok a.
Proof.
  intros H. unfold vec_at. pose proof (lookup_lt_Some _ _ _ H) as Hlt.
  replace ((0 <=? Z.of_nat i) && (Z.of_nat i <? Z.of_nat (length v))) with true.
  - rewrite Nat2Z.id, H. reflexivity.
  - symmetry. apply andb_true_iff. split; [apply Z.leb_le|apply Z.ltb_lt]; lia.
Qed.

Lemma vec_at_outside {A : Type} (v : list A) (i : Z) :
  Z.of_nat (length v) <= i -> vec_at v i = Undefined.
Proof.
  intros H. unfold vec_at.
  replace (i <? Z.of_nat (length v)) with false by (symmetry; apply Z.ltb_ge; lia).
  rewrite andb_false_r. reflexivity.
Qed.

Section TensorVectorFacts.

Context {DType : Type} (zero : DType).

Lemma Clear_inv (st0 : TensorVector DType) : store_inv (Clear st0) /\ store_exact (Clear st0).
Proof.
  split; [split|].
  - split; [reflexivity|]. split; [reflexivity|].
    intros i sh H. cbn in H. rewrite lookup_nil in H. discriminate.
  - exists 0. split; [reflexivity|]. split; [unfold SIZE_MOD; lia|reflexivity].
  - intros i Hi. cbn in Hi. replace i with 0%nat by lia. reflexivity.
Qed.

Lemma Push_inv (st : TensorVector DType) (s : Shape) :
  store_inv st ->
  exists st' b,
    Push zero st s = Ok st' /\ store_inv st' /\
    last (offset_ st) = Some b /\
    offset_ st' = offset_ st ++ [u64 (b + Shape_Size s)] /\
    shape_ st' = shape_ st ++ [s].
Proof.
  intros [(Hlen & H0 & Htab) (b & Hb & Hbr & Hc)].
  exists (mkTensorVector DType (offset_ st ++ [u64 (b + Shape_Size s)])
            (resize (Z.to_nat (u64 (b + Shape_Size s))) zero (content_ st))
            (shape_ st ++ [s])), b.
  split.
  { unfold Push, vec_back. rewrite Hb. cbn [bind]. rewrite last_snoc. reflexivity. }
  split; [|repeat split; assumption || reflexivity].
  assert (HbN : offset_ st !! length (shape_ st) = Some b).
  { rewrite last_lookup, Hlen in Hb. exact Hb. }
  split.
  - unfold table_ok. cbn [offset_ shape_]. split; [rewrite !length_app; cbn; lia|].
    split; [rewrite lookup_app_l by lia; exact H0|].
    intros i sh Hi.
    destruct (decide (i < length (shape_ st))%nat) as [Hlt|Hge].
    + rewrite lookup_app_l in Hi by exact Hlt.
      destruct (Htab i sh Hi) as (a & c & Ha & Hc' & E).
      exists a, c. rewrite !lookup_app_l by lia. auto.
    + pose proof (lookup_lt_Some _ _ _ Hi) as Hil. rewrite length_app in Hil.
      cbn in Hil. assert (i = length (shape_ st)) as -> by lia.
      rewrite list_lookup_middle in Hi by reflexivity. injection Hi as <-.
      exists b, (u64 (b + Shape_Size s)).
      split; [rewrite lookup_app_l by lia; exact HbN|].
      split; [rewrite <- Hlen; apply list_lookup_middle; reflexivity|].
      pose proof (Shape_Size_range s) as Hs. unfold u64, SIZE_MOD in *.
      Z.div_mod_to_equations. lia.
  - exists (u64 (b + Shape_Size s)). cbn [offset_ content_].
    split; [apply last_snoc|]. split; [apply u64_range|apply length_resize].
Qed.

Lemma Push_exact (st st' : TensorVector DType) (s : Shape) :
  store_inv st -> store_exact st ->
  size_sum (shape_ st ++ [s]) < SIZE_MOD ->
  Push zero st s = Ok st' -> store_exact st'.
Proof.
  intros Hinv Hex Htot HP.
  destruct (Push_inv st s Hinv) as (st1 & b & HP1 & _ & Hb & Ho & Hs).
  rewrite HP1 in HP. injection HP as <-.
  destruct Hinv as [(Hlen & _ & _) _].
  assert (Eb : b = size_sum (shape_ st)).
  { rewrite last_lookup, Hlen in Hb. cbn in Hb.
    rewrite (Hex (length (shape_ st))) in Hb by lia.
    rewrite firstn_all in Hb. congruence. }
  intros i Hi. rewrite Hs, Ho in *. rewrite length_app in Hi. cbn in Hi.
  destruct (decide (i <= length (shape_ st))%nat) as [Hle|Hgt].
  - rewrite lookup_app_l by lia. rewrite take_app_le by lia. apply Hex. exact Hle.
  - assert (i = length (offset_ st)) as -> by lia.
    rewrite list_lookup_middle by reflexivity. f_equal.
    rewrite firstn_all2 by (rewrite length_app; cbn; lia).
    rewrite size_sum_app in *. rewrite size_sum_cons in *.
    change (size_sum []) with 0 in *. rewrite Eb.
    pose proof (size_sum_nonneg (shape_ st)). pose proof (Shape_Size_range s).
    rewrite u64_small; lia.
Qed.

Lemma Push_all_inv (shapes : list Shape) (st : TensorVector DType) :
  store_inv st ->
  exists st',
    Push_all zero st shapes = Ok st' /\ store_inv st' /\
    shape_ st' = shape_ st ++ shapes /\
    (store_exact st -> size_sum (shape_ st ++ shapes) < SIZE_MOD -> store_exact st').
Proof.
  revert st. induction shapes as [|s rest IH]; intros st Hinv.
  - exists st. rewrite app_nil_r.
    split; [reflexivity|]. split; [exact Hinv|]. split; [reflexivity|].
    intros Hex _. exact Hex.
  - destruct (Push_inv st s Hinv) as (st1 & b & HP & Hinv1 & _ & _ & Hs1).
    destruct (IH st1 Hinv1) as (st' & HPa & Hinv' & Hs' & Hex').
    exists st'. cbn [Push_all]. rewrite HP. cbn [bind].
    split; [exact HPa|]. split; [exact Hinv'|].
    split; [rewrite Hs', Hs1, <- app_assoc; reflexivity|].
    intros Hex Htot. apply Hex'.
    + apply (Push_exact st st1 s Hinv Hex); [|exact HP].
      replace (shape_ st ++ s :: rest) with ((shape_ st ++ [s]) ++ rest) in Htot
        by (rewrite <- app_assoc; reflexivity).
      rewrite size_sum_app in Htot. pose proof (size_sum_nonneg rest). lia.
    + rewrite Hs1, <- app_assoc. exact Htot.
Qed.

(** In a store whose offsets have not wrapped, [operator[]] passes its
    two checks and returns the view at the sum of the sizes before. *)
Lemma at_exact (st : TensorVector DType) (i : nat) (sh : Shape) :
  store_inv st -> store_exact st ->
  Z.of_nat (length (shape_ st)) < SIZE_MOD ->
  shape_ st !! i = Some sh ->
  at_ st (Z.of_nat i) = Ok (mkTensor (size_sum (take i (shape_ st))) sh).
Proof.
  intros [(Hlen & _ & _) _] Hex HN Hi.
  pose proof (lookup_lt_Some _ _ _ Hi) as Hlt.
  unfold at_, vec_size. rewrite Hlen.
  rewrite u64_small by lia.
  replace (Z.of_nat i + 1 <? Z.of_nat (S (length (shape_ st)))) with true
    by (symmetry; apply Z.ltb_lt; lia).
  cbn [Check bind]. rewrite (vec_at_lookup _ _ _ Hi). cbn [bind].
  replace (Z.of_nat i + 1) with (Z.of_nat (S i)) by lia.
  rewrite (vec_at_lookup _ _ _ (Hex (S i) ltac:(lia))). cbn [bind].
  rewrite (vec_at_lookup _ _ _ (Hex i ltac:(lia))). cbn [bind].
  rewrite (size_sum_take_S _ _ _ Hi).
  replace (size_sum (take i (shape_ st)) + Shape_Size sh
           - size_sum (take i (shape_ st))) with (Shape_Size sh) by lia.
  rewrite u64_small by apply Shape_Size_range. rewrite Z.eqb_refl. reflexivity.
Qed.

(** ... and the view lies inside the buffer. *)
Lemma view_inside (st : TensorVector DType) (i : nat) (sh : Shape) :
  store_inv st -> store_exact st ->
  shape_ st !! i = Some sh ->
  0 <= size_sum (take i (shape_ st)) /\
  size_sum (take i (shape_ st)) + Shape_Size sh <= Z.of_nat (length (content_ st)).
Proof.
  intros [(Hlen & _ & _) (b & Hb & Hbr & Hc)] Hex Hi.
  split; [apply size_sum_nonneg|].
  rewrite last_lookup, Hlen in Hb. cbn in Hb.
  rewrite (Hex (length (shape_ st))) in Hb by lia. rewrite firstn_all in Hb.
  injection Hb as <-. rewrite Hc, Z2Nat.id by lia.
  rewrite <- (size_sum_take_S _ _ _ Hi). apply size_sum_take_le.
Qed.

Lemma views_disjoint (shapes : list Shape) (i j : nat) (si sj : Shape) (k k' : Z) :
  shapes !! i = Some si -> shapes !! j = Some sj ->
  0 <= k < Shape_Size si -> 0 <= k' < Shape_Size sj ->
  j <> i \/ k' <> k ->
  size_sum (take j shapes) + k' <> size_sum (take i shapes) + k.
Proof.
  intros Hi Hj Hk Hk' Hne.
  assert (Hmono : forall (a b : nat) sa, (a < b)%nat -> shapes !! a = Some sa ->
            size_sum (take a shapes) + Shape_Size sa <= size_sum (take b shapes)).
  { intros a b sa Hab Ha. rewrite <- (size_sum_take_S _ _ _ Ha).
    replace (take (S a) shapes) with (take (S a) (take b shapes))
      by (rewrite take_take; f_equal; lia).
    apply size_sum_take_le. }
  destruct (lt_eq_lt_dec i j) as [[Hlt|Heq]|Hgt].
  - pose proof (Hmono i j si Hlt Hi). lia.
  - subst j. destruct Hne as [Hne|Hne]; [congruence|lia].
  - pose proof (Hmono j i sj Hgt Hj). lia.
Qed.

Lemma views_ok_exact (st : TensorVector DType) :
  store_inv st -> store_exact st ->
  Forall (fun s => Shape_count s = Shape_Size s) (shape_ st) ->
  Z.of_nat (length (shape_ st)) < SIZE_MOD ->
  views_ok st.
Proof.
  intros Hinv Hex Hcnt HN i Hi.
  destruct (lookup_lt_is_Some_2 _ _ Hi) as [sh Hsh].
  pose proof (Forall_lookup_1 _ _ _ _ Hcnt Hsh) as Esh. cbv beta in Esh.
  pose proof (at_exact st i sh Hinv Hex HN Hsh) as Hat.
  destruct (view_inside st i sh Hinv Hex Hsh) as [Hlo Hhi].
  set (a := size_sum (take i (shape_ st))) in *.
  split.
  - exists sh, (mkTensor a sh). split; [exact Hsh|]. split; [exact Hat|].
    split; [reflexivity|].
    intros k x Hk.
    assert (Hin : is_Some (content_ st !! Z.to_nat (a + k))).
    { apply lookup_lt_is_Some_2. lia. }
    destruct Hin as [y Hy].
    exists (mkTensorVector DType (offset_ st)
              (<[Z.to_nat (a + k) := x]> (content_ st)) (shape_ st)).
    clearbody a. unfold write_through, read_through, tensor_set, tensor_get.
    cbn [dptr_ tshape_ content_].
    replace ((0 <=? k) && (k <? Shape_count sh)) with true
      by (symmetry; apply andb_true_iff; split; [apply Z.leb_le|apply Z.ltb_lt]; lia).
    assert (E : a + k = Z.of_nat (Z.to_nat (a + k))) by lia.
    revert Hy. generalize (Z.to_nat (a + k)) E. intros n -> Hy. rewrite ?Nat2Z.id.
    rewrite (vec_at_lookup _ _ _ Hy). cbn [bind]. split; [reflexivity|].
    apply vec_at_lookup. apply list_lookup_insert_eq. apply (lookup_lt_Some _ _ _ Hy).
  - intros t k x st' Ht Hw. rewrite Hat in Ht. injection Ht as <-.
    unfold write_through, tensor_set in Hw. cbn [dptr_ tshape_] in Hw.
    destruct ((0 <=? k) && (k <? Shape_count sh)) eqn:Ek; [|discriminate].
    apply andb_true_iff in Ek as [Ek1 Ek2]. apply Z.leb_le in Ek1. apply Z.ltb_lt in Ek2.
    destruct (vec_at (content_ st) (a + k)) eqn:Ev; try discriminate.
    cbn [bind] in Hw. injection Hw as <-. cbn [offset_ shape_].
    split; [reflexivity|]. split; [reflexivity|].
    intros j t' k' Hj Hk' Hne.
    assert (Hjl : (j < length (shape_ st))%nat).
    { destruct (decide (j < length (shape_ st))%nat) as [Hl|Hl]; [exact Hl|exfalso].
      unfold at_ in Hj. destruct Hinv as [(Hlen & _ & _) _].
      destruct (u64 (Z.of_nat j + 1) <? vec_size (offset_ st));
        cbn [Check bind Error] in Hj; [|discriminate].
      rewrite vec_at_outside in Hj by lia. discriminate. }
    destruct (lookup_lt_is_Some_2 _ _ Hjl) as [sj Hsj].
    rewrite (at_exact st j sj Hinv Hex HN Hsj) in Hj. injection Hj as <-.
    cbn [tshape_] in Hk'.
    pose proof (Forall_lookup_1 _ _ _ _ Hcnt Hsj) as Esj. cbv beta in Esj.
    unfold read_through, tensor_get. cbn [dptr_ tshape_ content_].
    destruct ((0 <=? k') && (k' <? Shape_count sj)); [|reflexivity].
    pose proof (views_disjoint (shape_ st) i j sh sj k k' Hsh Hsj
                  ltac:(lia) ltac:(lia) Hne) as Hd. fold a in Hd.
    destruct (view_inside st j sj Hinv Hex Hsj) as [Hlo' Hhi'].
    unfold vec_at. rewrite length_insert.
    rewrite list_lookup_insert_ne by lia. reflexivity.
Qed.

End TensorVectorFacts.

Section InstVectorFacts.

Context {real_t : Type} (zero : real_t).

(** The two tables of an [InstVector] are pushed side by side. *)
Lemma InstVector_Push_all_tables (insts : list (Z * Shape * Shape))
    (st st' : InstVector real_t) :
  InstVector_Push_all zero st insts = Ok st' ->
  Push_all zero (data_ st) (dshapes_of insts) = Ok (data_ st') /\
  Push_all zero (label_ st) (lshapes_of insts) = Ok (label_ st') /\
  index_ st' = index_ st ++ indices_of insts.
Proof.
  revert st. induction insts as [|[[i ds] ls] rest IH]; intros st H.
  - cbn in H. injection H as <-. cbn. rewrite app_nil_r. auto.
  - cbn [InstVector_Push_all] in H. unfold InstVector_Push in H.
    destruct (Push zero (data_ st) ds) as [d| |] eqn:Ed; try discriminate.
    destruct (Push zero (label_ st) ls) as [l| |] eqn:El; try discriminate.
    cbn [bind] in H. destruct (IH _ H) as (Hd & Hl & Hi).
    cbn [data_ label_ index_] in Hd, Hl, Hi.
    unfold dshapes_of, lshapes_of, indices_of. cbn [map fst snd Push_all].
    rewrite Ed, El. cbn [bind].
    split; [exact Hd|]. split; [exact Hl|]. rewrite Hi, <- app_assoc. reflexivity.
Qed.

Lemma InstVector_Push_all_returns (insts : list (Z * Shape * Shape))
    (st : InstVector real_t) :
  store_inv (data_ st) -> store_inv (label_ st) ->
  exists st', InstVector_Push_all zero st insts = Ok st'.
Proof.
  revert st. induction insts as [|[[i ds] ls] rest IH]; intros st Hd Hl.
  - exists st. reflexivity.
  - destruct (Push_inv zero (data_ st) ds Hd) as (d & ? & Ed & Hd' & _).
    destruct (Push_inv zero (label_ st) ls Hl) as (l & ? & El & Hl' & _).
    cbn [InstVector_Push_all]. unfold InstVector_Push. rewrite Ed, El. cbn [bind].
    apply IH; assumption.
Qed.

(** A cleared store is a fresh store. *)
Lemma InstVector_Clear_fresh (st0 : InstVector real_t) :
  InstVector_Clear st0 = InstVector_new.
Proof. reflexivity. Qed.

(** C4, amended: the instances pushed into a cleared (or fresh) store
    all get in; both offset tables have one entry more than there are
    instances, begin with 0 and step by the size of each shape (in
    [size_t] arithmetic, as the code's own [CHECK] computes the
    difference).  When the extents of the shapes are [index_t] values,
    and the number of instances and the number of elements of all the
    shapes together (the sum, over the integers, of the products of
    the extents) are below 2^64, so that neither a size nor an offset
    has wrapped around, the view of every instance has the shape
    pushed, every element written through it reads back as written,
    and the write leaves all other elements of all views as they
    were. *)
Theorem C4_offset_table (st0 : InstVector real_t) (insts : list (Z * Shape * Shape)) :
  exists st,
    InstVector_Push_all zero (InstVector_Clear st0) insts = Ok st /\
    index_ st = indices_of insts /\
    shape_ (data_ st) = dshapes_of insts /\
    shape_ (label_ st) = lshapes_of insts /\
    table_ok (data_ st) /\ table_ok (label_ st) /\
    (Z.of_nat (length insts) < SIZE_MOD ->
     Forall extents_ok (dshapes_of insts) ->
     total_size (dshapes_of insts) < SIZE_MOD -> views_ok (data_ st)) /\
    (Z.of_nat (length insts) < SIZE_MOD ->
     Forall extents_ok (lshapes_of insts) ->
     total_size (lshapes_of insts) < SIZE_MOD -> views_ok (label_ st)).
Proof.
  destruct (Clear_inv (data_ st0)) as [Hd0 Hxd0].
  destruct (Clear_inv (label_ st0)) as [Hl0 Hxl0].
  destruct (InstVector_Push_all_returns insts (InstVector_Clear st0) Hd0 Hl0)
    as [st HP].
  destruct (InstVector_Push_all_tables _ _ _ HP) as (HPd & HPl & Hidx).
  destruct (Push_all_inv zero (dshapes_of insts) _ Hd0) as (d & Ed & Hid & Hsd & Hxd).
  destruct (Push_all_inv zero (lshapes_of insts) _ Hl0) as (l & El & Hil & Hsl & Hxl).
  cbn [InstVector_Clear data_ label_] in HPd, HPl.
  rewrite Ed in HPd. injection HPd as Ed'. subst d.
  rewrite El in HPl. injection HPl as El'. subst l.
  cbn [Clear shape_ app] in Hsd, Hsl, Hxd, Hxl.
  exists st. split; [exact HP|]. split; [exact Hidx|].
  split; [exact Hsd|]. split; [exact Hsl|].
  split; [apply Hid|]. split; [apply Hil|].
  split; intros HN Hext Htot; destruct (exact_sizes _ Hext Htot) as [Hcnt Hsum].
  - apply views_ok_exact; [exact Hid|apply Hxd; [assumption|lia]| |].
    + rewrite Hsd. exact Hcnt.
    + rewrite Hsd. unfold dshapes_of. rewrite length_map. exact HN.
  - apply views_ok_exact; [exact Hil|apply Hxl; [assumption|lia]| |].
    + rewrite Hsl. exact Hcnt.
    + rewrite Hsl. unfold lshapes_of. rewrite length_map. exact HN.
Qed.

End InstVectorFacts.

(** C4, the claim as it stands fails: after a tensor of 2^33 elements,
    a tensor of shape (2^32 - 1, 2^32 - 1, 1) has 2^64 - 2^33 + 1
    elements, the sum of the two wraps around to 1, the buffer is
    resized to one element, and the view of the second tensor, which
    begins at element 2^33, cannot be written. *)
Lemma C4_offsets_wrap :
  ~ store_claim 0 Samples.two_huge_instances.
Proof.
  intros (st & HP & _ & _ & Hv & _).
  destruct (InstVector_Push_all_tables 0 _ _ _ HP) as (HPd & _ & _).
  unfold dshapes_of, Samples.two_huge_instances in HPd.
  cbn [map fst snd Push_all InstVector_new data_] in HPd.
  destruct (Push_inv 0 TensorVector_new [2147483648; 4; 1] (proj1 (Clear_inv _)))
    as (d1 & b1 & E1 & I1 & Hb1 & Ho1 & Hs1).
  rewrite E1 in HPd. cbn [bind] in HPd.
  destruct (Push_inv 0 d1 [4294967295; 4294967295; 1] I1)
    as (d2 & b2 & E2 & I2 & Hb2 & Ho2 & Hs2).
  rewrite E2 in HPd. cbn [bind] in HPd. injection HPd as Hd. rewrite <- Hd in Hv.
  clear HP Hd E1 E2 I1 st.
  injection Hb1 as <-.
  assert (Ho1' : offset_ d1 = [0; 8589934592]) by (rewrite Ho1; reflexivity).
  rewrite Ho1' in Hb2. injection Hb2 as <-.
  assert (Ho2' : offset_ d2 = [0; 8589934592; 1]) by (rewrite Ho2, Ho1'; reflexivity).
  assert (Hs2' : shape_ d2 = [[2147483648; 4; 1]; [4294967295; 4294967295; 1]])
    by (rewrite Hs2, Hs1; reflexivity).
  destruct I2 as [_ (b & Hb & _ & Hlen)]. rewrite Ho2' in Hb. injection Hb as <-.
  destruct (Hv 1%nat) as [(sh & t & Hsh & Hat & Hts & Hrw) _];
    [rewrite Hs2'; cbn; lia|].
  rewrite Hs2' in Hsh. injection Hsh as <-.
  unfold at_ in Hat. rewrite Ho2', Hs2' in Hat. vm_compute in Hat.
  injection Hat as <-.
  destruct (Hrw 0 0) as (st' & Hw & _); [vm_compute; split; congruence|].
  unfold write_through, tensor_set in Hw. cbn [dptr_ tshape_] in Hw.
  replace ((0 <=? 0) && (0 <? Shape_count [4294967295; 4294967295; 1])) with true in Hw
    by (vm_compute; reflexivity).
  rewrite vec_at_outside in Hw by (rewrite Hlen; lia).
  discriminate Hw.
Qed.

(** Where a size itself wraps around, the views overlap: the tensor of
    shape (2^31, 2^31, 4) has size 0, the tensor pushed after it begins
    at the same element of the buffer, and what is written through the
    first is read through the second.  The sizes as [Shape::Size]
    returns them add up to 2 here, the elements to 2^64 + 2. *)
Lemma wrapped_size_aliases :
  size_sum (dshapes_of Samples.wrapped_size_instances) = 2 /\
  total_size (dshapes_of Samples.wrapped_size_instances) = SIZE_MOD + 2 /\
  exists st t0 t1 d',
    InstVector_Push_all 0 InstVector_new Samples.wrapped_size_instances = Ok st /\
    at_ (data_ st) 0 = Ok t0 /\ at_ (data_ st) 1 = Ok t1 /\
    dptr_ t0 = 0 /\ dptr_ t1 = 0 /\
    read_through (data_ st) t1 0 = Ok 0 /\
    write_through (data_ st) t0 0 7 = Ok d' /\
    read_through d' t1 0 = Ok 7 /\
    ~ views_ok (data_ st).
Proof.
  split; [reflexivity|]. split; [reflexivity|].
  eexists _, _, _, _.
  split; [vm_compute; reflexivity|].
  split; [vm_compute; reflexivity|].
  split; [vm_compute; reflexivity|].
  split; [reflexivity|]. split; [reflexivity|].
  split; [vm_compute; reflexivity|].
  split; [vm_compute; reflexivity|].
  split; [vm_compute; reflexivity|].
  intros Hv. destruct (Hv 0%nat) as [_ Hw]; [vm_compute; lia|].
  specialize (Hw _ 0 7 _ ltac:(vm_compute; reflexivity) ltac:(vm_compute; reflexivity)).
  destruct Hw as (_ & _ & Hw).
  specialize (Hw 1%nat _ 0 ltac:(vm_compute; reflexivity)
                ltac:(vm_compute; split; congruence) ltac:(left; lia)).
  vm_compute in Hw. discriminate Hw.
Qed.

Lemma C4_offset_table_witness :
  exists st,
    InstVector_Push_all 0 InstVector_new Samples.two_small_instances = Ok st /\
    offset_ (data_ st) = [0; 4; 7] /\ offset_ (label_ st) = [0; 1; 2] /\
    views_ok (data_ st) /\ views_ok (label_ st).
Proof.
  destruct (C4_offset_table 0 InstVector_new Samples.two_small_instances)
    as (st & HP & _ & _ & _ & _ & _ & Hvd & Hvl).
  exists st. split; [exact HP|].
  assert (Hext : forall l : list Shape,
            Forall (fun s => Forall (fun d => 0 <= d < 4294967296) s) l ->
            Forall extents_ok l) by (intros l H; exact H).
  assert (Hvd' := Hvd ltac:(vm_compute; reflexivity)
                    ltac:(apply Hext; repeat constructor; lia)
                    ltac:(vm_compute; reflexivity)).
  assert (Hvl' := Hvl ltac:(vm_compute; reflexivity)
                    ltac:(apply Hext; repeat constructor; lia)
                    ltac:(vm_compute; reflexivity)).
  vm_compute in HP. injection HP as <-.
  split; [reflexivity|]. split; [reflexivity|]. split; assumption.
Defined.

(** The range check of [operator[]] does fire from the number of
    tensors up to 2^64 - 2. *)
Lemma at_checks_range {DType : Type} (st : TensorVector DType) (i : Z) :
  length (offset_ st) = S (length (shape_ st)) ->
  Z.of_nat (length (shape_ st)) <= i < SIZE_MOD - 1 ->
  at_ st i = Fatal "Check failed: i + 1 < offset_.size()".
Proof.
  intros Hlen Hi. unfold at_, vec_size. rewrite Hlen, u64_small by lia.
  replace (i + 1 <? Z.of_nat (S (length (shape_ st)))) with false
    by (symmetry; apply Z.ltb_ge; lia).
  reflexivity.
Qed.

(** C5, what the code does where the claim is broken: on an empty store
    [Back()] asks for element [Size() - 1], which is 2^64 - 1 as a
    [size_t]; [i + 1] wraps around to 0, the check
    [i + 1 < offset_.size()] passes, and the next thing read is
    [shape_[2^64 - 1]], outside the vector.  [InstVector::operator[]]
    reads [index_[i]] before any check.  For the indices from the number
    of tensors up to 2^64 - 2 the check of [TensorVector::operator[]]
    stops the program as the claim says. *)
Theorem C5_back_on_empty_store {DType real_t : Type}
    (st0 : TensorVector DType) (iv0 : InstVector real_t) :
  at_ (Clear st0) (SIZE_MOD - 1) = Undefined /\
  Back (Clear st0) = Undefined /\
  InstVector_Back (InstVector_Clear iv0) = Undefined /\
  (forall i, vec_size (index_ iv0) <= i -> InstVector_at iv0 i = Undefined) /\
  (forall i, 0 <= i < SIZE_MOD - 1 ->
     at_ (Clear st0) i = Fatal "Check failed: i + 1 < offset_.size()").
Proof.
  split; [reflexivity|]. split; [reflexivity|]. split; [reflexivity|].
  split.
  - intros i Hi. unfold InstVector_at. rewrite vec_at_outside by exact Hi. reflexivity.
  - intros i Hi. apply at_checks_range; [reflexivity|]. cbn. lia.
Qed.

Lemma C5_back_on_empty_store_witness :
  at_ (Clear (mkTensorVector Z [0; 3] [1; 2; 3] [[3]])) 5
  = Fatal "Check failed: i + 1 < offset_.size()".
Proof.
  refine (proj2 (proj2 (proj2 (proj2 (C5_back_on_empty_store
    (mkTensorVector Z [0; 3] [1; 2; 3] [[3]]) (@InstVector_new Z))))) 5 _).
  unfold SIZE_MOD. lia.
Defined.

End StoreFacts.

(** ** The MNIST iterator *)

Module IteratorFacts.

Import MNIST Spec.

Section Batches.

Context {real_t RandomSampler : Type}.

Implicit Types it s : MNISTIterator real_t RandomSampler.

Lemma with_cursor_id it :
  it = with_cursor it (loc_ it) (data_dptr (out_ it)) (label_dptr (out_ it))
         (inst_index (out_ it)).
Proof. destruct it as [? ? ? [] ? ? ? ? ? ? ? ? ? ?]. reflexivity. Qed.

Lemma BeforeFirst_cursor it loc pd pl pi :
  BeforeFirst (with_cursor it loc pd pl pi) = with_cursor it 0 pd pl pi.
Proof. reflexivity. Qed.

Lemma BeforeFirst_eq it :
  BeforeFirst it = with_cursor it 0 (data_dptr (out_ it)) (label_dptr (out_ it))
                     (inst_index (out_ it)).
Proof. destruct it as [? ? ? [] ? ? ? ? ? ? ? ? ? ?]. reflexivity. Qed.

Lemma Next_cursor it loc pd pl pi :
  Next (with_cursor it loc pd pl pi) =
    if u32 (loc + batch_size_ it) <=? img_size0 it
    then (true, with_cursor it (u32 (loc + batch_size_ it))
                  (Some loc) (Some loc) (Some loc))
    else (false, with_cursor it loc pd pl pi).
Proof.
  unfold Next. cbn [with_cursor loc_ batch_size_ img_size0 img_shape out_].
  destruct (u32 (loc + batch_size_ it) <=? fst (fst (img_shape it))); reflexivity.
Qed.

Lemma Next_times_S k s :
  Next_times (S k) s =
    (fst (Next_times k s) ++ [fst (Next (snd (Next_times k s)))],
     snd (Next (snd (Next_times k s)))).
Proof.
  revert s. induction k as [|k IH]; intros s.
  - cbn. destruct (Next s). reflexivity.
  - change (Next_times (S (S k)) s)
      with (let r := Next s in let r' := Next_times (S k) (snd r) in
            (fst r :: fst r', snd r')).
    cbv zeta. rewrite IH. reflexivity.
Qed.

(** From a cursor on a batch boundary the sum [loc_ + batch_size_] does
    not wrap around: the test of [Next] is the test over the integers. *)
Lemma boundary_no_wrap (N b j : Z) :
  0 <= N <= INT_MAX -> 1 <= b < UINT_MOD -> 0 <= j -> j * b <= N ->
  u32 (j * b + b) = j * b + b.
Proof.
  unfold INT_MAX, UINT_MOD. intros HN Hb Hj Hle. apply u32_small. unfold UINT_MOD.
  destruct (Z.eq_dec j 0) as [->|Hnz]; [lia|]. nia.
Qed.

(** The cursor after [k] calls of [Next] in an epoch, and the pointers
    of the batch: those of the last batch given out, or the ones the
    epoch began with. *)
Lemma epoch_state it (k : nat) :
  0 <= img_size0 it <= INT_MAX -> 1 <= batch_size_ it < UINT_MOD ->
  let j := Z.min (Z.of_nat k) (full_batches it) in
  exists pd pl pi,
    snd (Next_times k (BeforeFirst it)) = with_cursor it (j * batch_size_ it) pd pl pi
    /\ (j = 0 -> pd = data_dptr (out_ it) /\ pl = label_dptr (out_ it) /\
                  pi = inst_index (out_ it))
    /\ (0 < j -> pd = Some ((j - 1) * batch_size_ it) /\ pl = pd /\ pi = pd).
Proof.
  intros HN Hb. unfold full_batches.
  set (N := img_size0 it) in *. set (b := batch_size_ it) in *.
  assert (Hq : 0 <= N / b) by (apply Z.div_pos; lia).
  assert (Hqb : N / b * b <= N) by (rewrite Z.mul_comm; apply Z.mul_div_le; lia).
  assert (Hqb' : N < (N / b + 1) * b).
  { pose proof (Z.mul_succ_div_gt N b ltac:(lia)). lia. }
  induction k as [|k IH]; cbv zeta.
  - exists (data_dptr (out_ it)), (label_dptr (out_ it)), (inst_index (out_ it)).
    cbn [Next_times snd]. rewrite BeforeFirst_eq.
    replace (Z.min (Z.of_nat 0) (N / b)) with 0 by lia.
    split; [reflexivity|]. split; [auto|lia].
  - cbv zeta in IH. destruct IH as (pd & pl & pi & Hs & Hp0 & Hp).
    rewrite Next_times_S. cbn [snd]. rewrite Hs, Next_cursor. fold N b.
    set (j := Z.min (Z.of_nat k) (N / b)) in *.
    rewrite (boundary_no_wrap N b j) by (try assumption; unfold j; nia).
    destruct (Z_lt_ge_dec (Z.of_nat k) (N / b)) as [Hlt|Hge].
    + assert (Hj : j = Z.of_nat k) by (unfold j; lia).
      replace (j * b + b <=? N) with true by (symmetry; apply Z.leb_le; nia).
      replace (Z.min (Z.of_nat (S k)) (N / b)) with (j + 1) by lia.
      exists (Some (j * b)), (Some (j * b)), (Some (j * b)). cbn [snd].
      split; [f_equal; ring|]. split; [lia|]. intros _.
      replace (j + 1 - 1) with j by lia. auto.
    + assert (Hj : j = N / b) by (unfold j; lia).
      replace (j * b + b <=? N) with false by (symmetry; apply Z.leb_gt; nia).
      replace (Z.min (Z.of_nat (S k)) (N / b)) with j by lia.
      exists pd, pl, pi. cbn [snd]. auto.
Qed.

(** [Next] answers [true] exactly in the first [full_batches] calls. *)
Lemma epoch_answer it (k : nat) :
  0 <= img_size0 it <= INT_MAX -> 1 <= batch_size_ it < UINT_MOD ->
  let s := snd (Next_times k (BeforeFirst it)) in
  (fst (Next s) = true <-> loc_ s + batch_size_ s <= img_size0 s) /\
  (fst (Next s) = true <-> Z.of_nat k < full_batches it) /\
  (Z.of_nat k < full_batches it ->
     snd (Next s) =
       with_cursor it ((Z.of_nat k + 1) * batch_size_ it)
         (Some (Z.of_nat k * batch_size_ it)) (Some (Z.of_nat k * batch_size_ it))
         (Some (Z.of_nat k * batch_size_ it))) /\
  (full_batches it <= Z.of_nat k -> snd (Next s) = s).
Proof.
  intros HN Hb. cbv zeta.
  destruct (epoch_state it k HN Hb) as (pd & pl & pi & Hs & _ & _).
  rewrite Hs, Next_cursor.
  change (img_size0 (with_cursor it (Z.min (Z.of_nat k) (full_batches it)
                                      * batch_size_ it) pd pl pi))
    with (img_size0 it).
  cbn [with_cursor loc_ batch_size_]. unfold full_batches in *.
  set (N := img_size0 it) in *. set (b := batch_size_ it) in *.
  assert (Hq : 0 <= N / b) by (apply Z.div_pos; lia).
  assert (Hqb : N / b * b <= N) by (rewrite Z.mul_comm; apply Z.mul_div_le; lia).
  assert (Hqb' : N < (N / b + 1) * b).
  { pose proof (Z.mul_succ_div_gt N b ltac:(lia)). lia. }
  set (j := Z.min (Z.of_nat k) (N / b)) in *.
  rewrite (boundary_no_wrap N b j) by (try assumption; unfold j; nia).
  destruct (Z_lt_ge_dec (Z.of_nat k) (N / b)) as [Hlt|Hge].
  - assert (Hj : j = Z.of_nat k) by (unfold j; lia).
    assert (Hle : j * b + b <= N) by nia.
    replace (j * b + b <=? N) with true by (symmetry; apply Z.leb_le; exact Hle).
    cbn [fst snd]. split; [tauto|]. split; [tauto|].
    split; [|lia]. intros _. rewrite Hj. f_equal. ring.
  - assert (Hj : j = N / b) by (unfold j; lia).
    assert (Hgt : N < j * b + b) by nia.
    replace (j * b + b <=? N) with false by (symmetry; apply Z.leb_gt; exact Hgt).
    cbn [fst snd]. split; [split; [discriminate|lia]|].
    split; [split; [discriminate|lia]|]. split; [lia|reflexivity].
Qed.

Lemma replicate_snoc {A : Type} (n : nat) (x : A) :
  replicate n x ++ [x] = replicate (S n) x.
Proof. induction n as [|n IH]; [reflexivity|]. cbn. f_equal. exact IH. Qed.

Lemma epoch_answers it (n : nat) :
  0 <= img_size0 it <= INT_MAX -> 1 <= batch_size_ it < UINT_MOD ->
  fst (Next_times n (BeforeFirst it)) =
    replicate (Nat.min n (Z.to_nat (full_batches it))) true ++
    replicate (n - Z.to_nat (full_batches it)) false.
Proof.
  intros HN Hb.
  assert (Hq : 0 <= full_batches it) by (apply Z.div_pos; lia).
  induction n as [|n IH]; [reflexivity|].
  rewrite Next_times_S. cbn [fst]. rewrite IH.
  destruct (epoch_answer it n HN Hb) as (_ & Hiff & _).
  destruct (Z_lt_ge_dec (Z.of_nat n) (full_batches it)) as [Hlt|Hge].
  - rewrite (proj2 Hiff Hlt).
    replace (Nat.min n (Z.to_nat (full_batches it))) with n by lia.
    replace (Nat.min (S n) (Z.to_nat (full_batches it))) with (S n) by lia.
    replace (n - Z.to_nat (full_batches it))%nat with 0%nat by lia.
    replace (S n - Z.to_nat (full_batches it))%nat with 0%nat by lia.
    change (replicate 0 false) with (@nil bool). rewrite !app_nil_r.
    apply replicate_snoc.
  - destruct (fst (Next (snd (Next_times n (BeforeFirst it))))) eqn:E.
    + pose proof (proj1 Hiff eq_refl). lia.
    + replace (Nat.min (S n) (Z.to_nat (full_batches it)))
        with (Nat.min n (Z.to_nat (full_batches it))) by lia.
      rewrite <- app_assoc. f_equal.
      replace (S n - Z.to_nat (full_batches it))%nat
        with (S (n - Z.to_nat (full_batches it))) by lia.
      apply replicate_snoc.
Qed.

(** C6: in an epoch begun by [BeforeFirst], over [N <= INT_MAX] instances
    and with a batch size [b >= 1], every call of [Next] answers [true]
    exactly when [b] instances remain past the cursor, which is the case
    in the first [N / b] calls; the batch of call [k + 1] points at
    instance [k * b] and, the buffer holding the [N] images, shows the
    [b] images from there.  Every later call answers [false] and changes
    nothing.  After [BeforeFirst] the next call is the first call of
    the epoch again, result and iterator alike. *)
Theorem C6_full_batches it :
  0 <= img_size0 it <= INT_MAX -> 1 <= batch_size_ it < UINT_MOD ->
  (forall k : nat,
     let s := snd (Next_times k (BeforeFirst it)) in
     (fst (Next s) = true <-> loc_ s + batch_size_ s <= img_size0 s) /\
     (fst (Next s) = true <-> Z.of_nat k < full_batches it) /\
     (Z.of_nat k < full_batches it ->
        data_dptr (Value (snd (Next s))) = Some (Z.of_nat k * batch_size_ it) /\
        label_dptr (Value (snd (Next s))) = Some (Z.of_nat k * batch_size_ it) /\
        inst_index (Value (snd (Next s))) = Some (Z.of_nat k * batch_size_ it) /\
        img_ (snd (Next s)) = img_ it /\ labels_ (snd (Next s)) = labels_ it /\
        inst_ (snd (Next s)) = inst_ it /\
        (Z.of_nat (length (img_ it)) = img_size0 it ->
         batch_images (snd (Next s)) =
           Some (take (Z.to_nat (batch_size_ it))
                   (drop (Z.to_nat (Z.of_nat k * batch_size_ it)) (img_ it))))) /\
     (full_batches it <= Z.of_nat k -> snd (Next s) = s)) /\
  (forall m : nat,
     fst (Next_times (Z.to_nat (full_batches it) + m) (BeforeFirst it)) =
       replicate (Z.to_nat (full_batches it)) true ++ replicate m false) /\
  (forall k : nat,
     Next (BeforeFirst (snd (Next_times k (BeforeFirst it)))) = Next (BeforeFirst it)).
Proof.
  intros HN Hb. split; [|split].
  - intros k. cbv zeta.
    destruct (epoch_answer it k HN Hb) as (H1 & H2 & H3 & H4).
    split; [exact H1|]. split; [exact H2|]. split; [|exact H4].
    intros Hk. rewrite (H3 Hk).
    do 6 (split; [reflexivity|]). intros Hlen.
    unfold batch_images, Value, window. cbn [with_cursor out_ data_dptr img_ batch_size_].
    replace ((0 <=? Z.of_nat k * batch_size_ it)
             && (Z.of_nat k * batch_size_ it + batch_size_ it
                 <=? Z.of_nat (length (img_ it)))) with true; [reflexivity|].
    symmetry. apply andb_true_iff. rewrite Z.leb_le, Z.leb_le, Hlen.
    unfold full_batches in Hk.
    pose proof (Z.mul_div_le (img_size0 it) (batch_size_ it) ltac:(lia)).
    split; nia.
  - intros m. rewrite (epoch_answers it _ HN Hb).
    f_equal; f_equal; lia.
  - intros k.
    destruct (epoch_state it k HN Hb) as (pd & pl & pi & Hs & Hp0 & _).
    rewrite Hs, BeforeFirst_cursor.
    rewrite BeforeFirst_eq, !Next_cursor.
    destruct (u32 (0 + batch_size_ it) <=? img_size0 it) eqn:E; [reflexivity|].
    assert (Hq0 : full_batches it = 0).
    { apply Z.leb_gt in E. rewrite u32_small in E by lia.
      unfold full_batches. apply Z.div_small. lia. }
    rewrite Hq0 in Hp0. destruct Hp0 as (-> & -> & ->); [lia|]. reflexivity.
Qed.

End Batches.

Section ShuffleLoop.

Context {real_t : Type}.

(** The loop of [Shuffle] fills the positions from [i] on with the rows
    the identities name, and leaves the positions before [i]. *)
Lemma Shuffle_loop_fills (off : Z) (img : list (Image real_t)) (labels : list real_t)
    (ids : list Z) :
  forall (i : nat) (tmpimg : list (Image real_t)) (tmplabel : list real_t),
    (i + length ids <= length tmpimg)%nat ->
    length tmplabel = length tmpimg ->
    Forall (fun id => (source_row off id < length img)%nat /\
                      (source_row off id < length labels)%nat) ids ->
    exists ti tl,
      Shuffle_loop ids (Z.of_nat i) off img labels tmpimg tmplabel = Ok (ti, tl) /\
      length ti = length tmpimg /\ length tl = length tmplabel /\
      (forall j, (j < i)%nat -> ti !! j = tmpimg !! j /\ tl !! j = tmplabel !! j) /\
      (forall j id, ids !! j = Some id ->
         ti !! (i + j)%nat = img !! source_row off id /\
         tl !! (i + j)%nat = labels !! source_row off id).
Proof.
  induction ids as [|id rest IH]; intros i tmpimg tmplabel Hlen Hll Hin.
  - exists tmpimg, tmplabel. cbn [Shuffle_loop].
    split; [reflexivity|]. split; [reflexivity|]. split; [reflexivity|].
    split; [auto|]. intros j id' H. rewrite lookup_nil in H. discriminate.
  - cbn [length] in Hlen. apply Forall_cons in Hin as [[Hri Hrl] Hin].
    destruct (lookup_lt_is_Some_2 tmpimg i ltac:(lia)) as [dst Hdst].
    destruct (lookup_lt_is_Some_2 tmplabel i ltac:(lia)) as [dl Hdl].
    destruct (lookup_lt_is_Some_2 img _ Hri) as [src Hsrc].
    destruct (lookup_lt_is_Some_2 labels _ Hrl) as [l Hl].
    assert (Hrow : u32 (id - off) = Z.of_nat (source_row off id)).
    { unfold source_row. pose proof (u32_range (id - off)). lia. }
    destruct (IH (S i) (<[i := src]> tmpimg) (<[i := l]> tmplabel))
      as (ti & tl & HS & Hti & Htl & Hpre & Hfill).
    { rewrite length_insert. lia. }
    { rewrite !length_insert. exact Hll. }
    { exact Hin. }
    exists ti, tl. cbn [Shuffle_loop].
    rewrite (StoreFacts.vec_at_lookup _ _ _ Hdst). cbn [bind].
    rewrite Hrow, (StoreFacts.vec_at_lookup _ _ _ Hsrc). cbn [bind].
    rewrite (StoreFacts.vec_at_lookup _ _ _ Hdl). cbn [bind].
    rewrite (StoreFacts.vec_at_lookup _ _ _ Hl). cbn [bind].
    rewrite Nat2Z.id. replace (Z.of_nat i + 1) with (Z.of_nat (S i)) by lia.
    split; [exact HS|]. rewrite length_insert in Hti. rewrite length_insert in Htl.
    split; [exact Hti|]. split; [exact Htl|]. split.
    + intros j Hj. destruct (Hpre j ltac:(lia)) as [E1 E2].
      rewrite E1, E2, !list_lookup_insert_ne by lia. auto.
    + intros [|j] id' Hj.
      * cbn in Hj. injection Hj as <-. rewrite Nat.add_0_r.
        destruct (Hpre i ltac:(lia)) as [E1 E2]. rewrite E1, E2.
        rewrite !list_lookup_insert_eq by lia. auto.
      * cbn in Hj. replace (i + S j)%nat with (S i + j)%nat by lia.
        apply Hfill. exact Hj.
Qed.

End ShuffleLoop.

Section Permutations.

Context {A : Type}.

(** Rows taken in the order of a permutation of all the positions are a
    permutation of the rows. *)
Lemma rows_permutation (l l' : list A) (rows : list nat) :
  rows ≡ₚ seq 0 (length l) ->
  length l' = length rows ->
  (forall j r, rows !! j = Some r -> l' !! j = l !! r) ->
  l' ≡ₚ l.
Proof.
  intros Hperm Hlen Hrow.
  assert (E : map Some l' = map (fun r => l !! r) rows).
  { apply list_eq. intros j. change map with (@fmap list _). rewrite !list_lookup_fmap.
    destruct (rows !! j) as [r|] eqn:Er; cbn.
    - rewrite (Hrow j r Er).
      assert (Hr : r ∈ seq 0 (length l)).
      { rewrite <- Hperm. apply list_elem_of_lookup. eauto. }
      apply elem_of_seq in Hr.
      destruct (lookup_lt_is_Some_2 l r ltac:(lia)) as [x ->]. reflexivity.
    - apply lookup_ge_None in Er. rewrite <- Hlen in Er.
      apply lookup_ge_None in Er. rewrite Er. reflexivity. }
  assert (E' : map (fun r => l !! r) (seq 0 (length l)) = map Some l).
  { apply list_eq. intros j. change map with (@fmap list _). rewrite !list_lookup_fmap.
    destruct (l !! j) as [x|] eqn:Ex; cbn.
    - rewrite (proj2 (lookup_seq 0 (length l) j j)); [cbn; rewrite Ex; reflexivity|].
      split; [reflexivity|]. apply (lookup_lt_Some _ _ _ Ex).
    - apply lookup_ge_None in Ex.
      rewrite (proj2 (lookup_ge_None (seq 0 (length l)) j)); [reflexivity|].
      rewrite length_seq. exact Ex. }
  assert (P : map Some l' ≡ₚ map Some l).
  { rewrite E, <- E'. apply Permutation_map. exact Hperm. }
  apply Permutation_map_inv in P as (l3 & E3 & P3).
  replace l' with l3; [symmetry; exact P3|].
  symmetry. revert E3. clear. revert l3.
  induction l' as [|x l' IH]; intros [|y l3] H; try discriminate; [reflexivity|].
  cbn in H. injection H as -> H. f_equal. apply IH. exact H.
Qed.

End Permutations.

Lemma source_row_loaded (off : Z) (i : nat) :
  Z.of_nat i < UINT_MOD -> source_row off (u32 (Z.of_nat i + off)) = i.
Proof.
  intros Hi. unfold source_row.
  replace (u32 (u32 (Z.of_nat i + off) - off)) with (Z.of_nat i); [apply Nat2Z.id|].
  unfold u32, UINT_MOD in *. Z.div_mod_to_equations. lia.
Qed.

Lemma source_rows_loaded (off : Z) (n : nat) :
  Z.of_nat n <= UINT_MOD -> map (source_row off) (loaded_ids off n) = seq 0 n.
Proof.
  intros Hn. unfold loaded_ids. rewrite map_map.
  rewrite <- (map_id (seq 0 n)) at 2. apply map_ext_in.
  intros i Hi. apply in_seq in Hi. apply source_row_loaded. lia.
Qed.

Lemma loaded_ids_lookup (off : Z) (n i : nat) :
  (i < n)%nat -> loaded_ids off n !! i = Some (u32 (Z.of_nat i + off)).
Proof.
  intros Hi. unfold loaded_ids. change map with (@fmap list _).
  rewrite list_lookup_fmap.
  rewrite (proj2 (lookup_seq 0 n i i)); [reflexivity|]. split; [reflexivity|exact Hi].
Qed.

(** An identity of a permutation of the loaded ones names a row of the
    dataset, the one it was loaded at. *)
Lemma permuted_id_row (off : Z) (n : nat) (ids : list Z) (id : Z) :
  Z.of_nat n <= UINT_MOD -> ids ≡ₚ loaded_ids off n -> id ∈ ids ->
  (source_row off id < n)%nat /\
  loaded_ids off n !! source_row off id = Some id.
Proof.
  intros Hn Hp Hid. rewrite Hp in Hid. unfold loaded_ids in Hid.
  change map with (@fmap list _) in Hid.
  apply list_elem_of_fmap in Hid as (i & -> & Hi). apply elem_of_seq in Hi.
  rewrite source_row_loaded by lia. split; [lia|]. apply loaded_ids_lookup. lia.
Qed.

Section ShuffleFacts.

Context {real_t RandomSampler : Type} (fresh : real_t)
  (rnd_Shuffle : RandomSampler -> list Z -> RandomSampler * list Z).

(** What the specification says of the sampler: its [Shuffle] permutes
    the vector. *)
Hypothesis rnd_Shuffle_perm :
  forall (g : RandomSampler) (l : list Z), snd (rnd_Shuffle g l) ≡ₚ l.

Implicit Types it : MNISTIterator real_t RandomSampler.

Local Abbreviation Shuffle' := (Shuffle fresh rnd_Shuffle).

(** The identities and the sampler after [Shuffle] are those the
    sampler returns. *)
Lemma Shuffle_ids it it' :
  Shuffle' it = Ok it' ->
  inst_ it' = snd (rnd_Shuffle (rnd it) (inst_ it)) /\
  rnd it' = fst (rnd_Shuffle (rnd it) (inst_ it)) /\
  inst_offset_ it' = inst_offset_ it /\ img_shape it' = img_shape it.
Proof.
  unfold Shuffle. cbv zeta.
  destruct (Shuffle_loop _ _ _ _ _ _ _) as [[ti tl]| |]; cbn [bind]; try discriminate.
  intros [= <-]. repeat split; reflexivity.
Qed.

Lemma Shuffle_ok it :
  dataset_ok it ->
  exists it',
    Shuffle' it = Ok it' /\ dataset_ok it' /\
    inst_ it' ≡ₚ inst_ it /\
    length (img_ it') = length (img_ it) /\
    (forall (j : nat) (id : Z),
       inst_ it' !! j = Some id ->
       img_ it' !! j = img_ it !! source_row (inst_offset_ it) id /\
       labels_ it' !! j = labels_ it !! source_row (inst_offset_ it) id) /\
    img_ it' ≡ₚ img_ it /\ labels_ it' ≡ₚ labels_ it.
Proof.
  intros (Himg & Hlt & Hlab & Hids).
  set (N := length (img_ it)) in *. set (off := inst_offset_ it) in *.
  set (ids := snd (rnd_Shuffle (rnd it) (inst_ it))).
  assert (Hp : ids ≡ₚ loaded_ids off N).
  { unfold ids. rewrite rnd_Shuffle_perm. exact Hids. }
  assert (HlenN : length ids = N).
  { rewrite (Permutation_length Hp). unfold loaded_ids.
    rewrite length_map, length_seq. reflexivity. }
  assert (HN : Z.of_nat N <= UINT_MOD) by lia.
  assert (Hrange : Forall (fun id => (source_row off id < length (img_ it))%nat /\
                                     (source_row off id < length (labels_ it))%nat) ids).
  { apply Forall_forall. intros id Hid.
    destruct (permuted_id_row off N ids id HN Hp Hid) as [Hr _].
    fold N. rewrite Hlab. fold N. lia. }
  destruct (Shuffle_loop_fills off (img_ it) (labels_ it) ids 0
              (replicate (Z.to_nat (img_size0 it)) (fresh_image fresh (img_shape it)))
              (replicate (length (labels_ it)) fresh))
    as (ti & tl & HS & Hti & Htl & _ & Hfill).
  { rewrite length_replicate, <- Himg, Nat2Z.id. lia. }
  { rewrite !length_replicate, <- Himg, Nat2Z.id. exact Hlab. }
  { exact Hrange. }
  rewrite length_replicate, <- Himg, Nat2Z.id in Hti.
  rewrite length_replicate in Htl.
  assert (Hrows : map (source_row off) ids ≡ₚ seq 0 N).
  { rewrite <- (source_rows_loaded off N HN). apply Permutation_map. exact Hp. }
  assert (Pimg : ti ≡ₚ img_ it).
  { apply (rows_permutation (img_ it) ti (map (source_row off) ids)).
    - exact Hrows.
    - rewrite length_map. lia.
    - intros j r Hj. change map with (@fmap list _) in Hj.
      rewrite list_lookup_fmap in Hj.
      destruct (ids !! j) as [id|] eqn:Eid; [|discriminate]. injection Hj as <-.
      apply (Hfill j id Eid). }
  assert (Plab : tl ≡ₚ labels_ it).
  { apply (rows_permutation (labels_ it) tl (map (source_row off) ids)).
    - rewrite Hlab. exact Hrows.
    - rewrite length_map. lia.
    - intros j r Hj. change map with (@fmap list _) in Hj.
      rewrite list_lookup_fmap in Hj.
      destruct (ids !! j) as [id|] eqn:Eid; [|discriminate]. injection Hj as <-.
      apply (Hfill j id Eid). }
  eexists. split.
  { unfold Shuffle. cbv zeta.
    change (inst_ (set_labels (set_rnd it _) (labels_ it) _)) with ids.
    change (inst_offset_ (set_labels (set_rnd it _) (labels_ it) _)) with off.
    change (img_ (set_labels (set_rnd it _) (labels_ it) _)) with (img_ it).
    change (labels_ (set_labels (set_rnd it _) (labels_ it) _)) with (labels_ it).
    change (img_size0 (set_labels (set_rnd it _) (labels_ it) _)) with (img_size0 it).
    change (img_shape (set_labels (set_rnd it _) (labels_ it) _)) with (img_shape it).
    change (Z.of_nat 0) with 0 in HS. rewrite HS. cbn [bind fst snd]. reflexivity. }
  cbn [set_labels set_img set_rnd img_ labels_ inst_ inst_offset_ img_shape].
  split.
  { unfold dataset_ok, img_size0.
    cbn [set_labels set_img set_rnd img_ labels_ inst_ inst_offset_ img_shape].
    fold (img_size0 it). rewrite Hti. fold N off.
    split; [exact Himg|]. split; [exact Hlt|]. split; [lia|exact Hp]. }
  split; [apply rnd_Shuffle_perm|]. split; [exact Hti|].
  split; [|split; assumption].
  intros j id Hj. apply (Hfill j id Hj).
Qed.

(** [Shuffle] moves every image together with its label. *)
Lemma Shuffle_pairs it it' :
  dataset_ok it -> Shuffle' it = Ok it' ->
  zip (img_ it') (labels_ it') ≡ₚ zip (img_ it) (labels_ it).
Proof.
  intros Hok HS.
  destruct (Shuffle_ok it Hok) as (it1 & HS1 & Hok1 & Hp & Hlen & Hrow & _ & _).
  rewrite HS in HS1. injection HS1 as <-.
  destruct Hok as (Himg & Hlt & Hlab & Hids).
  destruct Hok1 as (_ & _ & Hlab1 & Hids1).
  destruct (Shuffle_ids it it' HS) as (_ & _ & Hoff & _).
  rewrite Hoff, Hlen in Hids1.
  assert (HN : Z.of_nat (length (img_ it)) <= UINT_MOD) by lia.
  apply (rows_permutation _ _ (map (source_row (inst_offset_ it)) (inst_ it'))).
  - rewrite length_zip_with_l_eq by (symmetry; exact Hlab).
    rewrite <- (source_rows_loaded (inst_offset_ it) _ HN).
    apply Permutation_map. exact Hids1.
  - rewrite length_zip_with_l_eq by (symmetry; exact Hlab1).
    rewrite length_map, (Permutation_length Hids1). unfold loaded_ids.
    rewrite length_map, length_seq. exact Hlen.
  - intros j r Hj. change map with (@fmap list _) in Hj.
    rewrite list_lookup_fmap in Hj.
    destruct (inst_ it' !! j) as [id|] eqn:Eid; [|discriminate]. injection Hj as <-.
    destruct (Hrow j id Eid) as [E1 E2].
    rewrite !lookup_zip_with, E1, E2. reflexivity.
Qed.

(** C7: on a loaded dataset [Shuffle] returns; the identities after it
    are a permutation of the identities before (the multiset is the
    same); the image and the label at every position [i] are those that
    were at row [inst_[i] - inst_offset_] before, [inst_[i]] being the
    identity now at [i]; and the identities after it are a function of
    the sampler's state and the identities before, so that two iterators
    seeded alike over the same identities end with the same
    permutation. *)
Theorem C7_shuffle_permutes it :
  dataset_ok it ->
  exists it',
    Shuffle' it = Ok it' /\
    inst_ it' ≡ₚ inst_ it /\
    (forall (i : nat) (id : Z),
       inst_ it' !! i = Some id ->
       exists x l,
         img_ it !! source_row (inst_offset_ it) id = Some x /\
         img_ it' !! i = Some x /\
         labels_ it !! source_row (inst_offset_ it) id = Some l /\
         labels_ it' !! i = Some l) /\
    (forall it2 it2',
       rnd it2 = rnd it -> inst_ it2 = inst_ it -> Shuffle' it2 = Ok it2' ->
       inst_ it2' = inst_ it' /\ rnd it2' = rnd it').
Proof.
  intros Hok.
  destruct (Shuffle_ok it Hok) as (it' & HS & Hok' & Hp & Hlen & Hrow & _ & _).
  exists it'. split; [exact HS|]. split; [exact Hp|]. split.
  - intros i id Hi. destruct (Hrow i id Hi) as [E1 E2].
    pose proof (lookup_lt_Some _ _ _ Hi) as Hlt.
    destruct Hok' as (_ & _ & Hlab' & Hids').
    assert (Hn : length (inst_ it') = length (img_ it')).
    { rewrite (Permutation_length Hids'). unfold loaded_ids.
      rewrite length_map, length_seq. reflexivity. }
    destruct (lookup_lt_is_Some_2 (img_ it') i ltac:(lia)) as [x Hx].
    destruct (lookup_lt_is_Some_2 (labels_ it') i ltac:(lia)) as [l Hl].
    exists x, l. rewrite <- E1, <- E2. auto.
  - intros it2 it2' Hr Hi HS2.
    destruct (Shuffle_ids it it' HS) as (E1 & E2 & _).
    destruct (Shuffle_ids it2 it2' HS2) as (E1' & E2' & _).
    rewrite E1, E2, E1', E2', Hr, Hi. auto.
Qed.

End ShuffleFacts.

Section Loading.

Context {real_t RandomSampler : Type} (of_uchar : Z -> real_t)
  (scale256 : real_t -> real_t) (fresh : real_t).

Implicit Types it : MNISTIterator real_t RandomSampler.

Lemma LoadLabel_loop_ids (off : Z) (n : nat) :
  forall (i : Z) (fi : Stream) (labels : list real_t) (inst : list Z) r,
    LoadLabel_loop of_uchar n i off fi labels inst = Ok r ->
    snd r = inst ++ map (fun k : nat => u32 (Z.of_nat k + i + off)) (seq 0 n) /\
    length (fst r) = length labels.
Proof.
  induction n as [|n IH]; intros i fi labels inst r H.
  - cbn in H. injection H as <-. cbn. rewrite app_nil_r. auto.
  - cbn [LoadLabel_loop] in H.
    destruct (ReadByte fi) as [[ch rest]| |]; cbn [bind] in H; try discriminate.
    destruct (vec_at labels i) as [x| |]; cbn [bind] in H; try discriminate.
    apply IH in H as [Hs Hl]. rewrite length_insert in Hl. split; [|exact Hl].
    rewrite Hs, <- app_assoc. f_equal. cbn [seq map app]. f_equal.
    + unfold u32, UINT_MOD. Z.div_mod_to_equations. lia.
    + rewrite <- seq_shift, map_map. apply map_ext. intros k. f_equal. lia.
Qed.

Lemma LoadLabel_ids it it' (stdlabel : Stream) :
  LoadLabel of_uchar fresh it stdlabel = Ok it' ->
  exists n : nat,
    inst_ it' = inst_ it ++ loaded_ids (inst_offset_ it) n /\
    length (labels_ it') = n /\
    img_ it' = img_ it /\ img_shape it' = img_shape it /\
    inst_offset_ it' = inst_offset_ it /\ shuffle_ it' = shuffle_ it.
Proof.
  unfold LoadLabel.
  destruct (ReadInt stdlabel) as [[magic s1]| |]; cbn [bind fst snd]; try discriminate.
  destruct (ReadInt s1) as [[count s2]| |]; cbn [bind fst snd]; try discriminate.
  destruct (count <? 0); [discriminate|].
  destruct (LoadLabel_loop _ _ _ _ _ _ _) as [r| |] eqn:E; cbn [bind fst snd];
    try discriminate.
  intros [= <-]. apply LoadLabel_loop_ids in E as [Hs Hl].
  exists (Z.to_nat count). cbn [set_labels inst_ labels_ img_ img_shape inst_offset_ shuffle_].
  rewrite Hs, Hl, length_resize. unfold loaded_ids.
  split; [|auto]. f_equal. apply map_ext. intros k. f_equal. lia.
Qed.

Lemma LoadImage_length it it' (stdimg : Stream) :
  LoadImage of_uchar scale256 fresh it stdimg = Ok it' ->
  Z.of_nat (length (img_ it')) = img_size0 it' /\ img_size0 it' < UINT_MOD /\
  inst_ it' = inst_ it /\ inst_offset_ it' = inst_offset_ it /\
  shuffle_ it' = shuffle_ it.
Proof.
  unfold LoadImage.
  destruct (ReadInt stdimg) as [[magic s1]| |]; cbn [bind fst snd]; try discriminate.
  destruct (ReadInt s1) as [[count s2]| |]; cbn [bind fst snd]; try discriminate.
  destruct (ReadInt s2) as [[rows s3]| |]; cbn [bind fst snd]; try discriminate.
  destruct (ReadInt s3) as [[cols s4]| |]; cbn [bind fst snd]; try discriminate.
  destruct (read_images _ _ _ _ _) as [r| |]; cbn [bind fst snd]; try discriminate.
  intros [= <-]. unfold img_size0.
  cbn [set_img img_ img_shape inst_ inst_offset_ shuffle_ fst].
  rewrite length_map, length_resize. pose proof (u32_range count).
  split; [lia|]. split; [lia|auto].
Qed.

(** What [Init] leaves when it does not shuffle. *)
Lemma Init_loaded (rnd_Shuffle : RandomSampler -> list Z -> RandomSampler * list Z)
    it it0 (img_file label_file : Stream) :
  shuffle_ it = 0 ->
  Init of_uchar scale256 fresh rnd_Shuffle it img_file label_file = Ok it0 ->
  exists n : nat,
    inst_ it0 = inst_ it ++ loaded_ids (inst_offset_ it) n /\
    length (labels_ it0) = n /\
    Z.of_nat (length (img_ it0)) = img_size0 it0 /\ img_size0 it0 < UINT_MOD /\
    inst_offset_ it0 = inst_offset_ it.
Proof.
  intros Hsh. unfold Init.
  destruct (LoadImage _ _ _ it img_file) as [it1| |] eqn:E1; cbn [bind]; try discriminate.
  destruct (LoadLabel _ _ it1 label_file) as [it2| |] eqn:E2; cbn [bind];
    try discriminate.
  apply LoadImage_length in E1 as (Hlen & Hlt & Hi1 & Ho1 & Hs1).
  apply LoadLabel_ids in E2 as (n & Hi2 & Hl2 & Himg2 & Hsh2 & Ho2 & Hs2).
  cbv zeta. change (shuffle_ (set_out it2 _)) with (shuffle_ it2).
  rewrite Hs2, Hs1, Hsh. cbn [Z.eqb]. intros [= <-]. exists n.
  unfold img_size0 in *. cbn [set_out inst_ labels_ img_ img_shape inst_offset_].
  rewrite Hi2, Hi1, Ho1, Himg2, Hsh2, Ho2, Ho1. auto.
Qed.

End Loading.

Section Identities.

Context {real_t RandomSampler : Type} (of_uchar : Z -> real_t)
  (scale256 : real_t -> real_t) (fresh : real_t)
  (rnd_Shuffle : RandomSampler -> list Z -> RandomSampler * list Z).

Hypothesis rnd_Shuffle_perm :
  forall (g : RandomSampler) (l : list Z), snd (rnd_Shuffle g l) ≡ₚ l.

Implicit Types it : MNISTIterator real_t RandomSampler.

(** One shuffle more, counted from the end. *)
Lemma Shuffle_times_snoc (n : nat) it :
  Shuffle_times fresh rnd_Shuffle (S n) it
  = let! itn := Shuffle_times fresh rnd_Shuffle n it in Shuffle fresh rnd_Shuffle itn.
Proof.
  revert it. induction n as [|n IH]; intros it.
  - cbn [Shuffle_times bind]. destruct (Shuffle _ _ it); reflexivity.
  - change (Shuffle_times fresh rnd_Shuffle (S (S n)) it)
      with (let! it' := Shuffle fresh rnd_Shuffle it in
            Shuffle_times fresh rnd_Shuffle (S n) it').
    change (Shuffle_times fresh rnd_Shuffle (S n) it)
      with (let! it' := Shuffle fresh rnd_Shuffle it in
            Shuffle_times fresh rnd_Shuffle n it').
    destruct (Shuffle _ _ it) as [it'| |]; cbn [bind]; [apply IH|reflexivity..].
Qed.

(** Any number of shuffles of a loaded dataset returns, permutes the
    identities and moves every image together with its label. *)
Lemma Shuffle_times_ok (n : nat) it :
  dataset_ok it ->
  exists itn,
    Shuffle_times fresh rnd_Shuffle n it = Ok itn /\ dataset_ok itn /\
    inst_offset_ itn = inst_offset_ it /\
    inst_ itn ≡ₚ inst_ it /\ img_ itn ≡ₚ img_ it /\ labels_ itn ≡ₚ labels_ it /\
    zip (img_ itn) (labels_ itn) ≡ₚ zip (img_ it) (labels_ it).
Proof.
  revert it. induction n as [|n IH]; intros it Hok.
  - exists it. cbn. auto 10.
  - destruct (Shuffle_ok fresh rnd_Shuffle rnd_Shuffle_perm it Hok)
      as (it1 & HS & Hok1 & Hp & _ & _ & Pi & Pl).
    pose proof (Shuffle_pairs fresh rnd_Shuffle rnd_Shuffle_perm it it1 Hok HS) as Pz.
    destruct (Shuffle_ids fresh rnd_Shuffle it it1 HS) as (_ & _ & Hoff & _).
    destruct (IH it1 Hok1) as (itn & HSn & Hokn & Hoffn & Hpn & Pin & Pln & Pzn).
    exists itn. cbn [Shuffle_times]. rewrite HS. cbn [bind].
    split; [exact HSn|]. split; [exact Hokn|]. split; [congruence|].
    split; [rewrite Hpn; exact Hp|]. split; [rewrite Pin; exact Pi|].
    split; [rewrite Pln; exact Pl|]. rewrite Pzn. exact Pz.
Qed.

(** C10, amended: after [Init] without shuffling the identity at every
    position [i] is [i + inst_offset_], the sum of the code, an
    [unsigned].  When the two files hold as many instances, the first
    [Shuffle] relies on it: the identities become those the sampler
    returns, and since position [i] takes row [inst_[i] - inst_offset_]
    every position then holds the image and the label loaded for its
    identity.  The identities stay a permutation of the loaded ones, so
    that every further shuffle returns as well: after any number of
    shuffles the next one takes the identities from the sampler, puts
    at position [i] the image and the label that were at row
    [inst_[i] - inst_offset_] just before it (the row of the order
    then, no longer the row the identity was loaded at), and so leaves
    the images with their labels a permutation of those loaded. *)
Theorem C10_loaded_identities it it0 (img_file label_file : Stream) :
  inst_ it = [] -> shuffle_ it = 0 ->
  Init of_uchar scale256 fresh rnd_Shuffle it img_file label_file = Ok it0 ->
  (forall (i : nat) (id : Z),
     inst_ it0 !! i = Some id -> id = u32 (Z.of_nat i + inst_offset_ it0)) /\
  (length (img_ it0) = length (inst_ it0) ->
   dataset_ok it0 /\
   (exists it1,
      Shuffle fresh rnd_Shuffle it0 = Ok it1 /\
      inst_ it1 = snd (rnd_Shuffle (rnd it0) (inst_ it0)) /\
      keeps_identities it0 it1) /\
   (forall n : nat,
      exists itn itn',
        Shuffle_times fresh rnd_Shuffle n it0 = Ok itn /\
        Shuffle fresh rnd_Shuffle itn = Ok itn' /\
        Shuffle_times fresh rnd_Shuffle (S n) it0 = Ok itn' /\
        inst_ itn' = snd (rnd_Shuffle (rnd itn) (inst_ itn)) /\
        inst_ itn' ≡ₚ inst_ it0 /\
        (forall (j : nat) (id : Z),
           inst_ itn' !! j = Some id ->
           exists x l,
             img_ itn !! source_row (inst_offset_ it0) id = Some x /\
             img_ itn' !! j = Some x /\
             labels_ itn !! source_row (inst_offset_ it0) id = Some l /\
             labels_ itn' !! j = Some l) /\
        img_ itn' ≡ₚ img_ it0 /\ labels_ itn' ≡ₚ labels_ it0 /\
        zip (img_ itn') (labels_ itn') ≡ₚ zip (img_ it0) (labels_ it0))).
Proof.
  intros Hempty Hsh HI.
  destruct (Init_loaded of_uchar scale256 fresh rnd_Shuffle it it0 _ _ Hsh HI)
    as (n & Hids & Hlab & Himg & Hlt & Hoff).
  rewrite Hempty in Hids. cbn [app] in Hids. rewrite <- Hoff in Hids.
  assert (Hn : length (inst_ it0) = n).
  { rewrite Hids. unfold loaded_ids. rewrite length_map, length_seq. reflexivity. }
  split.
  - intros i id Hi. rewrite Hids in Hi.
    pose proof (lookup_lt_Some _ _ _ Hi) as Hl. rewrite <- Hids, Hn in Hl.
    rewrite loaded_ids_lookup in Hi by exact Hl. congruence.
  - intros Hsame.
    assert (Hok : dataset_ok it0).
    { split; [exact Himg|]. split; [exact Hlt|]. split; [lia|].
      rewrite Hsame, Hn, <- Hids. reflexivity. }
    split; [exact Hok|]. split.
    + destruct (Shuffle_ok fresh rnd_Shuffle rnd_Shuffle_perm it0 Hok)
        as (it1 & HS & Hok1 & Hp & Hlen & Hrow & _ & _).
      exists it1. split; [exact HS|].
      split; [apply (Shuffle_ids fresh rnd_Shuffle it0 it1 HS)|].
      intros j id Hj. destruct (Hrow j id Hj) as [E1 E2].
      assert (Hin : id ∈ inst_ it1) by (apply list_elem_of_lookup; eauto).
      assert (Hp' : inst_ it1 ≡ₚ loaded_ids (inst_offset_ it0) n).
      { rewrite Hp, Hids. reflexivity. }
      destruct (permuted_id_row (inst_offset_ it0) n (inst_ it1) id
                  ltac:(lia) Hp' Hin) as [Hr Hl].
      destruct (lookup_lt_is_Some_2 (img_ it0) (source_row (inst_offset_ it0) id)
                  ltac:(lia)) as [x Hx].
      destruct (lookup_lt_is_Some_2 (labels_ it0) (source_row (inst_offset_ it0) id)
                  ltac:(lia)) as [l Hll].
      exists (source_row (inst_offset_ it0) id), x, l.
      rewrite Hids at 1. rewrite E1, E2. auto.
    + intros m.
      destruct (Shuffle_times_ok m it0 Hok)
        as (itn & HS & Hokn & Hoffn & P1 & P2 & P3 & P4).
      destruct (Shuffle_ok fresh rnd_Shuffle rnd_Shuffle_perm itn Hokn)
        as (itn' & HS' & Hokn' & Hp & Hlen & Hrow & Pi & Pl).
      pose proof (Shuffle_pairs fresh rnd_Shuffle rnd_Shuffle_perm itn itn' Hokn HS')
        as Pz.
      exists itn, itn'. split; [exact HS|]. split; [exact HS'|].
      split; [rewrite Shuffle_times_snoc, HS; exact HS'|].
      split; [apply (Shuffle_ids fresh rnd_Shuffle itn itn' HS')|].
      split; [rewrite Hp; exact P1|].
      split; [|split; [rewrite Pi; exact P2|split; [rewrite Pl; exact P3|]];
               rewrite Pz; exact P4].
      intros j id Hj. destruct (Hrow j id Hj) as [E1 E2]. rewrite Hoffn in E1, E2.
      pose proof (lookup_lt_Some _ _ _ Hj) as Hlt'.
      destruct Hokn' as (_ & _ & Hlab' & Hids').
      assert (Hlen' : length (inst_ itn') = length (img_ itn')).
      { rewrite (Permutation_length Hids'). unfold loaded_ids.
        rewrite length_map, length_seq. reflexivity. }
      destruct (lookup_lt_is_Some_2 (img_ itn') j ltac:(lia)) as [x Hx].
      destruct (lookup_lt_is_Some_2 (labels_ itn') j ltac:(lia)) as [l Hl].
      exists x, l. rewrite <- E1, <- E2. auto.
Qed.

End Identities.

(** C10, the claim as it stands fails: a second shuffle does not keep
    the identities with their data.  With identities 0 and 1 and a
    sampler that swaps them, the second shuffle puts the identities
    back in order [0; 1] and takes rows 0 and 1 of the swapped images,
    so that identity 0 sits on the image loaded for identity 1.  Images
    and labels are still a permutation of those loaded; the code
    shuffles once, in [Init]. *)
Lemma C10_second_shuffle_misplaces :
  ~ shuffles_keep_identities 0 Samples.rev_sampler Samples.two_loaded.
Proof.
  intros H.
  assert (E : exists it2,
            Shuffle_times 0 Samples.rev_sampler 2 Samples.two_loaded = Ok it2 /\
            inst_ it2 = [0; 1] /\ img_ it2 = [[[10]]; [[0]]]).
  { vm_compute. eexists. split; [reflexivity|]. split; reflexivity. }
  destruct E as (it2 & E & Eid & Eimg).
  destruct (H 2%nat it2 E 0%nat 0) as (i & x & l & Hi & Hx & Hx' & _).
  { rewrite Eid. reflexivity. }
  rewrite Eimg in Hx'. injection Hx' as <-.
  destruct i as [|[|i]]; cbn in Hi, Hx; discriminate.
Qed.

Lemma rev_sampler_permutes (g : unit) (l : list Z) : snd (Samples.rev_sampler g l) ≡ₚ l.
Proof. cbn. symmetry. apply Permutation_rev. Qed.

Lemma C6_full_batches_witness :
  fst (Next_times 4 (BeforeFirst Samples.twenty_five_loaded))
    = [true; true; false; false] /\
  Next (BeforeFirst (snd (Next_times 4 (BeforeFirst Samples.twenty_five_loaded))))
    = Next (BeforeFirst Samples.twenty_five_loaded).
Proof.
  destruct (C6_full_batches Samples.twenty_five_loaded) as (_ & Hans & Hagain).
  - vm_compute. split; discriminate.
  - vm_compute. split; [discriminate|reflexivity].
  - split; [exact (Hans 2%nat)|exact (Hagain 4%nat)].
Defined.

Lemma two_loaded_ok : dataset_ok Samples.two_loaded.
Proof.
  split; [reflexivity|]. split; [reflexivity|]. split; [reflexivity|].
  apply Permutation_refl.
Defined.

Lemma C7_shuffle_permutes_witness :
  exists it',
    Shuffle 0 Samples.rev_sampler Samples.two_loaded = Ok it' /\
    inst_ it' ≡ₚ inst_ Samples.two_loaded /\
    inst_ it' = [1; 0] /\ img_ it' = [[[10]]; [[0]]] /\ labels_ it' = [1; 0].
Proof.
  destruct (C7_shuffle_permutes 0 Samples.rev_sampler rev_sampler_permutes
              Samples.two_loaded two_loaded_ok) as (it' & HS & Hp & _ & _).
  exists it'. split; [exact HS|]. split; [exact Hp|].
  vm_compute in HS. injection HS as <-. repeat split; reflexivity.
Defined.

Lemma C10_loaded_identities_witness :
  inst_ Samples.two_loaded = [0; 1] /\
  dataset_ok Samples.two_loaded /\
  (exists it1,
     Shuffle 0 Samples.rev_sampler Samples.two_loaded = Ok it1 /\
     inst_ it1 = [1; 0] /\ keeps_identities Samples.two_loaded it1) /\
  exists it1 it2,
    Shuffle_times 0 Samples.rev_sampler 1 Samples.two_loaded = Ok it1 /\
    Shuffle_times 0 Samples.rev_sampler 2 Samples.two_loaded = Ok it2 /\
    zip (img_ it2) (labels_ it2)
      ≡ₚ zip (img_ Samples.two_loaded) (labels_ Samples.two_loaded).
Proof.
  destruct (C10_loaded_identities (fun ch => ch) (fun x => x) 0 Samples.rev_sampler
              rev_sampler_permutes (Samples.new_iterator 1) Samples.two_loaded
              (Samples.image_file 2) (Samples.label_file 2))
    as (_ & Hshuffles); [reflexivity|reflexivity|reflexivity|].
  split; [reflexivity|].
  destruct (Hshuffles eq_refl) as (Hok & (it1 & HS1 & Hid1 & Hk1) & Hn).
  split; [exact Hok|]. split.
  - exists it1. split; [exact HS1|]. split; [rewrite Hid1; reflexivity|exact Hk1].
  - destruct (Hn 1%nat) as (it1' & it2 & HSa & _ & HSb & _ & _ & _ & _ & _ & Pz).
    exists it1', it2. auto.
Defined.

End IteratorFacts.

(** * Further properties of the code *)

(** ** Vector reads *)

Module VectorProps.

Lemma vec_at_head {A : Type} (x : A) (l : list A) : vec_at (x :: l) 0 = Ok x.
Proof.
  unfold vec_at. cbn [length]. rewrite Nat2Z.inj_succ.
  replace ((0 <=? 0) && (0 <? Z.succ (Z.of_nat (length l)))) with true; [reflexivity|].
  symmetry. apply andb_true_iff. split; [reflexivity|apply Z.ltb_lt; lia].
Qed.

Lemma vec_at_nil {A : Type} (i : Z) : vec_at (@nil A) i = Undefined.
Proof.
  unfold vec_at. change (Z.of_nat (length [])) with 0.
  destruct (0 <=? i), (i <? 0); reflexivity.
Qed.

Lemma vec_at_Ok {A : Type} (v : list A) (i : Z) (a : A) :
  vec_at v i = Ok a -> 0 <= i < Z.of_nat (length v) /\ v !! Z.to_nat i = Some a.
Proof.
  unfold vec_at. destruct ((0 <=? i) && (i <? Z.of_nat (length v))) eqn:E;
    [|discriminate].
  apply andb_true_iff in E as [E1 E2]. apply Z.leb_le in E1. apply Z.ltb_lt in E2.
  destruct (v !! Z.to_nat i); [|discriminate]. intros [= ->]. auto.
Qed.

(** A vector read never ends in an error message. *)
Lemma vec_at_cases {A : Type} (v : list A) (i : Z) :
  (exists a, vec_at v i = Ok a) \/ vec_at v i = Undefined.
Proof.
  unfold vec_at. destruct ((0 <=? i) && (i <? Z.of_nat (length v))); [|right; reflexivity].
  destruct (v !! Z.to_nat i) as [a|]; [left; exists a|right]; reflexivity.
Qed.

Lemma vec_at_app_l {A : Type} (l l' : list A) (i : Z) (a : A) :
  vec_at l i = Ok a -> vec_at (l ++ l') i = Ok a.
Proof.
  intros H. apply vec_at_Ok in H as [Hi Ha].
  replace i with (Z.of_nat (Z.to_nat i)) by lia.
  apply StoreFacts.vec_at_lookup. rewrite lookup_app_l by lia. exact Ha.
Qed.

End VectorProps.

(** ** Parameter-server keys *)

Module KeyProps.

Import Updater Spec.

(** A key that [EncodeDataKey] returns comes from one of the two tags,
    and is the wrapped sum of the code. *)
Lemma EncodeDataKey_Ok l tag k :
  EncodeDataKey l tag = Ok k ->
  (tag = "bias"%string /\ k = wrap_int (wrap_int (l * 4) + 1)) \/
  (tag = "wmat"%string /\ k = wrap_int (wrap_int (l * 4) + 0)).
Proof.
  unfold EncodeDataKey, streq, kDataKeyStep.
  case_bool_decide as Hb; [intros [= <-]; left; auto|].
  case_bool_decide as Hw; [intros [= <-]; right; auto|].
  discriminate.
Qed.

(** While [layer_index * 4 + 1] is an [int] the key is that number. *)
Lemma EncodeDataKey_exact l tag k :
  - 536870912 <= l <= 536870911 ->
  EncodeDataKey l tag = Ok k ->
  (tag = "bias"%string /\ k = 4 * l + 1) \/ (tag = "wmat"%string /\ k = 4 * l).
Proof.
  intros Hl H. apply EncodeDataKey_Ok in H.
  rewrite (wrap_int_small (l * 4)) in H by (unfold is_int, INT_MAX; lia).
  rewrite !wrap_int_small in H by (unfold is_int, INT_MAX; lia).
  destruct H as [[-> ->]|[-> ->]]; [left|right]; split; auto; lia.
Qed.

(** X1: the key is unique.  For layer indices from -2^29 to 2^29 - 1,
    where [layer_index * 4 + 1] is an [int], two calls of
    [EncodeDataKey] that return the same key were given the same layer
    index and the same tag. *)
Theorem keys_are_unique (l1 l2 : Z) (t1 t2 : string) (k : Z) :
  - 536870912 <= l1 <= 536870911 -> - 536870912 <= l2 <= 536870911 ->
  EncodeDataKey l1 t1 = Ok k -> EncodeDataKey l2 t2 = Ok k ->
  l1 = l2 /\ t1 = t2.
Proof.
  intros H1 H2 E1 E2.
  apply (EncodeDataKey_exact _ _ _ H1) in E1.
  apply (EncodeDataKey_exact _ _ _ H2) in E2.
  destruct E1 as [[-> E1]|[-> E1]], E2 as [[-> E2]|[-> E2]];
    split; try reflexivity; lia.
Qed.

Lemma keys_are_unique_witness :
  EncodeDataKey 3 "bias" = Ok 13 /\ (3 = 3 /\ "bias"%string = "bias"%string).
Proof.
  split; [reflexivity|].
  apply (keys_are_unique 3 3 "bias" "bias" 13); try reflexivity; lia.
Defined.

(** The remainder of the truncating division against the remainder of
    the flooring one. *)
Lemma rem4_cases key :
  (0 <= key /\ Z.rem key 4 = key mod 4) \/
  (key < 0 /\ key mod 4 = 0 /\ Z.rem key 4 = 0) \/
  (key < 0 /\ key mod 4 <> 0 /\ Z.rem key 4 = key mod 4 - 4).
Proof.
  pose proof (Z.div_mod key 4 ltac:(lia)) as Hd.
  pose proof (Z.quot_rem' key 4) as Hq.
  pose proof (Z.mod_pos_bound key 4 ltac:(lia)) as Hb.
  destruct (Z_le_gt_dec 0 key) as [Hk|Hk].
  - left. pose proof (Z.rem_bound_pos key 4 Hk ltac:(lia)). lia.
  - right. pose proof (Z.rem_bound_pos_neg key 4 ltac:(lia) ltac:(lia)). lia.
Qed.

(** X2: what [DecodeTag] makes of every key, the negative ones
    included.  A multiple of four is a weight matrix; one more than a
    multiple of four is a bias only if it is positive, because [%]
    gives a negative key a negative remainder; every other key is the
    fatal error [invalid key]. *)
Theorem DecodeTag_classifies (key : Z) :
  (DecodeTag key = Ok "wmat"%string <-> key mod 4 = 0) /\
  (DecodeTag key = Ok "bias"%string <-> 0 < key /\ key mod 4 = 1) /\
  (DecodeTag key = Fatal "invalid key" <->
     key mod 4 = 2 \/ key mod 4 = 3 \/ (key < 0 /\ key mod 4 = 1)).
Proof.
  unfold DecodeTag, kDataKeyStep.
  pose proof (Z.mod_pos_bound key 4 ltac:(lia)) as Hb.
  assert (Hm : key mod 4 = 0 \/ key mod 4 = 1 \/ key mod 4 = 2 \/ key mod 4 = 3)
    by lia.
  destruct (rem4_cases key) as [[Hk ->]|[(Hk & Hz & ->)|(Hk & Hnz & ->)]];
    destruct Hm as [E|[E|[E|E]]]; rewrite ?E; try (exfalso; lia);
    try change (1 - 4) with (-3); try change (2 - 4) with (-2);
    try change (3 - 4) with (-1); cbn; unfold Error;
    repeat split; intros; try reflexivity; try congruence;
    try (Z.div_mod_to_equations; lia).
Qed.

Lemma DecodeTag_classifies_witness : DecodeTag (-3) = Fatal "invalid key".
Proof.
  apply (proj2 (proj2 (proj2 (DecodeTag_classifies (-3))))).
  right. right. split; [lia|reflexivity].
Defined.

End KeyProps.

(** ** More of the pooling layer *)

Module PoolingProps.

Import Pooling Spec Props VectorProps.

(** The geometry of one extent of the formula over the integers. *)
Lemma spec_extent_fits n p k s :
  0 <= p -> 0 < s -> 1 <= k <= n -> windows_fit n p k s (spec_extent n p k s).
Proof.
  intros Hp Hs Hk. unfold windows_fit, spec_extent.
  destruct (Z_le_gt_dec s k) as [Hsk|Hsk].
  - rewrite Z.min_l by lia.
    pose proof (Z.div_mod (n + 2 * p - k + s - 1) s ltac:(lia)) as Hd.
    pose proof (Z.mod_pos_bound (n + 2 * p - k + s - 1) s Hs) as Hb.
    assert (0 <= (n + 2 * p - k + s - 1) / s) by (apply Z.div_pos; lia).
    split; [lia|]. split; [nia|]. split; [intros _; nia|lia].
  - rewrite Z.min_r by lia.
    pose proof (Z.div_mod (n + 2 * p - 1) s ltac:(lia)) as Hd.
    pose proof (Z.mod_pos_bound (n + 2 * p - 1) s Hs) as Hb.
    assert (0 <= (n + 2 * p - 1) / s) by (apply Z.div_pos; lia).
    split; [lia|]. split; [nia|]. split; [lia|intros _; nia].
Qed.

Section InitNodeProps.

Context {TData : Type} (empty_data : TData) (realloc : Shape4 -> TData -> TData).

Local Abbreviation InitNode' := (InitNode empty_data realloc).

(** The two state slots after [InitNode], one by one. *)
Lemma state_slots (cstate : ConnectState TData) (oshape ishape : Shape4)
    (K : list (TensorContainer TData) ->
         outcome (PoolingLayer * list (Node TData) * ConnectState TData)) :
  (let st := resize 2 (default_container empty_data) (states cstate) in
   let! s0 := vec_at st 0 in
   let st := <[0%nat := set_pad s0 false]> st in
   let! s1 := vec_at st 1 in
   let st := <[1%nat := set_pad s1 false]> st in
   let! s0 := vec_at st 0 in
   let st := <[0%nat := Resize realloc s0 oshape]> st in
   let! s1 := vec_at st 1 in
   let st := <[1%nat := Resize realloc s1 ishape]> st in
   K st)
  = K [Resize realloc (set_pad (slot empty_data cstate 0) false) oshape;
       Resize realloc (set_pad (slot empty_data cstate 1) false) ishape].
Proof.
  unfold slot. destruct (states cstate) as [|a [|b st]];
    cbn [resize replicate]; rewrite ?resize_0; reflexivity.
Qed.

(** The first check of [InitNode]. *)
Lemma InitNode_arity (self : PoolingLayer) (nodes_in nodes_out : list (Node TData))
    (cstate : ConnectState TData) :
  length nodes_in <> 1%nat \/ length nodes_out <> 1%nat ->
  InitNode' self nodes_in nodes_out cstate
    = Fatal "PoolingLayer: only support 1-1 connection".
Proof.
  intros H. unfold InitNode, vec_size.
  replace ((Z.of_nat (length nodes_in) =? 1) && (Z.of_nat (length nodes_out) =? 1))
    with false; [reflexivity|].
  symmetry. apply andb_false_iff. rewrite !Z.eqb_neq. lia.
Qed.

(** What a call of [InitNode] that returns was given, and what it
    returns. *)
Lemma InitNode_Ok_inv (self : PoolingLayer) (nodes_in nodes_out : list (Node TData))
    (cstate : ConnectState TData) self' outs' cstate' :
  InitNode' self nodes_in nodes_out cstate = Ok (self', outs', cstate') ->
  exists nin nout oh ow,
    nodes_in = [nin] /\ nodes_out = [nout] /\
    let p := param_ self in
    let ishape := shape_ (data nin) in
    let oshape := mkShape4 (dim0 ishape) (dim1 ishape) oh ow in
    pooled_extent (dim2 ishape) (pad_y p) (to_index_t (kernel_height p))
      (to_index_t (stride p)) = Ok oh /\
    pooled_extent (dim3 ishape) (pad_x p) (to_index_t (kernel_width p))
      (to_index_t (stride p)) = Ok ow /\
    self' = mkPoolingLayer (mode self) (is_identity self) p
              (mkShape2 (dim2 ishape) (dim3 ishape)) /\
    outs' = [mkNode (mkTensor4 oshape (dptr_ (data nout)))] /\
    cstate' = mkConnectState
                [Resize realloc (set_pad (slot empty_data cstate 0) false) oshape;
                 Resize realloc (set_pad (slot empty_data cstate 1) false) ishape].
Proof.
  destruct (decide (length nodes_in = 1%nat /\ length nodes_out = 1%nat))
    as [[Hi Ho]|Hn];
    [|rewrite InitNode_arity by (clear -Hn; lia); discriminate].
  destruct nodes_in as [|nin [|? ?]]; try discriminate Hi.
  destruct nodes_out as [|nout [|? ?]]; try discriminate Ho.
  unfold InitNode, vec_size.
  cbn [length Z.of_nat Pos.of_succ_nat Z.eqb Pos.eqb andb Check bind].
  rewrite !vec_at_head. cbn [bind]. cbv zeta.
  destruct ((0 <? kernel_height (param_ self)) && (0 <? kernel_width (param_ self)));
    [|discriminate].
  cbn [Check bind].
  destruct ((to_index_t (kernel_width (param_ self)) <=? dim3 (shape_ (data nin))) &&
            (to_index_t (kernel_height (param_ self)) <=? dim2 (shape_ (data nin))));
    [|discriminate].
  cbn [Check bind].
  destruct (pooled_extent (dim2 _) _ _ _) as [oh| |] eqn:Eh; try discriminate.
  destruct (pooled_extent (dim3 _) _ _ _) as [ow| |] eqn:Ew; try discriminate.
  cbn [bind].
  rewrite (state_slots cstate _ _ (fun st => Ok (_, _, mkConnectState st))).
  intros [= <- <- <-]. exists nin, nout, oh, ow. cbv zeta. repeat split; assumption || reflexivity.
Qed.

(** X3: the ways [InitNode] ends without a result, in the order of its
    checks.  A connection that is not one-to-one is refused first,
    whatever the kernel; on a one-to-one connection a kernel extent
    that is not positive is refused with "must set kernel_size
    correctly", also when the kernel exceeds the input as well; a
    positive kernel that exceeds the input is refused with "kernel size
    exceed input"; and a kernel that passes all checks with a stride of
    zero leads to the division by zero of the shape formula. *)
Theorem InitNode_failures (self : PoolingLayer) (nodes_in nodes_out : list (Node TData))
    (cstate : ConnectState TData) :
  (length nodes_in <> 1%nat \/ length nodes_out <> 1%nat ->
   InitNode' self nodes_in nodes_out cstate
     = Fatal "PoolingLayer: only support 1-1 connection") /\
  (forall nin nout,
     let p := param_ self in
     let H := dim2 (shape_ (data nin)) in
     let W := dim3 (shape_ (data nin)) in
     is_int (kernel_height p) -> is_int (kernel_width p) ->
     (kernel_height p <= 0 \/ kernel_width p <= 0 ->
      InitNode' self [nin] [nout] cstate = Fatal "must set kernel_size correctly") /\
     (0 < kernel_height p -> 0 < kernel_width p ->
      kernel_height p > H \/ kernel_width p > W ->
      InitNode' self [nin] [nout] cstate = Fatal "kernel size exceed input") /\
     (0 < kernel_height p <= H -> 0 < kernel_width p <= W -> u32 (stride p) = 0 ->
      InitNode' self [nin] [nout] cstate = Undefined)).
Proof.
  split; [apply InitNode_arity|].
  intros nin nout p H W Hih Hiw. split; [|split].
  - apply PoolingFacts.InitNode_kernel_not_set.
  - intros Hh Hw Hex. apply PoolingFacts.InitNode_kernel_exceeds; assumption.
  - intros Hh Hw Hs. apply PoolingFacts.InitNode_zero_stride; assumption.
Qed.

(** X4: what a call of [InitNode] that returns leaves behind.  The
    layer remembers the two inner extents of the input; the output node
    keeps its memory and gets the batch and channel extents of the
    input; the connection has exactly two states, whatever it had
    before, the first of the shape of the output and the second of the
    shape of the input, both without padding of their rows. *)
Theorem InitNode_allocates (self : PoolingLayer) (nodes_in nodes_out : list (Node TData))
    (cstate : ConnectState TData) self' outs' cstate' :
  InitNode' self nodes_in nodes_out cstate = Ok (self', outs', cstate') ->
  exists nin nout nout' s0 s1,
    nodes_in = [nin] /\ nodes_out = [nout] /\ outs' = [nout'] /\
    mode self' = mode self /\ is_identity self' = is_identity self /\
    param_ self' = param_ self /\
    in_shape_ self' = mkShape2 (dim2 (shape_ (data nin))) (dim3 (shape_ (data nin))) /\
    dptr_ (data nout') = dptr_ (data nout) /\
    dim0 (shape_ (data nout')) = dim0 (shape_ (data nin)) /\
    dim1 (shape_ (data nout')) = dim1 (shape_ (data nin)) /\
    states cstate' = [s0; s1] /\
    tc_shape s0 = shape_ (data nout') /\ tc_shape s1 = shape_ (data nin) /\
    tc_pad s0 = false /\ tc_pad s1 = false /\
    tc_data s0 = realloc (shape_ (data nout')) (tc_data (slot empty_data cstate 0)) /\
    tc_data s1 = realloc (shape_ (data nin)) (tc_data (slot empty_data cstate 1)).
Proof.
  intros HI. apply InitNode_Ok_inv in HI
    as (nin & nout & oh & ow & -> & -> & _ & _ & -> & -> & ->).
  eexists nin, nout, _, _, _. repeat split; reflexivity.
Qed.

(** X5: the windows of an accepted pooling fit the padded input.  With
    a padding that is not negative, a positive stride and extents that
    stay below 2^32, each output extent is at least 1, its last window
    begins inside the padded input, and the windows reach the end of
    the padded input when the stride is no larger than the kernel (the
    last one hanging over by less than a stride). *)
Theorem InitNode_windows_fit (self : PoolingLayer) (nin nout : Node TData)
    (cstate : ConnectState TData) self' nout' cstate' :
  let p := param_ self in
  let H := dim2 (shape_ (data nin)) in
  let W := dim3 (shape_ (data nin)) in
  is_int (kernel_height p) -> is_int (kernel_width p) ->
  0 <= pad_y p -> 0 <= pad_x p -> 0 < stride p ->
  H + 2 * pad_y p + stride p <= UINT_MOD ->
  W + 2 * pad_x p + stride p <= UINT_MOD ->
  InitNode' self [nin] [nout] cstate = Ok (self', [nout'], cstate') ->
  windows_fit H (pad_y p) (kernel_height p) (stride p) (dim2 (shape_ (data nout'))) /\
  windows_fit W (pad_x p) (kernel_width p) (stride p) (dim3 (shape_ (data nout'))).
Proof.
  intros p H W Hih Hiw Hpy Hpx Hs HH HW HI.
  destruct (proj1 (PoolingFacts.InitNode_accepted_iff empty_data realloc
                     self nin nout cstate Hih Hiw) (ex_intro _ _ HI))
    as (Hh & Hw & Hs0).
  destruct (PoolingFacts.InitNode_accepts empty_data realloc self nin nout cstate
              Hih Hiw Hh Hw Hs0) as [cs' E].
  rewrite E in HI. injection HI as _ <- _. cbn [data shape_ dim2 dim3].
  fold p H W. fold p in Hh, Hw.
  rewrite !PoolingFacts.index_extent_spec by lia.
  split; apply spec_extent_fits; lia.
Qed.

(** X6: [OnBatchSizeChanged] resizes the first state and nothing else.
    After [InitNode], a call with an output node of any shape gives the
    first state that shape (its padding flag stays off) and leaves the
    second state, which [InitNode] gave the shape of the input, as it
    is.  Without an output node, or on a connection without states, the
    call reads a vector out of bounds. *)
Theorem OnBatchSizeChanged_first_state (self : PoolingLayer)
    (nodes_in nodes_out : list (Node TData)) (cstate : ConnectState TData)
    self' outs' cstate' :
  InitNode' self nodes_in nodes_out cstate = Ok (self', outs', cstate') ->
  (exists s0 s1,
     states cstate' = [s0; s1] /\
     forall ins (nout2 : Node TData) rest,
       OnBatchSizeChanged realloc self' ins (nout2 :: rest) cstate'
         = Ok (mkConnectState
                 [mkContainer (shape_ (data nout2)) false
                    (realloc (shape_ (data nout2)) (tc_data s0)); s1])) /\
  (forall ins cs, OnBatchSizeChanged realloc self' ins [] cs = Undefined) /\
  (forall ins outs,
     OnBatchSizeChanged realloc self' ins outs (mkConnectState []) = Undefined).
Proof.
  intros HI. apply InitNode_Ok_inv in HI
    as (nin & nout & oh & ow & -> & -> & _ & _ & -> & -> & ->).
  split; [|split].
  - eexists _, _. split; [reflexivity|]. intros ins nout2 rest.
    unfold OnBatchSizeChanged. rewrite vec_at_head. cbn [bind states].
    rewrite vec_at_head. reflexivity.
  - intros ins cs. unfold OnBatchSizeChanged. rewrite vec_at_nil. reflexivity.
  - intros ins outs. unfold OnBatchSizeChanged. cbn [states].
    rewrite vec_at_nil. destruct (vec_at_cases outs 0) as [[a ->]| ->]; reflexivity.
Qed.

End InitNodeProps.

Section ForwardProps.

Context {TData Exp : Type}
  (tensor_exp : Shape4 -> TData -> Exp)
  (pad : Exp -> Z -> Z -> Exp)
  (unpool : Exp -> Exp -> Exp -> Z -> Z -> Z -> Exp)
  (crop : Exp -> Shape2 -> Z -> Z -> Exp)
  (scale_inv : Exp -> Z -> Exp)
  (assign : Tensor4 TData -> Exp -> outcome (Tensor4 TData))
  (forward_op : Exp -> Exp)
  (pool : Exp -> Shape2 -> Z -> Z -> Z -> Exp)
  (Copy : Tensor4 TData -> Tensor4 TData -> outcome (Tensor4 TData)).

Local Abbreviation Forward' :=
  (Forward tensor_exp pad scale_inv assign forward_op pool Copy).
Local Abbreviation Backprop' := (Backprop tensor_exp pad unpool crop scale_inv assign).

(** X7: the configurations the layer does not support never give a
    result.  For a [mode] that is none of the three pooling modes,
    [Forward] never returns, and ends in "Unknown pooling mode" when
    the layer has no fused activation and there is an output node; so
    does [Backprop] with [prop_grad].  For a layer with a fused
    activation ([!is_identity]), [Backprop] with [prop_grad] ends in
    "deprecated pooling with activation interface!" before it reads
    anything. *)
Theorem unsupported_configurations (self : PoolingLayer) :
  (is_max_or_sum (mode self) = false -> is_avg (mode self) = false ->
   (forall is_train ins outs cs r, Forward' self is_train ins outs cs <> Ok r) /\
   (is_identity self = true ->
    forall is_train ins nout outs cs,
      Forward' self is_train ins (nout :: outs) cs = Fatal "Unknown pooling mode") /\
   (is_identity self = true ->
    forall ins outs cs, Backprop' self true ins outs cs = Fatal "Unknown pooling mode")) /\
  (is_identity self = false ->
   forall ins outs cs,
     Backprop' self true ins outs cs
       = Fatal "deprecated pooling with activation interface!").
Proof.
  split.
  - intros Hm Ha. split; [|split].
    + intros is_train ins outs cs r. unfold Forward. rewrite Hm, Ha.
      destruct (vec_at outs 0) as [nout| |]; cbn [bind]; try discriminate.
      destruct (is_identity self); cbn [bind Error]; try discriminate.
      destruct (vec_at ins 0) as [nin| |]; cbn [bind]; try discriminate.
      destruct (assign _ _) as [d| |]; cbn [bind]; discriminate.
    + intros Hid is_train ins nout outs cs. unfold Forward.
      rewrite Hm, Ha, Hid, vec_at_head. reflexivity.
    + intros Hid ins outs cs. unfold Backprop. rewrite Hm, Ha, Hid. reflexivity.
  - intros Hid ins outs cs. unfold Backprop. rewrite Hid. reflexivity.
Qed.

(** X8: what [Forward] touches.  A call that returns has assigned an
    expression to the first state of the connection and copied that
    state into the first output node; the other states and output
    nodes are as before, and so are the input nodes, except that a
    layer with a fused activation has overwritten the first of them. *)
Theorem Forward_frame (self : PoolingLayer) (is_train : bool)
    (ins outs : list (Node TData)) (cs : ConnectState TData) ins' outs' cs' :
  Forward' self is_train ins outs cs = Ok (ins', outs', cs') ->
  exists nout tmp e t d,
    outs !! 0%nat = Some nout /\ states cs !! 0%nat = Some tmp /\
    assign (as_tensor tmp) e = Ok t /\ Copy (data nout) t = Ok d /\
    outs' = <[0%nat := mkNode d]> outs /\
    states cs' = <[0%nat := with_tensor tmp t]> (states cs) /\
    (is_identity self = true -> ins' = ins) /\
    drop 1 ins' = drop 1 ins /\ length ins' = length ins.
Proof.
  unfold Forward.
  destruct (vec_at outs 0) as [nout| |] eqn:Eo; cbn [bind]; try discriminate.
  apply vec_at_Ok in Eo as [_ Eo].
  destruct (if is_identity self then Ok ins else _) as [ins1| |] eqn:Ei;
    cbn [bind]; try discriminate.
  assert (Hins : (is_identity self = true -> ins1 = ins) /\
                 drop 1 ins1 = drop 1 ins /\ length ins1 = length ins).
  { destruct (is_identity self).
    - injection Ei as <-. auto.
    - destruct (vec_at ins 0) as [nin| |]; cbn [bind] in Ei; try discriminate.
      destruct (assign _ _) as [d| |]; cbn [bind] in Ei; try discriminate.
      injection Ei as <-. split; [discriminate|].
      split; [destruct ins; reflexivity|apply length_insert]. }
  destruct (if is_max_or_sum (mode self) then _ else _) as [e| |];
    cbn [bind]; try discriminate.
  destruct (vec_at (states cs) 0) as [tmp| |] eqn:Et; cbn [bind]; try discriminate.
  apply vec_at_Ok in Et as [_ Et].
  destruct (assign (as_tensor tmp) e) as [t| |] eqn:Ea; cbn [bind]; try discriminate.
  destruct (Copy (data nout) t) as [d| |] eqn:Ec; cbn [bind]; try discriminate.
  intros [= <- <- <-]. exists nout, tmp, e, t, d. cbn [states].
  destruct Hins as (H1 & H2 & H3). repeat split; assumption || reflexivity.
Qed.

End ForwardProps.

Lemma InitNode_failures_witness :
  InitNode 0 Samples.toy_realloc Samples.pool_2x2_stride2
    [] [Samples.node_of 0 0 0 0 0] Samples.no_state
    = Fatal "PoolingLayer: only support 1-1 connection" /\
  InitNode 0 Samples.toy_realloc Samples.pool_3x3_pad1
    [Samples.node_of 1 1 2 2 0] [Samples.node_of 0 0 0 0 0] Samples.no_state
    = Fatal "kernel size exceed input".
Proof.
  split.
  - apply (proj1 (InitNode_failures 0 Samples.toy_realloc Samples.pool_2x2_stride2
                    [] [Samples.node_of 0 0 0 0 0] Samples.no_state)).
    left. discriminate.
  - apply (proj2 (InitNode_failures 0 Samples.toy_realloc Samples.pool_3x3_pad1
                    [Samples.node_of 1 1 2 2 0] [Samples.node_of 0 0 0 0 0]
                    Samples.no_state));
      cbn; unfold is_int, INT_MAX; lia.
Defined.

Lemma InitNode_allocates_witness :
  exists self' nout' s0 s1,
    InitNode 0 Samples.toy_realloc Samples.pool_2x2_stride2
      [Samples.node_of 100 1 28 28 0] [Samples.node_of 0 0 0 0 5] Samples.no_state
      = Ok (self', [nout'], mkConnectState [s0; s1]) /\
    in_shape_ self' = mkShape2 28 28 /\ dptr_ (data nout') = 5 /\
    tc_shape s0 = mkShape4 100 1 14 14 /\ tc_shape s1 = mkShape4 100 1 28 28.
Proof.
  destruct (InitNode_allocates 0 Samples.toy_realloc Samples.pool_2x2_stride2
              [Samples.node_of 100 1 28 28 0] [Samples.node_of 0 0 0 0 5]
              Samples.no_state _ _ _ eq_refl)
    as (nin & nout & nout' & s0 & s1 & Ei & Eo & Eo' & _ & _ & _ & Hin & Hd & _ & _
        & Est & Hs0 & Hs1 & _).
  injection Ei as <-. injection Eo as <-. injection Eo' as <-. injection Est as <- <-.
  eexists _, _, _, _. split; [reflexivity|]. repeat split; reflexivity.
Defined.

Lemma InitNode_windows_fit_witness :
  windows_fit 28 1 3 2 15 /\ windows_fit 28 1 3 2 15.
Proof.
  refine (InitNode_windows_fit 0 Samples.toy_realloc Samples.pool_3x3_stride2_pad1
            (Samples.node_of 100 1 28 28 0) (Samples.node_of 0 0 0 0 0)
            Samples.no_state _ (Samples.node_of 100 1 15 15 0) _
            _ _ _ _ _ _ _ eq_refl);
    cbn; unfold is_int, INT_MAX, UINT_MOD; lia.
Defined.

Lemma OnBatchSizeChanged_first_state_witness :
  exists cstate' s1,
    OnBatchSizeChanged Samples.toy_realloc Samples.pool_2x2_stride2 []
      [Samples.node_of 50 1 14 14 0] cstate'
    = Ok (mkConnectState [mkContainer (mkShape4 50 1 14 14) false 0; s1]) /\
    tc_shape s1 = mkShape4 100 1 28 28.
Proof.
  destruct (OnBatchSizeChanged_first_state 0 Samples.toy_realloc
              Samples.pool_2x2_stride2
              [Samples.node_of 100 1 28 28 0] [Samples.node_of 0 0 0 0 0]
              Samples.no_state _ _ _ eq_refl) as [(s0 & s1 & Est & Hcall) _].
  injection Est as <- <-. eexists _, _.
  split; [apply (Hcall [] (Samples.node_of 50 1 14 14 0) [])|reflexivity].
Defined.

Lemma unsupported_configurations_witness :
  Forward Samples.toy_tensor_exp Samples.toy_pad Samples.toy_scale_inv
    Samples.toy_assign Samples.toy_forward_op Samples.toy_pool Samples.toy_Copy
    Samples.pool_other_mode true [Samples.node_of 1 1 4 4 5]
    [Samples.node_of 1 1 2 2 7] Samples.no_state
  = Fatal "Unknown pooling mode" /\
  Backprop Samples.toy_tensor_exp Samples.toy_pad Samples.toy_unpool Samples.toy_crop
    Samples.toy_scale_inv Samples.toy_assign Samples.pool_with_activation true
    [Samples.node_of 1 1 4 4 5] [Samples.node_of 1 1 2 2 7] Samples.no_state
  = Fatal "deprecated pooling with activation interface!".
Proof.
  split.
  - apply (proj1 (unsupported_configurations Samples.toy_tensor_exp Samples.toy_pad
                    Samples.toy_unpool Samples.toy_crop Samples.toy_scale_inv
                    Samples.toy_assign Samples.toy_forward_op Samples.toy_pool
                    Samples.toy_Copy Samples.pool_other_mode));
      reflexivity.
  - apply (proj2 (unsupported_configurations Samples.toy_tensor_exp Samples.toy_pad
                    Samples.toy_unpool Samples.toy_crop Samples.toy_scale_inv
                    Samples.toy_assign Samples.toy_forward_op Samples.toy_pool
                    Samples.toy_Copy Samples.pool_with_activation)).
    reflexivity.
Defined.

Lemma Forward_frame_witness :
  exists d t,
    Forward Samples.toy_tensor_exp Samples.toy_pad Samples.toy_scale_inv
      Samples.toy_assign Samples.toy_forward_op Samples.toy_pool Samples.toy_Copy
      Samples.pool_2x2_stride2 true
      [Samples.node_of 1 1 4 4 5; Samples.node_of 9 9 9 9 9]
      [Samples.node_of 1 1 2 2 7]
      (mkConnectState [mkContainer (mkShape4 1 1 2 2) false 0;
                       mkContainer (mkShape4 1 1 4 4) false 3])
    = Ok ([Samples.node_of 1 1 4 4 5; Samples.node_of 9 9 9 9 9],
          [mkNode d],
          mkConnectState [t; mkContainer (mkShape4 1 1 4 4) false 3]).
Proof.
  destruct (Forward_frame Samples.toy_tensor_exp Samples.toy_pad Samples.toy_scale_inv
              Samples.toy_assign Samples.toy_forward_op Samples.toy_pool
              Samples.toy_Copy Samples.pool_2x2_stride2 true
              [Samples.node_of 1 1 4 4 5; Samples.node_of 9 9 9 9 9]
              [Samples.node_of 1 1 2 2 7]
              (mkConnectState [mkContainer (mkShape4 1 1 2 2) false 0;
                               mkContainer (mkShape4 1 1 4 4) false 3])
              _ _ _ eq_refl) as (nout & tmp & e & t & d & _).
  eexists _, _. reflexivity.
Defined.

End PoolingProps.

(** ** More of the instance store *)

Module StoreProps.

Import InstVec Spec Props VectorProps.

Section TensorVectorProps.

Context {DType : Type} (zero : DType).

Lemma write_through_Ok (st st' : TensorVector DType) t k x :
  write_through st t k x = Ok st' ->
  offset_ st' = offset_ st /\ shape_ st' = shape_ st /\
  length (content_ st') = length (content_ st).
Proof.
  unfold write_through, tensor_set.
  destruct ((0 <=? k) && (k <? Shape_count (tshape_ t))); [|discriminate].
  destruct (vec_at (content_ st) (dptr_ t + k)); cbn [bind]; try discriminate.
  intros [= <-]. cbn [offset_ shape_ content_]. rewrite length_insert. auto.
Qed.

Lemma reachable_inv (st : TensorVector DType) : reachable zero st -> store_inv st.
Proof.
  induction 1 as [st0|st s st' _ IH HP|st t k x st' _ IH Hw].
  - apply StoreFacts.Clear_inv.
  - destruct (StoreFacts.Push_inv zero st s IH) as (st1 & b & HP1 & Hinv & _).
    rewrite HP1 in HP. injection HP as <-. exact Hinv.
  - apply write_through_Ok in Hw as (Ho & Hs & Hc).
    destruct IH as [Htab (b & Hb & Hbr & Hlen)].
    split; [unfold table_ok; rewrite Ho, Hs; exact Htab|].
    exists b. rewrite Ho, Hc. auto.
Qed.

Lemma Push_shape (st st' : TensorVector DType) (s : Shape) :
  Push zero st s = Ok st' -> shape_ st' = shape_ st ++ [s].
Proof.
  unfold Push. destruct (vec_back (offset_ st)); cbn [bind]; try discriminate.
  destruct (vec_back _); cbn [bind]; try discriminate.
  intros [= <-]. reflexivity.
Qed.

(** While the sizes pushed add up to less than 2^64, no offset of a
    store has wrapped around. *)
Lemma reachable_exact (st : TensorVector DType) :
  reachable zero st -> size_sum (shape_ st) < SIZE_MOD -> store_exact st.
Proof.
  induction 1 as [st0|st s st' Hr IH HP|st t k x st' _ IH Hw]; intros Htot.
  - apply StoreFacts.Clear_inv.
  - pose proof (Push_shape _ _ _ HP) as Hs. rewrite Hs in Htot.
    apply (StoreFacts.Push_exact zero st st' s); auto using reachable_inv.
    apply IH. rewrite StoreFacts.size_sum_app in Htot.
    pose proof (StoreFacts.size_sum_nonneg [s]). lia.
  - apply write_through_Ok in Hw as (Ho & Hs & Hc).
    unfold store_exact. rewrite Ho, Hs. apply IH. rewrite <- Hs. exact Htot.
Qed.

(** [operator[]] on a store with the table of the invariant: every
    index below the number of tensors passes the two checks. *)
Lemma at_table (st : TensorVector DType) (i : nat) (sh : Shape) :
  table_ok st -> Z.of_nat (length (shape_ st)) < SIZE_MOD ->
  shape_ st !! i = Some sh ->
  exists a, offset_ st !! i = Some a /\ at_ st (Z.of_nat i) = Ok (mkTensor a sh).
Proof.
  intros (Hlen & _ & Htab) HN Hi.
  destruct (Htab i sh Hi) as (a & b & Ha & Hb & E).
  pose proof (lookup_lt_Some _ _ _ Hi) as Hlt.
  exists a. split; [exact Ha|].
  unfold at_, vec_size. rewrite Hlen, u64_small by lia.
  replace (Z.of_nat i + 1 <? Z.of_nat (S (length (shape_ st)))) with true
    by (symmetry; apply Z.ltb_lt; lia).
  cbn [Check bind]. rewrite (StoreFacts.vec_at_lookup _ _ _ Hi). cbn [bind].
  replace (Z.of_nat i + 1) with (Z.of_nat (S i)) by lia.
  rewrite (StoreFacts.vec_at_lookup _ _ _ Hb). cbn [bind].
  rewrite (StoreFacts.vec_at_lookup _ _ _ Ha). cbn [bind].
  rewrite E, Z.eqb_refl. reflexivity.
Qed.

(** X9: [Back] right after [Push] is the tensor pushed.  On every store
    a program can hold, [Push] returns, the store has one tensor more,
    and [Back] then returns a tensor of the shape pushed that begins
    where the buffer ended before (the last offset), also when that
    offset has wrapped around. *)
Theorem Push_then_Back (st : TensorVector DType) (s : Shape) :
  reachable zero st -> Size st + 1 < SIZE_MOD ->
  exists st' b,
    Push zero st s = Ok st' /\ Size st' = Size st + 1 /\
    last (offset_ st) = Some b /\ Back st' = Ok (mkTensor b s).
Proof.
  intros Hr HN. pose proof (reachable_inv st Hr) as Hinv.
  destruct (StoreFacts.Push_inv zero st s Hinv) as (st' & b & HP & Hinv' & Hb & Ho & Hs).
  exists st', b. split; [exact HP|].
  unfold Size, vec_size in *. rewrite Hs, length_app. cbn [length].
  split; [lia|]. split; [exact Hb|].
  unfold Back, Size, vec_size. rewrite Hs, length_app. cbn [length].
  replace (Z.of_nat (length (shape_ st) + 1) - 1) with (Z.of_nat (length (shape_ st)))
    by lia.
  rewrite u64_small by lia.
  destruct (at_table st' (length (shape_ st)) s (proj1 Hinv')) as (a & Ha & Hat).
  - rewrite Hs, length_app. cbn [length]. lia.
  - rewrite Hs. apply list_lookup_middle. reflexivity.
  - rewrite Hat. do 2 f_equal.
    destruct Hinv as [(Hlen & _ & _) _].
    rewrite Ho, lookup_app_l in Ha by lia.
    rewrite last_lookup, Hlen in Hb. cbn in Hb. congruence.
Qed.

(** X10: [Push] keeps what is stored.  On a store a program can hold,
    with shapes of [index_t] extents that have fewer than 2^64
    elements together once the new one is counted, [Push] appends as
    many new elements as the shape has to the buffer and leaves the
    elements before them alone; and at every index that [operator[]]
    answered before the push, the tensor it returns after the push has
    the same shape and shows, element by element, what the tensor
    returned before showed in the store before the push.  Nothing is
    said of a tensor returned before the push and used after it:
    [Push] may move the buffer. *)
Theorem Push_keeps_data (st st' : TensorVector DType) (s : Shape) :
  reachable zero st ->
  Forall extents_ok (shape_ st ++ [s]) ->
  total_size (shape_ st ++ [s]) < SIZE_MOD ->
  Push zero st s = Ok st' ->
  content_ st' = content_ st ++ replicate (Z.to_nat (Shape_count s)) zero /\
  forall i t, at_ st i = Ok t ->
    exists t',
      at_ st' i = Ok t' /\ tshape_ t' = tshape_ t /\
      forall k v, read_through st t k = Ok v -> read_through st' t' k = Ok v.
Proof.
  intros Hr Hext Htrue HP. pose proof (reachable_inv st Hr) as Hinv.
  destruct (StoreFacts.exact_sizes _ Hext Htrue) as [Hcnt Htot].
  rewrite <- Htot in Htrue. clear Htot. rename Htrue into Htot.
  assert (Es : Shape_count s = Shape_Size s).
  { rewrite Forall_app, Forall_singleton in Hcnt. apply Hcnt. }
  rewrite StoreFacts.size_sum_app, StoreFacts.size_sum_cons in Htot.
  change (size_sum []) with 0 in Htot.
  pose proof (StoreFacts.size_sum_nonneg (shape_ st)) as Hnn.
  pose proof (StoreFacts.Shape_Size_range s) as Hsr.
  assert (Hex : store_exact st) by (apply reachable_exact; [exact Hr|lia]).
  destruct (StoreFacts.Push_inv zero st s Hinv) as (st1 & b & HP1 & _ & Hb & Ho & Hs).
  assert (Hc : content_ st1 = resize (Z.to_nat (u64 (b + Shape_Size s))) zero (content_ st)).
  { revert HP1. unfold Push, vec_back. rewrite Hb. cbn [bind]. rewrite last_snoc.
    cbn [bind]. intros [= <-]. reflexivity. }
  rewrite HP1 in HP. injection HP as <-.
  destruct Hinv as [(Hlen & _ & _) (b' & Hb' & Hbr & Hcl)].
  rewrite Hb in Hb'. injection Hb' as <-.
  assert (Eb : b = size_sum (shape_ st)).
  { rewrite last_lookup, Hlen in Hb. cbn in Hb.
    rewrite (Hex (length (shape_ st))) in Hb by lia.
    rewrite firstn_all in Hb. congruence. }
  assert (Hc' : content_ st1
                = content_ st ++ replicate (Z.to_nat (Shape_count s)) zero).
  { rewrite Hc, u64_small by lia. rewrite resize_ge by lia.
    f_equal. f_equal. lia. }
  split; [exact Hc'|].
  intros i t Hat. exists t. split; [|split; [reflexivity|]].
  - unfold at_ in *. rewrite Ho, Hs.
    destruct (u64 (i + 1) <? vec_size (offset_ st)) eqn:E1;
      cbn [Check bind Error] in Hat; [|discriminate].
    replace (u64 (i + 1) <? vec_size (offset_ st ++ [u64 (b + Shape_Size s)]))
      with true.
    2:{ symmetry. apply Z.ltb_lt. apply Z.ltb_lt in E1. unfold vec_size in *.
        rewrite length_app. cbn [length]. lia. }
    cbn [Check bind].
    destruct (vec_at (shape_ st) i) as [sh| |] eqn:E2; cbn [bind] in Hat;
      try discriminate.
    rewrite (vec_at_app_l _ _ _ _ E2). cbn [bind].
    destruct (vec_at (offset_ st) (u64 (i + 1))) as [o1| |] eqn:E3; cbn [bind] in Hat;
      try discriminate.
    rewrite (vec_at_app_l _ _ _ _ E3). cbn [bind].
    destruct (vec_at (offset_ st) i) as [o0| |] eqn:E4; cbn [bind] in Hat;
      try discriminate.
    rewrite (vec_at_app_l _ _ _ _ E4). cbn [bind]. exact Hat.
  - intros k v. unfold read_through, tensor_get. rewrite Hc'.
    destruct ((0 <=? k) && (k <? Shape_count (tshape_ t))); [|discriminate].
    apply vec_at_app_l.
Qed.

(** X11: the bounds of [operator[]] on every store.  On a store a
    program can hold, with fewer than 2^64 - 1 tensors, an index below
    [Size()] passes both checks and returns the tensor of the shape
    pushed at that position, beginning at its offset; an index from
    [Size()] up to 2^64 - 2 fails the first [CHECK]; and the index
    2^64 - 1 passes it, because [i + 1] wraps around to 0, and reads
    [shape_] out of bounds. *)
Theorem at_bounds (st : TensorVector DType) :
  reachable zero st -> Size st < SIZE_MOD - 1 ->
  (forall i : nat,
     Z.of_nat i < Size st ->
     exists a sh,
       shape_ st !! i = Some sh /\ offset_ st !! i = Some a /\
       at_ st (Z.of_nat i) = Ok (mkTensor a sh)) /\
  (forall i,
     Size st <= i < SIZE_MOD - 1 ->
     at_ st i = Fatal "Check failed: i + 1 < offset_.size()") /\
  at_ st (SIZE_MOD - 1) = Undefined.
Proof.
  intros Hr HN. pose proof (reachable_inv st Hr) as [Htab _].
  unfold Size, vec_size in *. split; [|split].
  - intros i Hi.
    destruct (lookup_lt_is_Some_2 (shape_ st) i ltac:(lia)) as [sh Hsh].
    destruct (at_table st i sh Htab ltac:(lia) Hsh) as (a & Ha & Hat).
    exists a, sh. auto.
  - intros i Hi. apply StoreFacts.at_checks_range; [apply Htab|exact Hi].
  - destruct Htab as (Hlen & _ & _). unfold at_, vec_size.
    replace (SIZE_MOD - 1 + 1) with SIZE_MOD by lia.
    change (u64 SIZE_MOD) with 0. rewrite Hlen.
    replace (0 <? Z.of_nat (S (length (shape_ st)))) with true
      by (symmetry; apply Z.ltb_lt; lia).
    cbn [Check bind]. rewrite StoreFacts.vec_at_outside by lia. reflexivity.
Qed.

End TensorVectorProps.

Section InstVectorProps.

Context {real_t : Type} (zero : real_t).

(** X12: an instance pushed is the instance read.  The instances
    pushed into a cleared store, fewer than 2^64 of them, all get in;
    [Size] is their number; [operator[]] at the position of each
    returns the index it was pushed with and tensors of the two shapes
    it was pushed with; and [Back] returns the last one in the same
    way.  This holds whatever the sizes add up to. *)
Theorem InstVector_at_pushed (st0 : InstVector real_t)
    (insts : list (Z * Shape * Shape)) :
  Z.of_nat (length insts) < SIZE_MOD ->
  exists st,
    InstVector_Push_all zero (InstVector_Clear st0) insts = Ok st /\
    InstVector_Size st = Z.of_nat (length insts) /\
    (forall (i : nat) idx ds ls,
       insts !! i = Some (idx, ds, ls) ->
       exists d l,
         InstVector_at st (Z.of_nat i) = Ok (mkDataInst idx d l) /\
         tshape_ d = ds /\ tshape_ l = ls) /\
    (forall idx ds ls,
       last insts = Some (idx, ds, ls) ->
       exists d l,
         InstVector_Back st = Ok (mkDataInst idx d l) /\
         tshape_ d = ds /\ tshape_ l = ls).
Proof.
  intros HN.
  destruct (StoreFacts.InstVector_Push_all_returns zero insts (InstVector_Clear st0))
    as [st HP]; try apply (proj1 (StoreFacts.Clear_inv _)).
  destruct (StoreFacts.InstVector_Push_all_tables zero insts _ st HP)
    as (Hd & Hl & Hidx).
  cbn [InstVector_Clear data_ label_ index_ app] in Hd, Hl, Hidx.
  destruct (StoreFacts.Push_all_inv zero (dshapes_of insts) (Clear (data_ st0))
              (proj1 (StoreFacts.Clear_inv _))) as (d' & Hd' & Hdinv & Hds & _).
  destruct (StoreFacts.Push_all_inv zero (lshapes_of insts) (Clear (label_ st0))
              (proj1 (StoreFacts.Clear_inv _))) as (l' & Hl' & Hlinv & Hls & _).
  rewrite Hd in Hd'. injection Hd' as <-. rewrite Hl in Hl'. injection Hl' as <-.
  cbn [Clear shape_ app] in Hds, Hls.
  assert (Hsize : InstVector_Size st = Z.of_nat (length insts)).
  { unfold InstVector_Size, vec_size. rewrite Hidx. unfold indices_of.
    rewrite length_map. reflexivity. }
  assert (Hat : forall (i : nat) idx ds ls,
            insts !! i = Some (idx, ds, ls) ->
            exists d l,
              InstVector_at st (Z.of_nat i) = Ok (mkDataInst idx d l) /\
              tshape_ d = ds /\ tshape_ l = ls).
  { intros i idx ds ls Hi.
    assert (Hdi : shape_ (data_ st) !! i = Some ds).
    { rewrite Hds. unfold dshapes_of. change map with (@fmap list _).
      rewrite list_lookup_fmap, Hi. reflexivity. }
    assert (Hli : shape_ (label_ st) !! i = Some ls).
    { rewrite Hls. unfold lshapes_of. change map with (@fmap list _).
      rewrite list_lookup_fmap, Hi. reflexivity. }
    assert (Hii : index_ st !! i = Some idx).
    { rewrite Hidx. unfold indices_of. change map with (@fmap list _).
      rewrite list_lookup_fmap, Hi. reflexivity. }
    destruct (at_table (data_ st) i ds (proj1 Hdinv)) as (a & _ & Ha);
      [rewrite Hds; unfold dshapes_of; rewrite length_map; exact HN|exact Hdi|].
    destruct (at_table (label_ st) i ls (proj1 Hlinv)) as (c & _ & Hc);
      [rewrite Hls; unfold lshapes_of; rewrite length_map; exact HN|exact Hli|].
    exists (mkTensor a ds), (mkTensor c ls).
    split; [|split; reflexivity].
    unfold InstVector_at. rewrite (StoreFacts.vec_at_lookup _ _ _ Hii). cbn [bind].
    rewrite Ha. cbn [bind]. rewrite Hc. reflexivity. }
  exists st. split; [exact HP|]. split; [exact Hsize|]. split; [exact Hat|].
  intros idx ds ls Hlast. rewrite last_lookup in Hlast.
  pose proof (lookup_lt_Some _ _ _ Hlast) as Hlt.
  unfold InstVector_Back. rewrite Hsize.
  replace (u64 (Z.of_nat (length insts) - 1))
    with (Z.of_nat (Nat.pred (length insts))) by (rewrite u64_small; lia).
  apply Hat. exact Hlast.
Qed.

End InstVectorProps.

Lemma Push_then_Back_witness :
  exists st',
    Push 0 (Clear (mkTensorVector Z [] [] [])) [2; 3] = Ok st' /\
    Back st' = Ok (mkTensor 0 [2; 3]).
Proof.
  destruct (Push_then_Back 0 (Clear (mkTensorVector Z [] [] [])) [2; 3])
    as (st' & b & HP & _ & Hb & HB).
  - apply reach_Clear.
  - vm_compute. reflexivity.
  - injection Hb as <-. exists st'. split; assumption.
Defined.

Lemma at_bounds_witness :
  at_ (mkTensorVector Z [0; 2] [7; 8] [[2]]) 1
    = Fatal "Check failed: i + 1 < offset_.size()".
Proof.
  refine (proj1 (proj2 (at_bounds 0 (mkTensorVector Z [0; 2] [7; 8] [[2]]) _ _)) 1 _).
  - apply (reach_write 0 (mkTensorVector Z [0; 2] [7; 0] [[2]]) (mkTensor 0 [2]) 1 8);
      [|reflexivity].
    apply (reach_write 0 (mkTensorVector Z [0; 2] [0; 0] [[2]]) (mkTensor 0 [2]) 0 7);
      [|reflexivity].
    apply (reach_Push 0 (Clear (mkTensorVector Z [] [] [])) [2]); [|reflexivity].
    apply reach_Clear.
  - vm_compute. reflexivity.
  - vm_compute. split; [discriminate|reflexivity].
Defined.

Lemma Push_keeps_data_witness :
  content_ (mkTensorVector Z [0; 2; 5] [7; 8; 0; 0; 0] [[2]; [3]])
    = [7; 8] ++ replicate (Z.to_nat (Shape_count [3])) 0.
Proof.
  refine (proj1 (Push_keeps_data 0 (mkTensorVector Z [0; 2] [7; 8] [[2]])
                   (mkTensorVector Z [0; 2; 5] [7; 8; 0; 0; 0] [[2]; [3]]) [3]
                   _ _ _ eq_refl)).
  - apply (reach_write 0 (mkTensorVector Z [0; 2] [7; 0] [[2]]) (mkTensor 0 [2]) 1 8);
      [|reflexivity].
    apply (reach_write 0 (mkTensorVector Z [0; 2] [0; 0] [[2]]) (mkTensor 0 [2]) 0 7);
      [|reflexivity].
    apply (reach_Push 0 (Clear (mkTensorVector Z [] [] [])) [2]); [|reflexivity].
    apply reach_Clear.
  - unfold extents_ok, UINT_MOD. repeat constructor; lia.
  - vm_compute. reflexivity.
Defined.

Lemma InstVector_at_pushed_witness :
  exists st d l,
    InstVector_Push_all 0 (InstVector_Clear InstVector_new) Samples.two_small_instances
      = Ok st /\
    InstVector_Size st = 2 /\
    InstVector_at st 1 = Ok (mkDataInst 8 d l) /\
    tshape_ d = [1; 1; 3] /\ tshape_ l = [1].
Proof.
  destruct (InstVector_at_pushed 0 InstVector_new Samples.two_small_instances)
    as (st & HP & Hs & Hat & _); [vm_compute; reflexivity|].
  destruct (Hat 1%nat 8 [1; 1; 3] [1] eq_refl) as (d & l & Ha & Hd & Hl).
  exists st, d, l. auto.
Defined.

End StoreProps.

(** ** More of the MNIST iterator *)

Module LoaderProps.

Import MNIST Spec Props VectorProps.

(** Bits below a shift and bits of a small number do not meet. *)
Lemma lor_low (h lo n : Z) :
  0 <= n -> 0 <= lo < 2 ^ n -> Z.lor (h * 2 ^ n) lo = h * 2 ^ n + lo.
Proof.
  intros Hn Hlo. rewrite <- Z.add_lor_land.
  replace (Z.land (h * 2 ^ n) lo) with 0; [lia|].
  symmetry. apply Z.bits_inj'. intros m Hm.
  rewrite Z.land_spec, Z.bits_0, <- Z.shiftl_mul_pow2 by exact Hn.
  destruct (Z_lt_ge_dec m n) as [Hlt|Hge].
  - rewrite Z.shiftl_spec_low by exact Hlt. reflexivity.
  - replace (Z.testbit lo m) with false; [apply andb_false_r|].
    symmetry. apply Z.testbit_false; [exact Hm|].
    rewrite Z.div_small; [reflexivity|].
    split; [lia|]. apply Z.lt_le_trans with (2 ^ n); [lia|].
    apply Z.pow_le_mono_r; lia.
Qed.

Lemma ReadInt_bytes (b0 b1 b2 b3 : Z) (rest : Stream) :
  0 <= b0 < 256 -> 0 <= b1 < 256 -> 0 <= b2 < 256 -> 0 <= b3 < 256 ->
  ReadInt (b0 :: b1 :: b2 :: b3 :: rest)
    = Ok (wrap_int (b0 * 16777216 + b1 * 65536 + b2 * 256 + b3), rest).
Proof.
  intros H0 H1 H2 H3. cbn [ReadInt]. do 2 f_equal. f_equal.
  rewrite !Z.shiftl_mul_pow2 by lia.
  change (2 ^ 24) with 16777216. change (2 ^ 16) with 65536. change (2 ^ 8) with 256.
  replace (b0 * 16777216) with (b0 * 2 ^ 24) by lia.
  rewrite (lor_low b0 (b1 * 65536) 24) by lia.
  replace (b0 * 2 ^ 24 + b1 * 65536) with ((b0 * 256 + b1) * 2 ^ 16) by lia.
  rewrite (lor_low _ (b2 * 256) 16) by lia.
  replace ((b0 * 256 + b1) * 2 ^ 16 + b2 * 256)
    with ((b0 * 65536 + b1 * 256 + b2) * 2 ^ 8) by lia.
  rewrite (lor_low _ b3 8) by lia. lia.
Qed.

Lemma ReadInt_be32 (n : Z) (rest : Stream) :
  is_int n -> ReadInt (be32 n ++ rest) = Ok (n, rest).
Proof.
  intros Hn. unfold be32. cbn [app].
  rewrite ReadInt_bytes by (apply Z.mod_pos_bound; lia).
  do 2 f_equal. unfold is_int, INT_MAX in Hn. unfold wrap_int, UINT_MOD.
  Z.div_mod_to_equations. lia.
Qed.

Lemma ReadInt_short (fi : Stream) :
  (length fi < 4)%nat -> ReadInt fi = Fatal "invalid mnist format".
Proof.
  intros H. destruct fi as [|? [|? [|? [|? ?]]]]; try reflexivity.
  cbn [length] in H. lia.
Qed.

Lemma ReadInt_long (fi : Stream) :
  (4 <= length fi)%nat -> exists v, ReadInt fi = Ok (v, drop 4 fi).
Proof.
  intros H. destruct fi as [|? [|? [|? [|? ?]]]]; cbn [length] in H; try lia.
  eexists. reflexivity.
Qed.

(** X13: [ReadInt] reads a big-endian 32-bit integer.  Four bytes give
    the number they spell, most significant byte first, taken as a
    two's-complement [int] (negative from a first byte of 128 on), and
    the stream moves on by four bytes; so the four bytes of any [int]
    read back as that [int].  A stream with fewer than four bytes left
    is the fatal error "invalid mnist format". *)
Theorem ReadInt_big_endian :
  (forall b0 b1 b2 b3 rest,
     0 <= b0 < 256 -> 0 <= b1 < 256 -> 0 <= b2 < 256 -> 0 <= b3 < 256 ->
     ReadInt (b0 :: b1 :: b2 :: b3 :: rest)
       = Ok (b0 * 16777216 + b1 * 65536 + b2 * 256 + b3
             - (if 128 <=? b0 then 4294967296 else 0), rest)) /\
  (forall n rest, is_int n -> ReadInt (be32 n ++ rest) = Ok (n, rest)) /\
  (forall fi, (length fi < 4)%nat -> ReadInt fi = Fatal "invalid mnist format").
Proof.
  split; [|split; [apply ReadInt_be32|apply ReadInt_short]].
  intros b0 b1 b2 b3 rest H0 H1 H2 H3. rewrite ReadInt_bytes by assumption.
  do 2 f_equal. unfold wrap_int, UINT_MOD.
  destruct (128 <=? b0) eqn:E; [apply Z.leb_le in E|apply Z.leb_gt in E];
    Z.div_mod_to_equations; lia.
Qed.

Lemma ReadInt_big_endian_witness :
  ReadInt [0; 0; 8; 3; 42] = Ok (2051, [42]) /\
  ReadInt (be32 (-2) ++ [7]) = Ok (-2, [7]) /\
  ReadInt [1; 2; 3] = Fatal "invalid mnist format".
Proof.
  destruct ReadInt_big_endian as (H1 & H2 & H3).
  split; [apply (H1 0 0 8 3 [42]); lia|].
  split; [apply (H2 (-2) [7]); unfold is_int, INT_MAX; lia|].
  apply (H3 [1; 2; 3]). cbn. lia.
Defined.

Lemma ReadInt_magic (magic rest : list Z) :
  length magic = 4%nat -> exists v, ReadInt (magic ++ rest) = Ok (v, rest).
Proof.
  intros H. destruct magic as [|? [|? [|? [|? [|? ?]]]]]; try discriminate H.
  eexists. reflexivity.
Qed.

(** Row [i] of a list cut into [m] rows of [n]. *)
Lemma reshape_lookup {A : Type} (m n : nat) :
  forall (i : nat) (l : list A),
    (i < m)%nat -> reshape (replicate m n) l !! i = Some (take n (drop (i * n) l)).
Proof.
  induction m as [|m IH]; intros i l Hi; [lia|].
  cbn [replicate reshape]. destruct i as [|i]; [reflexivity|].
  cbn [lookup list_lookup]. change (list_lookup i ?l) with (l !! i).
  rewrite IH by lia. rewrite drop_drop. reflexivity.
Qed.

Lemma length_reshape_replicate {A : Type} (m n : nat) (l : list A) :
  length (reshape (replicate m n) l) = m.
Proof. rewrite length_reshape, length_replicate. reflexivity. Qed.

Section Reading.

Context {real_t : Type} (of_uchar : Z -> real_t).

Lemma read_row_app (px rest : list Z) :
  read_row of_uchar (length px) (px ++ rest) = Ok (map of_uchar px, rest).
Proof.
  induction px as [|b px IH]; [reflexivity|].
  cbn [length read_row app ReadByte bind fst snd]. rewrite IH. reflexivity.
Qed.

Lemma read_row_short (cols : nat) (fi : Stream) :
  (length fi < cols)%nat ->
  read_row of_uchar cols fi = Fatal "Check failed: Read(&ch, sizeof(ch) != 0)".
Proof.
  revert fi. induction cols as [|cols IH]; intros fi H; [lia|].
  destruct fi as [|b fi]; [reflexivity|].
  cbn [read_row ReadByte bind fst snd]. rewrite IH by (cbn [length] in H; lia).
  reflexivity.
Qed.

Lemma read_image_app (rows cols : nat) :
  forall px rest,
    length px = (rows * cols)%nat ->
    read_image of_uchar rows cols (px ++ rest)
      = Ok (reshape (replicate rows cols) (map of_uchar px), rest).
Proof.
  induction rows as [|rows IH]; intros px rest Hlen.
  - destruct px; [reflexivity|discriminate].
  - cbn [read_image replicate reshape].
    rewrite <- (take_drop cols px) at 1. rewrite <- app_assoc.
    assert (Ht : length (take cols px) = cols) by (rewrite length_take; lia).
    rewrite <- Ht at 1. rewrite read_row_app. cbn [bind fst snd].
    rewrite IH by (rewrite length_drop; lia). cbn [bind fst snd].
    change map with (@fmap list _). rewrite fmap_take, fmap_drop. reflexivity.
Qed.

Lemma read_image_short (rows cols : nat) :
  forall fi,
    (length fi < rows * cols)%nat ->
    read_image of_uchar rows cols fi
      = Fatal "Check failed: Read(&ch, sizeof(ch) != 0)".
Proof.
  induction rows as [|rows IH]; intros fi H; [lia|].
  cbn [read_image].
  destruct (decide (length fi < cols)%nat) as [Hs|Hl].
  - rewrite read_row_short by exact Hs. reflexivity.
  - rewrite <- (take_drop cols fi).
    assert (Ht : length (take cols fi) = cols) by (rewrite length_take; lia).
    rewrite <- Ht at 1. rewrite read_row_app. cbn [bind fst snd].
    rewrite IH by (rewrite length_drop; lia). reflexivity.
Qed.

Lemma read_images_app (count rows cols : nat) :
  forall px rest,
    length px = (count * (rows * cols))%nat ->
    read_images of_uchar count rows cols (px ++ rest)
      = Ok (map (reshape (replicate rows cols))
              (reshape (replicate count (rows * cols)%nat) (map of_uchar px)), rest).
Proof.
  induction count as [|count IH]; intros px rest Hlen.
  - destruct px; [reflexivity|discriminate].
  - cbn [read_images replicate reshape map].
    rewrite <- (take_drop (rows * cols) px) at 1. rewrite <- app_assoc.
    rewrite read_image_app by (rewrite length_take; lia). cbn [bind fst snd].
    rewrite IH by (rewrite length_drop; lia). cbn [bind fst snd].
    change map with (@fmap list _). rewrite fmap_take, fmap_drop. reflexivity.
Qed.

Lemma read_images_short (count rows cols : nat) :
  forall fi,
    (length fi < count * (rows * cols))%nat ->
    read_images of_uchar count rows cols fi
      = Fatal "Check failed: Read(&ch, sizeof(ch) != 0)".
Proof.
  induction count as [|count IH]; intros fi H; [lia|].
  cbn [read_images].
  destruct (decide (length fi < rows * cols)%nat) as [Hs|Hl].
  - rewrite read_image_short by exact Hs. reflexivity.
  - rewrite <- (take_drop (rows * cols) fi).
    rewrite read_image_app by (rewrite length_take; lia). cbn [bind fst snd].
    rewrite IH by (rewrite length_drop; lia). reflexivity.
Qed.

End Reading.

Section Loading.

Context {real_t RandomSampler : Type} (of_uchar : Z -> real_t)
  (scale256 : real_t -> real_t) (fresh : real_t).

Implicit Types it : MNISTIterator real_t RandomSampler.

Local Abbreviation LoadImage' := (LoadImage of_uchar scale256 fresh).
Local Abbreviation LoadLabel' := (LoadLabel of_uchar fresh).

Lemma is_int_of_nat (n : nat) : Z.of_nat n <= INT_MAX -> is_int (Z.of_nat n).
Proof. unfold is_int, INT_MAX. lia. Qed.

Lemma u32_of_nat (n : nat) : Z.of_nat n <= INT_MAX -> u32 (Z.of_nat n) = Z.of_nat n.
Proof. intros H. apply u32_small. unfold INT_MAX, UINT_MOD in *. lia. Qed.

(** [LoadImage] on a whole image file. *)
Lemma LoadImage_whole it (magic px rest : list Z) (count rows cols : nat) :
  length magic = 4%nat ->
  Z.of_nat count <= INT_MAX -> Z.of_nat rows <= INT_MAX -> Z.of_nat cols <= INT_MAX ->
  length px = (count * rows * cols)%nat ->
  LoadImage' it
    (image_bytes magic (Z.of_nat count) (Z.of_nat rows) (Z.of_nat cols) px rest)
  = Ok (set_img it (Z.of_nat count, Z.of_nat rows, Z.of_nat cols)
          (map (map (map scale256))
             (map (reshape (replicate rows cols))
                (reshape (replicate count (rows * cols)%nat) (map of_uchar px))))).
Proof.
  intros Hm Hc Hr Hk Hlen. unfold LoadImage, image_bytes.
  destruct (ReadInt_magic magic
              (be32 (Z.of_nat count) ++ be32 (Z.of_nat rows) ++ be32 (Z.of_nat cols)
                 ++ px ++ rest) Hm) as [v ->].
  cbn [bind fst snd].
  rewrite !ReadInt_be32 by (apply is_int_of_nat; assumption). cbn [bind fst snd].
  rewrite !ReadInt_be32 by (apply is_int_of_nat; assumption). cbn [bind fst snd].
  rewrite !ReadInt_be32 by (apply is_int_of_nat; assumption). cbn [bind fst snd].
  rewrite !Nat2Z.id, read_images_app by lia. cbn [bind fst snd].
  rewrite !u32_of_nat by assumption. rewrite Nat2Z.id.
  rewrite resize_all_alt; [reflexivity|].
  rewrite length_map, length_reshape_replicate. reflexivity.
Qed.

(** The pixels of the images the loops build. *)
Lemma whole_pixel (px : list Z) (count rows cols i j k : nat) :
  length px = (count * rows * cols)%nat ->
  (i < count)%nat -> (j < rows)%nat -> (k < cols)%nat ->
  exists b,
    px !! ((i * rows + j) * cols + k)%nat = Some b /\
    pixel (map (map (map scale256))
             (map (reshape (replicate rows cols))
                (reshape (replicate count (rows * cols)%nat) (map of_uchar px))))
      i j k = Some (scale256 (of_uchar b)).
Proof.
  intros Hlen Hi Hj Hkk.
  assert (H1 : (i * rows + j + 1 <= count * rows)%nat) by nia.
  assert (H2 : ((i * rows + j + 1) * cols <= count * rows * cols)%nat)
    by (apply Nat.mul_le_mono_r; exact H1).
  assert (H3 : ((j + 1) * cols <= rows * cols)%nat)
    by (apply Nat.mul_le_mono_r; lia).
  assert (Hidx : ((i * rows + j) * cols + k < length px)%nat) by lia.
  destruct (lookup_lt_is_Some_2 _ _ Hidx) as [b Hb].
  exists b. split; [exact Hb|].
  unfold pixel. change map with (@fmap list _).
  rewrite !list_lookup_fmap, reshape_lookup by exact Hi. cbn [fmap option_fmap option_map].
  rewrite list_lookup_fmap, reshape_lookup by exact Hj.
  cbn [fmap option_fmap option_map].
  rewrite list_lookup_fmap, lookup_take_lt, lookup_drop by exact Hkk.
  rewrite lookup_take_lt, lookup_drop by lia.
  rewrite list_lookup_fmap.
  replace (i * (rows * cols) + (j * cols + k))%nat
    with ((i * rows + j) * cols + k)%nat by lia.
  rewrite Hb. reflexivity.
Qed.

(** X14: [LoadImage] reads the pixels in file order.  From an image file
    of [count] images of [rows] by [cols] pixels it returns, gives the
    iterator that shape and that many images and changes nothing else
    of it; pixel [k] of row [j] of image [i] is byte
    [(i * rows + j) * cols + k] of the pixel data, converted to a
    [float] and scaled by 1/256. *)
Theorem LoadImage_pixels it (magic px rest : list Z) (count rows cols : nat) :
  length magic = 4%nat ->
  Z.of_nat count <= INT_MAX -> Z.of_nat rows <= INT_MAX -> Z.of_nat cols <= INT_MAX ->
  length px = (count * rows * cols)%nat ->
  exists it',
    LoadImage' it
      (image_bytes magic (Z.of_nat count) (Z.of_nat rows) (Z.of_nat cols) px rest)
    = Ok it' /\
    it' = set_img it (Z.of_nat count, Z.of_nat rows, Z.of_nat cols) (img_ it') /\
    length (img_ it') = count /\
    forall i j k : nat,
      (i < count)%nat -> (j < rows)%nat -> (k < cols)%nat ->
      exists b,
        px !! ((i * rows + j) * cols + k)%nat = Some b /\
        pixel (img_ it') i j k = Some (scale256 (of_uchar b)).
Proof.
  intros Hm Hc Hr Hk Hlen.
  rewrite (LoadImage_whole it magic px rest count rows cols) by assumption.
  eexists. split; [reflexivity|]. cbn [set_img img_].
  split; [reflexivity|].
  split; [rewrite !length_map, length_reshape_replicate; reflexivity|].
  intros i j k Hi Hj Hkk. apply whole_pixel; assumption.
Qed.

(** The loop of [LoadLabel] over the labels of the file: it overwrites
    the positions from [i] on. *)
Lemma LoadLabel_loop_app (off : Z) :
  forall (bytes : list Z) (i : nat) (rest : Stream) (labels : list real_t)
         (inst : list Z),
    (i + length bytes <= length labels)%nat ->
    exists r,
      LoadLabel_loop of_uchar (length bytes) (Z.of_nat i) off (bytes ++ rest)
        labels inst = Ok r /\
      fst r = take i labels ++ map of_uchar bytes ++ drop (i + length bytes) labels.
Proof.
  induction bytes as [|b bytes IH]; intros i rest labels inst Hlen.
  - eexists. split; [reflexivity|]. cbn [fst map app length].
    rewrite Nat.add_0_r, take_drop. reflexivity.
  - cbn [length] in Hlen. cbn [length LoadLabel_loop app ReadByte bind fst snd].
    destruct (lookup_lt_is_Some_2 labels i ltac:(lia)) as [x Hx].
    rewrite (StoreFacts.vec_at_lookup _ _ _ Hx). cbn [bind].
    replace (Z.of_nat i + 1) with (Z.of_nat (S i)) by lia. rewrite Nat2Z.id.
    destruct (IH (S i) rest (<[i := of_uchar b]> labels) (inst ++ [u32 (u32 (Z.of_nat i) + off)]))
      as (r & Hr & Hf); [rewrite length_insert; lia|].
    exists r. split; [exact Hr|]. rewrite Hf.
    rewrite (take_S_r _ _ (of_uchar b))
      by (apply list_lookup_insert_eq; lia).
    rewrite take_insert_ge by lia. rewrite drop_insert_lt by lia.
    rewrite <- app_assoc. cbn [map app].
    replace (i + S (length bytes))%nat with (S i + length bytes)%nat by lia.
    reflexivity.
Qed.

Lemma LoadLabel_loop_short (off : Z) :
  forall (n : nat) (bytes : list Z) (i : nat) (labels : list real_t) (inst : list Z),
    (length bytes < n)%nat -> (i + n <= length labels)%nat ->
    LoadLabel_loop of_uchar n (Z.of_nat i) off bytes labels inst
      = Fatal "Check failed: Read(&ch, sizeof(ch) != 0)".
Proof.
  induction n as [|n IH]; intros bytes i labels inst Hs Hlen; [lia|].
  destruct bytes as [|b bytes]; [reflexivity|].
  cbn [length] in Hs. cbn [LoadLabel_loop ReadByte bind fst snd].
  destruct (lookup_lt_is_Some_2 labels i ltac:(lia)) as [x Hx].
  rewrite (StoreFacts.vec_at_lookup _ _ _ Hx). cbn [bind].
  replace (Z.of_nat i + 1) with (Z.of_nat (S i)) by lia.
  apply IH; [lia|rewrite length_insert; lia].
Qed.

(** [LoadLabel] on a whole label file. *)
Lemma LoadLabel_whole it (magic labels rest : list Z) :
  length magic = 4%nat -> Z.of_nat (length labels) <= INT_MAX ->
  LoadLabel' it (label_bytes magic (Z.of_nat (length labels)) labels rest)
  = Ok (set_labels it (map of_uchar labels)
          (inst_ it ++ loaded_ids (inst_offset_ it) (length labels))).
Proof.
  intros Hm Hn. unfold LoadLabel, label_bytes.
  destruct (ReadInt_magic magic (be32 (Z.of_nat (length labels)) ++ labels ++ rest) Hm)
    as [v ->].
  cbn [bind fst snd]. rewrite ReadInt_be32 by (apply is_int_of_nat; exact Hn).
  cbn [bind fst snd].
  replace (Z.of_nat (length labels) <? 0) with false by (symmetry; apply Z.ltb_ge; lia).
  rewrite Nat2Z.id.
  destruct (LoadLabel_loop_app (inst_offset_ it) labels 0 rest
              (resize (length labels) fresh (labels_ it)) (inst_ it))
    as (r & Hr & Hf); [rewrite length_resize; lia|].
  change (Z.of_nat 0) with 0 in Hr. rewrite Hr. cbn [bind].
  apply (IteratorFacts.LoadLabel_loop_ids of_uchar scale256) in Hr as [Hs _].
  rewrite Hf, Hs. cbn [take app]. rewrite drop_ge by (rewrite length_resize; lia).
  rewrite app_nil_r. do 3 f_equal. unfold loaded_ids.
  apply map_ext. intros k. f_equal. lia.
Qed.

(** X15: [LoadLabel] replaces the labels and appends the identities.
    From a label file of [n] labels it returns; the labels of the
    iterator are then the [n] bytes of the file, converted, whatever
    they were before; the identities [inst_offset_], [inst_offset_ + 1],
    ... of the [n] instances are added at the end of those the iterator
    had, so that a second load leaves twice as many identities as
    labels; nothing else changes. *)
Theorem LoadLabel_labels it (magic labels rest : list Z) :
  length magic = 4%nat -> Z.of_nat (length labels) <= INT_MAX ->
  exists it',
    LoadLabel' it (label_bytes magic (Z.of_nat (length labels)) labels rest) = Ok it' /\
    labels_ it' = map of_uchar labels /\
    inst_ it' = inst_ it ++ loaded_ids (inst_offset_ it) (length labels) /\
    it' = set_labels it (labels_ it') (inst_ it') /\
    exists it'',
      LoadLabel' it' (label_bytes magic (Z.of_nat (length labels)) labels rest)
        = Ok it'' /\
      labels_ it'' = labels_ it' /\
      length (inst_ it'') = (length (inst_ it) + 2 * length (labels_ it''))%nat.
Proof.
  intros Hm Hn. rewrite LoadLabel_whole by assumption.
  eexists. split; [reflexivity|]. cbn [set_labels labels_ inst_].
  do 3 (split; [reflexivity|]).
  rewrite LoadLabel_whole by assumption.
  eexists. split; [reflexivity|]. cbn [set_labels labels_ inst_ inst_offset_].
  split; [reflexivity|].
  rewrite !length_app, length_map. unfold loaded_ids.
  rewrite !length_map, !length_seq. lia.
Qed.

(** X16: files that end too early stop the program.  An image file of
    fewer than 16 bytes, or a label file of fewer than 8, is the fatal
    error "invalid mnist format"; a file with a whole header and fewer
    pixels, or labels, than the header announces fails the [CHECK] on
    the read that finds the file at its end. *)
Theorem truncated_files it :
  (forall stdimg,
     (length stdimg < 16)%nat -> LoadImage' it stdimg = Fatal "invalid mnist format") /\
  (forall magic px (count rows cols : nat),
     length magic = 4%nat ->
     Z.of_nat count <= INT_MAX -> Z.of_nat rows <= INT_MAX ->
     Z.of_nat cols <= INT_MAX ->
     (length px < count * rows * cols)%nat ->
     LoadImage' it
       (image_bytes magic (Z.of_nat count) (Z.of_nat rows) (Z.of_nat cols) px [])
     = Fatal "Check failed: Read(&ch, sizeof(ch) != 0)") /\
  (forall stdlabel,
     (length stdlabel < 8)%nat -> LoadLabel' it stdlabel = Fatal "invalid mnist format") /\
  (forall magic labels (count : nat),
     length magic = 4%nat -> Z.of_nat count <= INT_MAX ->
     (length labels < count)%nat ->
     LoadLabel' it (label_bytes magic (Z.of_nat count) labels [])
     = Fatal "Check failed: Read(&ch, sizeof(ch) != 0)").
Proof.
  split; [|split; [|split]].
  - intros s Hs. unfold LoadImage.
    destruct (decide (length s < 4)%nat) as [H|H];
      [rewrite ReadInt_short by exact H; reflexivity|].
    destruct (ReadInt_long s ltac:(lia)) as [v0 ->]. cbn [bind fst snd].
    destruct (decide (length (drop 4 s) < 4)%nat) as [H1|H1];
      [rewrite ReadInt_short by exact H1; reflexivity|].
    destruct (ReadInt_long (drop 4 s) ltac:(lia)) as [v1 ->]. cbn [bind fst snd].
    destruct (decide (length (drop 4 (drop 4 s)) < 4)%nat) as [H2|H2];
      [rewrite ReadInt_short by exact H2; reflexivity|].
    destruct (ReadInt_long (drop 4 (drop 4 s)) ltac:(lia)) as [v2 ->].
    cbn [bind fst snd].
    rewrite ReadInt_short; [reflexivity|]. rewrite !length_drop in *. lia.
  - intros magic px count rows cols Hm Hc Hr Hk Hlen. unfold LoadImage, image_bytes.
    destruct (ReadInt_magic magic
                (be32 (Z.of_nat count) ++ be32 (Z.of_nat rows)
                   ++ be32 (Z.of_nat cols) ++ px ++ []) Hm) as [v ->].
    cbn [bind fst snd].
    rewrite !ReadInt_be32 by (apply is_int_of_nat; assumption). cbn [bind fst snd].
    rewrite !ReadInt_be32 by (apply is_int_of_nat; assumption). cbn [bind fst snd].
    rewrite !ReadInt_be32 by (apply is_int_of_nat; assumption). cbn [bind fst snd].
    rewrite !Nat2Z.id, app_nil_r, read_images_short by lia. reflexivity.
  - intros s Hs. unfold LoadLabel.
    destruct (decide (length s < 4)%nat) as [H|H];
      [rewrite ReadInt_short by exact H; reflexivity|].
    destruct (ReadInt_long s ltac:(lia)) as [v0 ->]. cbn [bind fst snd].
    rewrite ReadInt_short; [reflexivity|]. rewrite !length_drop in *. lia.
  - intros magic labels count Hm Hc Hlen. unfold LoadLabel, label_bytes.
    destruct (ReadInt_magic magic (be32 (Z.of_nat count) ++ labels ++ []) Hm) as [v ->].
    cbn [bind fst snd]. rewrite ReadInt_be32 by (apply is_int_of_nat; exact Hc).
    cbn [bind fst snd].
    replace (Z.of_nat count <? 0) with false by (symmetry; apply Z.ltb_ge; lia).
    rewrite Nat2Z.id, app_nil_r.
    rewrite (LoadLabel_loop_short (inst_offset_ it) count labels 0);
      [reflexivity|exact Hlen|rewrite length_resize; lia].
Qed.

End Loading.

Section Initialising.

Context {real_t RandomSampler : Type} (of_uchar : Z -> real_t)
  (scale256 : real_t -> real_t) (fresh : real_t)
  (rnd_Shuffle : RandomSampler -> list Z -> RandomSampler * list Z).

Implicit Types it : MNISTIterator real_t RandomSampler.

Local Abbreviation Init' := (Init of_uchar scale256 fresh rnd_Shuffle).
Local Abbreviation Shuffle' := (Shuffle fresh rnd_Shuffle).

Lemma LoadImage_result it it' (stdimg : Stream) :
  LoadImage of_uchar scale256 fresh it stdimg = Ok it' ->
  exists sh imgs, it' = set_img it sh imgs.
Proof.
  unfold LoadImage.
  destruct (ReadInt stdimg) as [[magic s1]| |]; cbn [bind fst snd]; try discriminate.
  destruct (ReadInt s1) as [[count s2]| |]; cbn [bind fst snd]; try discriminate.
  destruct (ReadInt s2) as [[rows s3]| |]; cbn [bind fst snd]; try discriminate.
  destruct (ReadInt s3) as [[cols s4]| |]; cbn [bind fst snd]; try discriminate.
  destruct (read_images _ _ _ _ _) as [r| |]; cbn [bind fst snd]; try discriminate.
  intros [= <-]. eexists _, _. reflexivity.
Qed.

Lemma LoadLabel_result it it' (stdlabel : Stream) :
  LoadLabel of_uchar fresh it stdlabel = Ok it' ->
  exists l ids, it' = set_labels it l ids.
Proof.
  unfold LoadLabel.
  destruct (ReadInt stdlabel) as [[magic s1]| |]; cbn [bind fst snd]; try discriminate.
  destruct (ReadInt s1) as [[count s2]| |]; cbn [bind fst snd]; try discriminate.
  destruct (count <? 0); [discriminate|].
  destruct (LoadLabel_loop _ _ _ _ _ _ _) as [r| |]; cbn [bind fst snd];
    try discriminate.
  intros [= <-]. eexists _, _. reflexivity.
Qed.

Lemma Shuffle_result it it' :
  Shuffle' it = Ok it' ->
  exists g imgs l ids,
    it' = set_labels (set_img (set_rnd it g) (img_shape it) imgs) l ids.
Proof.
  unfold Shuffle. cbv zeta.
  destruct (Shuffle_loop _ _ _ _ _ _ _) as [[ti tl]| |]; cbn [bind]; try discriminate.
  intros [= <-].
  exists (fst (rnd_Shuffle (rnd it) (inst_ it))), ti, tl,
    (snd (rnd_Shuffle (rnd it) (inst_ it))).
  reflexivity.
Qed.

(** X17: [Init] describes the batch and does not position it.  After a
    call that returns, the batch says [batch_size_] instances, labels of
    shape [(batch_size_, 1)] with stride 1 and no instance index; its
    data shape is [(batch_size_, 1, 1, rows * cols)] in flat mode
    ([input_flat] 1, the product taken as an [index_t]) and
    [(batch_size_, 1, rows, cols)] otherwise, with the last extent for a
    stride.  The cursor [loc_] and the two data pointers of the batch
    are what they were before the call: it takes [BeforeFirst] and
    [Next] to set them. *)
Theorem Init_describes_batch it it0 (img_file label_file : Stream) :
  Init' it img_file label_file = Ok it0 ->
  let b := batch_size_ it in
  let rows := img_size1 it0 in
  let cols := img_size2 it0 in
  batch_size (Value it0) = b /\
  label_shape (Value it0) = (b, 1) /\ label_stride (Value it0) = 1 /\
  inst_index (Value it0) = None /\
  data_shape (Value it0)
    = (if mode_ it =? 1 then (b, 1, 1, u32 (rows * cols)) else (b, 1, rows, cols)) /\
  data_stride (Value it0) = (if mode_ it =? 1 then u32 (rows * cols) else cols) /\
  loc_ it0 = loc_ it /\ batch_size_ it0 = b /\
  data_dptr (Value it0) = data_dptr (out_ it) /\
  label_dptr (Value it0) = label_dptr (out_ it).
Proof.
  unfold Init.
  destruct (LoadImage _ _ _ it img_file) as [it1| |] eqn:E1; cbn [bind]; try discriminate.
  destruct (LoadLabel _ _ it1 label_file) as [it2| |] eqn:E2; cbn [bind];
    try discriminate.
  apply LoadImage_result in E1 as (sh & imgs & ->).
  apply LoadLabel_result in E2 as (l & ids & ->).
  cbv zeta.
  destruct (shuffle_ _ =? 0).
  - intros [= <-]. unfold Value, img_size1, img_size2.
    cbn [set_out set_labels set_img out_ mode_ batch_size_ img_shape loc_
         batch_size label_shape label_stride inst_index data_shape data_stride
         data_dptr label_dptr].
    destruct (mode_ it =? 1); repeat split; reflexivity.
  - intros HS. apply Shuffle_result in HS as (g & imgs' & l' & ids' & ->).
    unfold Value, img_size1, img_size2.
    cbn [set_out set_labels set_img set_rnd out_ mode_ batch_size_ img_shape loc_
         batch_size label_shape label_stride inst_index data_shape data_stride
         data_dptr label_dptr].
    destruct (mode_ it =? 1); repeat split; reflexivity.
Qed.

End Initialising.

Section Cursor.

Context {real_t RandomSampler : Type}.

Implicit Types it s : MNISTIterator real_t RandomSampler.

Lemma Next_zero_batch s :
  batch_size_ s = 0 -> loc_ s = 0 -> 0 <= img_size0 s ->
  fst (Next s) = true /\
  batch_size_ (snd (Next s)) = 0 /\ loc_ (snd (Next s)) = 0 /\
  img_size0 (snd (Next s)) = img_size0 s.
Proof.
  intros Hb Hl HN. unfold Next. rewrite Hb, Hl. change (u32 (0 + 0)) with 0.
  replace (0 <=? img_size0 s) with true by (symmetry; apply Z.leb_le; exact HN).
  cbn [fst snd]. unfold img_size0. cbn [set_loc set_out batch_size_ loc_ img_shape].
  auto.
Qed.

(** X18: with a batch size of zero an epoch never ends.  After
    [BeforeFirst], every call of [Next] answers [true] and leaves the
    cursor at 0, however many calls there are. *)
Theorem zero_batch_size_never_ends it (k : nat) :
  batch_size_ it = 0 -> 0 <= img_size0 it ->
  fst (Next_times k (BeforeFirst it)) = replicate k true /\
  loc_ (snd (Next_times k (BeforeFirst it))) = 0.
Proof.
  intros Hb HN.
  assert (H : forall s, batch_size_ s = 0 -> loc_ s = 0 -> 0 <= img_size0 s ->
            fst (Next_times k s) = replicate k true /\ loc_ (snd (Next_times k s)) = 0).
  { induction k as [|k IH]; intros s Hs Hl Hn; [auto|].
    destruct (Next_zero_batch s Hs Hl Hn) as (Ht & Hb' & Hl' & Hn').
    cbn [Next_times replicate]. cbv zeta. cbn [fst snd].
    destruct (IH (snd (Next s)) Hb' Hl' ltac:(lia)) as [IH1 IH2].
    rewrite Ht, IH1. auto. }
  apply H; [exact Hb|reflexivity|exact HN].
Qed.

End Cursor.

Section Epoch.

Context {real_t RandomSampler : Type} (of_uchar : Z -> real_t)
  (scale256 : real_t -> real_t) (fresh : real_t)
  (rnd_Shuffle : RandomSampler -> list Z -> RandomSampler * list Z).

Implicit Types it : MNISTIterator real_t RandomSampler.

Local Abbreviation Init' := (Init of_uchar scale256 fresh rnd_Shuffle).

(** The window of [b] elements at position [p] of a buffer that has
    them. *)
Lemma window_Some {A : Type} (buf : list A) (p b : nat) :
  (p + b <= length buf)%nat ->
  window buf (Some (Z.of_nat p)) (Z.of_nat b) = Some (take b (drop p buf)).
Proof.
  intros H. unfold window.
  replace ((0 <=? Z.of_nat p) && (Z.of_nat p + Z.of_nat b <=? Z.of_nat (length buf)))
    with true by (symmetry; apply andb_true_iff; rewrite !Z.leb_le; lia).
  rewrite !Nat2Z.id. reflexivity.
Qed.

Lemma pixel_window (imgs : list (Image real_t)) (p b j r c : nat) :
  (j < b)%nat -> pixel (take b (drop p imgs)) j r c = pixel imgs (p + j) r c.
Proof.
  intros Hj. unfold pixel. rewrite lookup_take_lt, lookup_drop by exact Hj. reflexivity.
Qed.

(** X19: without shuffling, the batches of an epoch follow the files.
    For a new iterator, image and label files of [n] instances and a
    batch size [b] of at least 1, [Init] returns, and after
    [BeforeFirst] the call of [Next] number [k] (from 0, for every [k]
    with [(k + 1) * b <= n]) answers [true] and gives a batch whose
    instance [j] is instance [k * b + j] of the files: its identity is
    that position plus [inst_offset_], its label is that byte of the
    label file, and its pixel [c] of row [r] is byte
    [((k * b + j) * rows + r) * cols + c] of the image file, scaled. *)
Theorem batches_follow_files it (magic1 px rest1 magic2 labels rest2 : list Z)
    (rows cols b : nat) :
  length magic1 = 4%nat -> length magic2 = 4%nat ->
  Z.of_nat (length labels) <= INT_MAX ->
  Z.of_nat rows <= INT_MAX -> Z.of_nat cols <= INT_MAX ->
  length px = (length labels * rows * cols)%nat ->
  shuffle_ it = 0 -> inst_ it = [] ->
  batch_size_ it = Z.of_nat b -> (1 <= b)%nat -> Z.of_nat b < UINT_MOD ->
  exists it0,
    Init' it
      (image_bytes magic1 (Z.of_nat (length labels)) (Z.of_nat rows) (Z.of_nat cols)
         px rest1)
      (label_bytes magic2 (Z.of_nat (length labels)) labels rest2) = Ok it0 /\
    forall k : nat,
      ((k + 1) * b <= length labels)%nat ->
      exists imgs lbls ids,
        fst (Next (snd (Next_times k (BeforeFirst it0)))) = true /\
        batch_images (snd (Next (snd (Next_times k (BeforeFirst it0))))) = Some imgs /\
        batch_labels (snd (Next (snd (Next_times k (BeforeFirst it0))))) = Some lbls /\
        batch_ids (snd (Next (snd (Next_times k (BeforeFirst it0))))) = Some ids /\
        forall j : nat,
          (j < b)%nat ->
          ids !! j = Some (u32 (Z.of_nat (k * b + j) + inst_offset_ it)) /\
          (exists lb,
             labels !! (k * b + j)%nat = Some lb /\ lbls !! j = Some (of_uchar lb)) /\
          forall r c : nat,
            (r < rows)%nat -> (c < cols)%nat ->
            exists pb,
              px !! (((k * b + j) * rows + r) * cols + c)%nat = Some pb /\
              pixel imgs j r c = Some (scale256 (of_uchar pb)).
Proof.
  intros Hm1 Hm2 Hn Hr Hc Hlen Hsh Hinst Hb Hb1 Hbu.
  unfold Init.
  rewrite (LoadImage_whole of_uchar scale256 fresh it magic1 px rest1 (length labels)
             rows cols) by assumption.
  cbn [bind]. rewrite LoadLabel_whole by assumption. cbn [bind]. cbv zeta.
  cbn [set_out set_labels set_img shuffle_ mode_ batch_size_ out_ img_shape
       inst_ inst_offset_].
  rewrite Hsh, Hinst. cbn [Z.eqb app].
  eexists. split; [reflexivity|]. set (n := length labels) in *.
  match goal with
  | |- context [BeforeFirst ?x] => set (it0 := x)
  end.
  assert (HN0 : img_size0 it0 = Z.of_nat n) by reflexivity.
  assert (Hb0 : batch_size_ it0 = Z.of_nat b) by exact Hb.
  intros k Hk.
  assert (Hfull : Z.of_nat k < full_batches it0).
  { unfold full_batches. rewrite HN0, Hb0.
    apply Z.lt_le_trans with (Z.of_nat (k + 1)); [lia|].
    apply Z.div_le_lower_bound; lia. }
  destruct (IteratorFacts.epoch_answer it0 k) as (_ & H2 & H3 & _);
    [rewrite HN0; lia|rewrite Hb0; lia|].
  cbv zeta in H2, H3. eexists _, _, _. split; [exact (proj2 H2 Hfull)|].
  rewrite (H3 Hfull). clear H2 H3.
  rewrite Hb0. replace (Z.of_nat k * Z.of_nat b) with (Z.of_nat (k * b)) by lia.
  unfold batch_images, batch_labels, batch_ids, Value.
  cbn [with_cursor out_ data_dptr label_dptr inst_index img_ labels_ inst_ batch_size_].
  subst it0. cbn [set_out set_labels set_img img_ labels_ inst_ batch_size_].
  rewrite Hb.
  rewrite !window_Some.
  2:{ unfold loaded_ids. rewrite length_map, length_seq. lia. }
  2:{ rewrite length_map. fold n. lia. }
  2:{ rewrite !length_map, length_reshape_replicate. lia. }
  do 3 (split; [reflexivity|]).
  intros j Hj. split; [|split].
  - rewrite lookup_take_lt, lookup_drop by exact Hj.
    rewrite IteratorFacts.loaded_ids_lookup by lia. reflexivity.
  - destruct (lookup_lt_is_Some_2 labels (k * b + j)) as [lb Hlb]; [fold n; lia|].
    exists lb. split; [exact Hlb|].
    rewrite lookup_take_lt, lookup_drop by exact Hj.
    change map with (@fmap list _). rewrite list_lookup_fmap, Hlb. reflexivity.
  - intros r c Hr' Hc'. rewrite pixel_window by exact Hj.
    apply whole_pixel; try assumption. lia.
Qed.

Lemma window_None {A : Type} (buf : list A) (p b : nat) :
  (length buf < p + b)%nat ->
  window buf (Some (Z.of_nat p)) (Z.of_nat b) = None.
Proof.
  intros H. unfold window.
  replace (Z.of_nat p + Z.of_nat b <=? Z.of_nat (length buf)) with false
    by (symmetry; apply Z.leb_gt; lia).
  rewrite andb_false_r. reflexivity.
Qed.

(** X20: [Init] does not compare the two files.  With an image file of
    [n] instances and a label file of fewer labels, [Init] returns all
    the same; after [BeforeFirst], a call of [Next] whose batch ends
    inside the images and beyond the labels answers [true], and the
    label pointer of the batch it gives reaches past the end of the
    labels. *)
Theorem label_count_is_not_checked it (magic1 px rest1 magic2 labels rest2 : list Z)
    (n rows cols b k : nat) :
  length magic1 = 4%nat -> length magic2 = 4%nat ->
  Z.of_nat n <= INT_MAX -> Z.of_nat rows <= INT_MAX -> Z.of_nat cols <= INT_MAX ->
  Z.of_nat (length labels) <= INT_MAX ->
  length px = (n * rows * cols)%nat ->
  shuffle_ it = 0 ->
  batch_size_ it = Z.of_nat b -> (1 <= b)%nat -> Z.of_nat b < UINT_MOD ->
  ((k + 1) * b <= n)%nat -> (length labels < (k + 1) * b)%nat ->
  exists it0,
    Init' it
      (image_bytes magic1 (Z.of_nat n) (Z.of_nat rows) (Z.of_nat cols) px rest1)
      (label_bytes magic2 (Z.of_nat (length labels)) labels rest2) = Ok it0 /\
    fst (Next (snd (Next_times k (BeforeFirst it0)))) = true /\
    (exists imgs,
       batch_images (snd (Next (snd (Next_times k (BeforeFirst it0))))) = Some imgs) /\
    batch_labels (snd (Next (snd (Next_times k (BeforeFirst it0))))) = None.
Proof.
  intros Hm1 Hm2 Hn Hr Hc Hl Hlen Hsh Hb Hb1 Hbu Hk Hshort.
  unfold Init.
  rewrite (LoadImage_whole of_uchar scale256 fresh it magic1 px rest1 n rows cols)
    by assumption.
  cbn [bind]. rewrite LoadLabel_whole by assumption. cbn [bind]. cbv zeta.
  cbn [set_out set_labels set_img shuffle_ mode_ batch_size_ out_ img_shape
       inst_ inst_offset_].
  rewrite Hsh. cbn [Z.eqb].
  eexists. split; [reflexivity|].
  match goal with
  | |- context [BeforeFirst ?x] => set (it0 := x)
  end.
  assert (HN0 : img_size0 it0 = Z.of_nat n) by reflexivity.
  assert (Hb0 : batch_size_ it0 = Z.of_nat b) by exact Hb.
  assert (Hfull : Z.of_nat k < full_batches it0).
  { unfold full_batches. rewrite HN0, Hb0.
    apply Z.lt_le_trans with (Z.of_nat (k + 1)); [lia|].
    apply Z.div_le_lower_bound; lia. }
  destruct (IteratorFacts.epoch_answer it0 k) as (_ & H2 & H3 & _);
    [rewrite HN0; lia|rewrite Hb0; lia|].
  cbv zeta in H2, H3. split; [exact (proj2 H2 Hfull)|].
  rewrite (H3 Hfull). clear H2 H3.
  rewrite Hb0. replace (Z.of_nat k * Z.of_nat b) with (Z.of_nat (k * b)) by lia.
  unfold batch_images, batch_labels, Value.
  cbn [with_cursor out_ data_dptr label_dptr img_ labels_ batch_size_].
  subst it0. cbn [set_out set_labels set_img img_ labels_ batch_size_].
  rewrite Hb. split.
  - rewrite window_Some; [eexists; reflexivity|].
    rewrite !length_map, length_reshape_replicate. lia.
  - apply window_None. rewrite length_map. lia.
Qed.

(** X21: with shuffling, every position still holds the data of its
    identity.  With a sampler that permutes the vector it is given, a
    new iterator configured to shuffle, and image and label files of
    [n] instances, [Init] returns; the identities are a permutation of
    [inst_offset_], ..., [inst_offset_ + n - 1]; and the position that
    holds identity [id] holds the label and the pixels of instance
    [id - inst_offset_] of the files. *)
Theorem shuffled_data_follows_identities it
    (magic1 px rest1 magic2 labels rest2 : list Z) (rows cols : nat) :
  (forall (g : RandomSampler) (l : list Z), snd (rnd_Shuffle g l) ≡ₚ l) ->
  length magic1 = 4%nat -> length magic2 = 4%nat ->
  Z.of_nat (length labels) <= INT_MAX ->
  Z.of_nat rows <= INT_MAX -> Z.of_nat cols <= INT_MAX ->
  length px = (length labels * rows * cols)%nat ->
  shuffle_ it <> 0 -> inst_ it = [] ->
  exists it0,
    Init' it
      (image_bytes magic1 (Z.of_nat (length labels)) (Z.of_nat rows) (Z.of_nat cols)
         px rest1)
      (label_bytes magic2 (Z.of_nat (length labels)) labels rest2) = Ok it0 /\
    inst_ it0 ≡ₚ loaded_ids (inst_offset_ it) (length labels) /\
    forall (j : nat) (id : Z),
      inst_ it0 !! j = Some id ->
      (source_row (inst_offset_ it) id < length labels)%nat /\
      (exists lb,
         labels !! source_row (inst_offset_ it) id = Some lb /\
         labels_ it0 !! j = Some (of_uchar lb)) /\
      forall r c : nat,
        (r < rows)%nat -> (c < cols)%nat ->
        exists pb,
          px !! ((source_row (inst_offset_ it) id * rows + r) * cols + c)%nat = Some pb /\
          pixel (img_ it0) j r c = Some (scale256 (of_uchar pb)).
Proof.
  intros Hperm Hm1 Hm2 Hn Hr Hc Hlen Hsh Hinst.
  unfold Init.
  rewrite (LoadImage_whole of_uchar scale256 fresh it magic1 px rest1 (length labels)
             rows cols) by assumption.
  cbn [bind]. rewrite LoadLabel_whole by assumption. cbn [bind]. cbv zeta.
  cbn [set_out set_labels set_img shuffle_ mode_ batch_size_ out_ img_shape
       inst_ inst_offset_].
  rewrite Hinst. cbn [app].
  replace (shuffle_ it =? 0) with false by (symmetry; apply Z.eqb_neq; exact Hsh).
  set (n := length labels) in *.
  match goal with
  | |- context [Shuffle fresh rnd_Shuffle ?x] => set (itL := x)
  end.
  assert (Hok : dataset_ok itL).
  { unfold dataset_ok, img_size0. subst itL.
    cbn [set_out set_labels set_img img_ img_shape labels_ inst_ inst_offset_ fst].
    rewrite !length_map, length_reshape_replicate.
    split; [reflexivity|]. split; [unfold INT_MAX, UINT_MOD in *; lia|].
    split; [reflexivity|]. reflexivity. }
  destruct (IteratorFacts.Shuffle_ok fresh rnd_Shuffle Hperm itL Hok)
    as (it0 & HS & Hok0 & Hp & _ & Hrow & _).
  exists it0. split; [exact HS|].
  assert (Hlen_img : length (img_ itL) = n).
  { subst itL. cbn [set_out set_labels set_img img_].
    rewrite !length_map, length_reshape_replicate. reflexivity. }
  split.
  { rewrite Hp. subst itL. reflexivity. }
  intros j id Hj.
  destruct (IteratorFacts.permuted_id_row (inst_offset_ it) n (inst_ it0) id)
    as [Hlt _].
  { unfold INT_MAX, UINT_MOD in *. lia. }
  { rewrite Hp. subst itL. reflexivity. }
  { apply list_elem_of_lookup. exists j. exact Hj. }
  destruct (Hrow j id Hj) as [Ei El].
  change (inst_offset_ itL) with (inst_offset_ it) in Ei, El.
  split; [exact Hlt|]. split.
  - destruct (lookup_lt_is_Some_2 labels (source_row (inst_offset_ it) id) Hlt)
      as [lb Hlb].
    exists lb. split; [exact Hlb|]. rewrite El. subst itL.
    cbn [set_out set_labels set_img labels_]. change map with (@fmap list _).
    rewrite list_lookup_fmap, Hlb. reflexivity.
  - intros r c Hr' Hc'.
    destruct (whole_pixel of_uchar scale256 px n rows cols
                (source_row (inst_offset_ it) id) r c Hlen Hlt Hr' Hc')
      as (pb & Hpb & Hpix).
    exists pb. split; [exact Hpb|].
    unfold pixel, Image in *. rewrite Ei. subst itL. exact Hpix.
Qed.

End Epoch.

Section ShuffleEdge.

Context {real_t RandomSampler : Type} (of_uchar : Z -> real_t)
  (scale256 : real_t -> real_t) (fresh : real_t)
  (rnd_Shuffle : RandomSampler -> list Z -> RandomSampler * list Z).

Implicit Types it : MNISTIterator real_t RandomSampler.

Local Abbreviation Shuffle' := (Shuffle fresh rnd_Shuffle).
Local Abbreviation LoadLabel' := (LoadLabel of_uchar fresh).

(** The loop of [Shuffle] over more identities than the temporary
    vector of labels has room for writes past its end. *)
Lemma Shuffle_loop_overrun (off : Z) (img : list (Image real_t)) (labels : list real_t) :
  forall (ids : list Z) (i : nat) (tmpimg : list (Image real_t))
         (tmplabel : list real_t),
    (i <= length tmplabel)%nat -> (length tmplabel < i + length ids)%nat ->
    Shuffle_loop ids (Z.of_nat i) off img labels tmpimg tmplabel = Undefined.
Proof.
  induction ids as [|id rest IH]; intros i tmpimg tmplabel Hi Hlen;
    [cbn [length] in Hlen; lia|].
  cbn [length] in Hlen. cbn [Shuffle_loop].
  destruct (vec_at_cases tmpimg (Z.of_nat i)) as [[dst ->]| ->];
    [|reflexivity].
  cbn [bind].
  destruct (vec_at_cases img (u32 (id - off))) as [[src ->]| ->];
    [|reflexivity].
  cbn [bind].
  destruct (vec_at_cases tmplabel (Z.of_nat i)) as [[x Hx]| ->];
    [|reflexivity].
  rewrite Hx. cbn [bind]. apply vec_at_Ok in Hx as [Hx _].
  destruct (vec_at_cases labels (u32 (id - off))) as [[l ->]| ->];
    [|reflexivity].
  cbn [bind]. replace (Z.of_nat i + 1) with (Z.of_nat (S i)) by lia.
  apply IH; rewrite length_insert; lia.
Qed.

(** X22: [Shuffle] needs a label for every identity.  With a sampler
    that returns as many identities as it is given, [Shuffle] on an
    iterator that holds more identities than labels writes past the
    end of its temporary vector; this is the state a second load of
    the label file leaves, since [LoadLabel] resizes the labels and
    appends the identities. *)
Theorem Shuffle_needs_labels it :
  (forall g l, length (snd (rnd_Shuffle g l)) = length l) ->
  ((length (labels_ it) < length (inst_ it))%nat -> Shuffle' it = Undefined) /\
  (forall magic labels rest,
     length magic = 4%nat -> Z.of_nat (length labels) <= INT_MAX ->
     (1 <= length labels)%nat ->
     exists it1 it2,
       LoadLabel' it (label_bytes magic (Z.of_nat (length labels)) labels rest)
         = Ok it1 /\
       LoadLabel' it1 (label_bytes magic (Z.of_nat (length labels)) labels rest)
         = Ok it2 /\
       Shuffle' it2 = Undefined).
Proof.
  intros Hsamp.
  assert (Hover : forall it', (length (labels_ it') < length (inst_ it'))%nat ->
                    Shuffle' it' = Undefined).
  { intros it' Hlt. unfold Shuffle. cbv zeta.
    cbn [set_labels set_rnd inst_ labels_ img_ inst_offset_ img_shape].
    rewrite (Shuffle_loop_overrun (inst_offset_ it') (img_ it') (labels_ it')
               (snd (rnd_Shuffle (rnd it') (inst_ it'))) 0).
    - reflexivity.
    - lia.
    - rewrite length_replicate, Hsamp. cbn. exact Hlt. }
  split; [apply Hover|].
  intros magic labels rest Hm Hn H1.
  rewrite (LoadLabel_whole of_uchar scale256 fresh it) by assumption.
  eexists _, _. split; [reflexivity|].
  rewrite (LoadLabel_whole of_uchar scale256 fresh) by assumption.
  split; [reflexivity|]. apply Hover.
  cbn [set_labels labels_ inst_ inst_offset_].
  rewrite !length_app, length_map. unfold loaded_ids.
  rewrite !length_map, !length_seq. lia.
Qed.

End ShuffleEdge.

Section Parameters.

Context {real_t RandomSampler : Type}
  (rnd_Seed : RandomSampler -> Z -> RandomSampler) (atoi : string -> Z).

Implicit Types it : MNISTIterator real_t RandomSampler.

Local Abbreviation SetParam' := (SetParam rnd_Seed atoi).

Lemma same_data_step it a (c : bool)
    (f : MNISTIterator real_t RandomSampler -> MNISTIterator real_t RandomSampler) :
  same_data it a -> (forall x, same_data x (f x)) ->
  same_data it (if c then f a else a).
Proof.
  intros Ha Hf. destruct c; [|exact Ha].
  destruct Ha as (H1 & H2 & H3 & H4 & H5 & H6).
  destruct (Hf a) as (G1 & G2 & G3 & G4 & G5 & G6).
  repeat split; congruence.
Qed.

(** X23: [SetParam] never touches what is loaded.  Whatever the name
    and the value, the images and their shape, the labels, the
    identities, the cursor and the batch stay as they are; and a name
    that is none of the eight the iterator knows changes nothing at
    all, without any error. *)
Theorem SetParam_keeps_data it (name val : string) :
  same_data it (SetParam' it name val) /\
  (name ∉ ["silent"; "batch_size"; "input_flat"; "shuffle"; "index_offset";
           "path_img"; "path_label"; "seed_data"]%string ->
   SetParam' it name val = it).
Proof.
  unfold SetParam. cbv zeta. split.
  - apply (same_data_step _ _ _
             (fun x => set_rnd x (rnd_Seed (rnd x) (wrap_int (kRandMagic + atoi val)))));
      [|intros x; repeat split; reflexivity].
    apply (same_data_step _ _ _ (fun x => set_path_img x val));
      [|intros x; repeat split; reflexivity].
    apply (same_data_step _ _ _ (fun x => set_path_label x val));
      [|intros x; repeat split; reflexivity].
    apply (same_data_step _ _ _ (fun x => set_path_img x val));
      [|intros x; repeat split; reflexivity].
    apply (same_data_step _ _ _ (fun x => set_inst_offset x (u32 (atoi val))));
      [|intros x; repeat split; reflexivity].
    apply (same_data_step _ _ _ (fun x => set_shuffle x (atoi val)));
      [|intros x; repeat split; reflexivity].
    apply (same_data_step _ _ _ (fun x => set_mode x (atoi val)));
      [|intros x; repeat split; reflexivity].
    apply (same_data_step _ _ _ (fun x => set_batch_size x (u32 (atoi val))));
      [|intros x; repeat split; reflexivity].
    apply (same_data_step _ _ _ (fun x => set_silent x (atoi val)));
      [|intros x; repeat split; reflexivity].
    repeat split; reflexivity.
  - intros Hn. rewrite !not_elem_of_cons in Hn.
    destruct Hn as (H1 & H2 & H3 & H4 & H5 & H6 & H7 & H8 & _).
    unfold streq. rewrite !bool_decide_eq_false_2 by assumption.
    reflexivity.
Qed.

End Parameters.

Lemma LoadImage_pixels_witness :
  exists it',
    LoadImage (fun ch => ch) (fun x => x) 0 (Samples.new_iterator 1)
      (image_bytes [0; 0; 8; 3] 2 1 2 [10; 20; 30; 40] []) = Ok it' /\
    pixel (img_ it') 1 0 1 = Some 40.
Proof.
  destruct (LoadImage_pixels (fun ch => ch) (fun x => x) 0 (Samples.new_iterator 1)
              [0; 0; 8; 3] [10; 20; 30; 40] [] 2 1 2)
    as (it' & HL & _ & _ & Hpix);
    try reflexivity; try (unfold INT_MAX; cbn; lia).
  destruct (Hpix 1%nat 0%nat 1%nat) as (b & Hb & Hp); try lia.
  injection Hb as <-. exists it'. split; assumption.
Defined.

Lemma LoadLabel_labels_witness :
  exists it',
    LoadLabel (fun ch => ch) 0 (Samples.new_iterator 1)
      (label_bytes [0; 0; 8; 1] 2 [5; 6] []) = Ok it' /\
    labels_ it' = [5; 6] /\ inst_ it' = [0; 1].
Proof.
  destruct (LoadLabel_labels (fun ch => ch) (fun x => x) 0 (Samples.new_iterator 1)
              [0; 0; 8; 1] [5; 6] [])
    as (it' & HL & Hl & Hi & _);
    try reflexivity; try (unfold INT_MAX; cbn; lia).
  exists it'. split; [exact HL|]. split; assumption.
Defined.

Lemma truncated_files_witness :
  LoadImage (fun ch => ch) (fun x => x) 0 (Samples.new_iterator 1) [0; 0; 8; 3]
    = Fatal "invalid mnist format" /\
  LoadLabel (fun ch => ch) 0 (Samples.new_iterator 1)
    (label_bytes [0; 0; 8; 1] 3 [1; 2] [])
    = Fatal "Check failed: Read(&ch, sizeof(ch) != 0)".
Proof.
  destruct (truncated_files (fun ch => ch) (fun x => x) 0 (Samples.new_iterator 1))
    as (H1 & _ & _ & H4).
  split.
  - apply H1. cbn. lia.
  - apply (H4 [0; 0; 8; 1] [1; 2] 3%nat); try reflexivity; cbn; unfold INT_MAX; lia.
Defined.

Lemma Init_describes_batch_witness :
  data_shape (Value Samples.twenty_five_loaded) = (10, 1, 1, 1) /\
  batch_size (Value Samples.twenty_five_loaded) = 10.
Proof.
  destruct (Init_describes_batch (fun ch => ch) (fun x => x) 0 Samples.rev_sampler
              (Samples.new_iterator 10) Samples.twenty_five_loaded
              (Samples.image_file 25) (Samples.label_file 25))
    as (Hb & _ & _ & _ & Hd & _); [vm_compute; reflexivity|].
  split; [exact Hd|exact Hb].
Defined.

Lemma zero_batch_size_never_ends_witness :
  fst (Next_times 3 (BeforeFirst (Samples.new_iterator 0))) = [true; true; true].
Proof.
  apply (proj1 (zero_batch_size_never_ends (Samples.new_iterator 0) 3 eq_refl
                  ltac:(vm_compute; discriminate))).
Defined.

Lemma batches_follow_files_witness :
  exists it0 lbls,
    Init (fun ch => ch) (fun x => x) 0 Samples.rev_sampler (Samples.new_iterator 1)
      (image_bytes [0; 0; 8; 3] 2 1 1 [10; 20] []) (label_bytes [0; 0; 8; 1] 2 [5; 6] [])
    = Ok it0 /\
    batch_labels (snd (Next (snd (Next_times 1 (BeforeFirst it0))))) = Some lbls /\
    lbls !! 0%nat = Some 6.
Proof.
  destruct (batches_follow_files (fun ch => ch) (fun x => x) 0 Samples.rev_sampler
              (Samples.new_iterator 1) [0; 0; 8; 3] [10; 20] [] [0; 0; 8; 1] [5; 6] []
              1 1 1)
    as (it0 & HI & Hk);
    try reflexivity; try (unfold INT_MAX, UINT_MOD; cbn; lia).
  destruct (Hk 1%nat) as (imgs & lbls & ids & _ & _ & Hl & _ & Hj); [cbn; lia|].
  destruct (Hj 0%nat) as (_ & (lb & Hlb & Hlbl) & _); [lia|].
  injection Hlb as <-. exists it0, lbls. split; [exact HI|]. split; assumption.
Defined.

Lemma label_count_is_not_checked_witness :
  exists it0,
    Init (fun ch => ch) (fun x => x) 0 Samples.rev_sampler (Samples.new_iterator 1)
      (image_bytes [0; 0; 8; 3] 2 1 1 [10; 20] []) (label_bytes [0; 0; 8; 1] 1 [5] [])
    = Ok it0 /\
    fst (Next (snd (Next_times 1 (BeforeFirst it0)))) = true /\
    batch_labels (snd (Next (snd (Next_times 1 (BeforeFirst it0))))) = None.
Proof.
  assert (Hsmall : forall n : nat, (n <= 2)%nat -> Z.of_nat n <= INT_MAX)
    by (intros n Hn; unfold INT_MAX; lia).
  destruct (label_count_is_not_checked (fun ch => ch) (fun x => x) 0
              Samples.rev_sampler (Samples.new_iterator 1)
              [0; 0; 8; 3] [10; 20] [] [0; 0; 8; 1] [5] [] 2 1 1 1 1
              eq_refl eq_refl (Hsmall 2%nat ltac:(lia)) (Hsmall 1%nat ltac:(lia))
              (Hsmall 1%nat ltac:(lia)) (Hsmall 1%nat ltac:(lia)) eq_refl eq_refl
              eq_refl ltac:(lia) ltac:(unfold UINT_MOD; lia) ltac:(cbn; lia)
              ltac:(cbn; lia))
    as (it0 & HI & Ht & _ & Hl).
  exists it0. split; [exact HI|]. split; [exact Ht|exact Hl].
Defined.

Lemma shuffled_data_follows_identities_witness :
  exists it0,
    Init (fun ch => ch) (fun x => x) 0 Samples.rev_sampler
      (set_shuffle (Samples.new_iterator 1) 1)
      (image_bytes [0; 0; 8; 3] 2 1 1 [10; 20] []) (label_bytes [0; 0; 8; 1] 2 [5; 6] [])
    = Ok it0 /\
    inst_ it0 ≡ₚ [0; 1].
Proof.
  assert (Hsmall : forall n : nat, (n <= 2)%nat -> Z.of_nat n <= INT_MAX)
    by (intros n Hn; unfold INT_MAX; lia).
  destruct (shuffled_data_follows_identities (fun ch => ch) (fun x => x) 0
              Samples.rev_sampler (set_shuffle (Samples.new_iterator 1) 1)
              [0; 0; 8; 3] [10; 20] [] [0; 0; 8; 1] [5; 6] [] 1 1
              IteratorFacts.rev_sampler_permutes eq_refl eq_refl
              (Hsmall 2%nat ltac:(lia)) (Hsmall 1%nat ltac:(lia))
              (Hsmall 1%nat ltac:(lia)) eq_refl ltac:(discriminate) eq_refl)
    as (it0 & HI & Hp & _).
  exists it0. split; [exact HI|exact Hp].
Defined.

Lemma Shuffle_needs_labels_witness :
  Shuffle 0 Samples.rev_sampler (set_labels (Samples.new_iterator 1) [5] [0; 1])
    = Undefined.
Proof.
  apply (proj1 (Shuffle_needs_labels (fun ch => ch) (fun x => x) 0 Samples.rev_sampler
                  (set_labels (Samples.new_iterator 1) [5] [0; 1])
                  (fun g l => length_rev l))).
  cbn. lia.
Defined.

Lemma SetParam_keeps_data_witness :
  SetParam Samples.keep_seed (fun _ => 0) (Samples.new_iterator 1) "verbose" "1"
    = Samples.new_iterator 1.
Proof.
  apply (proj2 (SetParam_keeps_data Samples.keep_seed (fun _ => 0)
                  (Samples.new_iterator 1) "verbose" "1")).
  rewrite !not_elem_of_cons. repeat split; try discriminate. apply not_elem_of_nil.
Defined.

End LoaderProps.
